(** * DX-Ball: a shallow embedding of the simulation core of [21201172.cpp]

    The game keeps its whole state in global variables; here they are the
    fields of one record, [World], threaded explicitly through every
    function.  The collaborators the code talks to (the C library's [rand],
    the GLUT clock, the three text files and the sound device) are part of
    the same record or are passed in as arguments, so every function of the
    source becomes a total function on [World].

    Numbers.  [int] is [Z] (signed overflow is undefined in C++, so the
    development speaks about runs that stay in range).  [float] and
    [double] are idealised as the real numbers [R]: [cosf], [sinf], [sqrtf]
    and [fabs] are [cos], [sin], [sqrt] and [Rabs], and rounding is not
    modelled.  Every constant of the source that appears in a statement
    below (0, 8, 16, 50, 120, 340, 380, 800, ...) is a float exactly. *)

From Stdlib Require Import Reals Lra Lia ZArith List Bool Ascii.
Import ListNotations.

Open Scope Z_scope.
Open Scope R_scope.

(** ** Comparisons of the source as booleans *)

Definition Rltb (a b : R) : bool := if Rlt_dec a b then true else false.
Definition Rleb (a b : R) : bool := if Rle_dec a b then true else false.
Definition Rgtb (a b : R) : bool := Rltb b a.
Definition Rgeb (a b : R) : bool := Rleb b a.

(** [(int) d] for a [double] d: truncation towards zero. *)
Definition truncZ (d : R) : Z :=
  if Rle_dec 0 d then Int_part d else (- Int_part (- d))%Z.

(** ** Part 2: window and global constants *)

Definition WIN_W : Z := 800.
Definition WIN_H : Z := 600.
Definition MAX_RECENT : Z := 5.

(** ** Part 3: game types *)

Inductive GameState : Type :=
  | GS_MENU | GS_PLAYING | GS_PAUSED | GS_LEVEL_CLEAR
  | GS_GAMEOVER | GS_HELP | GS_SCOREBOARD | GS_MUSIC_MENU.

Definition GameState_eqb (a b : GameState) : bool :=
  match a, b with
  | GS_MENU, GS_MENU | GS_PLAYING, GS_PLAYING | GS_PAUSED, GS_PAUSED
  | GS_LEVEL_CLEAR, GS_LEVEL_CLEAR | GS_GAMEOVER, GS_GAMEOVER
  | GS_HELP, GS_HELP | GS_SCOREBOARD, GS_SCOREBOARD
  | GS_MUSIC_MENU, GS_MUSIC_MENU => true
  | _, _ => false
  end.

Module Ball.
Record t : Type := mk {
  x : R; y : R; vx : R; vy : R; radius : R; speed : R;
  stuck : bool; isFireball : bool; fireballTimer : R }.
Definition set_x (v : R) (b : t) : t :=
  mk v (y b) (vx b) (vy b) (radius b) (speed b) (stuck b) (isFireball b) (fireballTimer b).
Definition set_y (v : R) (b : t) : t :=
  mk (x b) v (vx b) (vy b) (radius b) (speed b) (stuck b) (isFireball b) (fireballTimer b).
Definition set_vx (v : R) (b : t) : t :=
  mk (x b) (y b) v (vy b) (radius b) (speed b) (stuck b) (isFireball b) (fireballTimer b).
Definition set_vy (v : R) (b : t) : t :=
  mk (x b) (y b) (vx b) v (radius b) (speed b) (stuck b) (isFireball b) (fireballTimer b).
Definition set_speed (v : R) (b : t) : t :=
  mk (x b) (y b) (vx b) (vy b) (radius b) v (stuck b) (isFireball b) (fireballTimer b).
Definition set_stuck (v : bool) (b : t) : t :=
  mk (x b) (y b) (vx b) (vy b) (radius b) (speed b) v (isFireball b) (fireballTimer b).
Definition set_isFireball (v : bool) (b : t) : t :=
  mk (x b) (y b) (vx b) (vy b) (radius b) (speed b) (stuck b) v (fireballTimer b).
Definition set_fireballTimer (v : R) (b : t) : t :=
  mk (x b) (y b) (vx b) (vy b) (radius b) (speed b) (stuck b) (isFireball b) v.
End Ball.

Module Paddle.
Record t : Type := mk { x : R; y : R; w : R; h : R; speed : R }.
Definition set_x (v : R) (p : t) : t := mk v (y p) (w p) (h p) (speed p).
Definition set_w (v : R) (p : t) : t := mk (x p) (y p) v (h p) (speed p).
End Paddle.

Module Brick.
Record t : Type := mk {
  x : R; y : R; w : R; h : R; hits : Z; alive : bool; type : Z }.
Definition set_hits (v : Z) (b : t) : t :=
  mk (x b) (y b) (w b) (h b) v (alive b) (type b).
Definition set_alive (v : bool) (b : t) : t :=
  mk (x b) (y b) (w b) (h b) (hits b) v (type b).
End Brick.

Module Perk.
Record t : Type := mk { x : R; y : R; vy : R; type : Z; alive : bool }.
Definition set_y (v : R) (p : t) : t := mk (x p) v (vy p) (type p) (alive p).
Definition set_alive (v : bool) (p : t) : t := mk (x p) (y p) (vy p) (type p) v.
End Perk.

Module Projectile.
Record t : Type := mk { x : R; y : R; vy : R; alive : bool }.
Definition set_y (v : R) (p : t) : t := mk (x p) v (vy p) (alive p).
Definition set_alive (v : bool) (p : t) : t := mk (x p) (y p) (vy p) v.
End Projectile.

(** The files and the sound device the program touches.  A file that cannot
    be opened for reading is [None] ([loadRecentScores] and [loadHighScore]
    then see nothing); [writable] says whether an [ofstream] on the working
    directory opens.  [scores_txt] holds the integers that [ifs >> x] reads
    back, in file order. *)
Module Disk.
Record t : Type := mk {
  scores_txt : option (list Z);
  highscore_txt : option Z;
  help_txt : bool;          (* help.txt exists and is not empty *)
  music_wav : bool;         (* music.wav exists *)
  writable : bool;
  sound_looping : bool;     (* PlaySound is looping the track *)
  notepad_launches : nat }. (* calls of system("start notepad help.txt") *)
Definition set_scores_txt (v : option (list Z)) (d : t) : t :=
  mk v (highscore_txt d) (help_txt d) (music_wav d) (writable d)
     (sound_looping d) (notepad_launches d).
Definition set_highscore_txt (v : option Z) (d : t) : t :=
  mk (scores_txt d) v (help_txt d) (music_wav d) (writable d)
     (sound_looping d) (notepad_launches d).
Definition set_help_txt (v : bool) (d : t) : t :=
  mk (scores_txt d) (highscore_txt d) v (music_wav d) (writable d)
     (sound_looping d) (notepad_launches d).
Definition set_sound_looping (v : bool) (d : t) : t :=
  mk (scores_txt d) (highscore_txt d) (help_txt d) (music_wav d) (writable d)
     v (notepad_launches d).
Definition set_notepad_launches (v : nat) (d : t) : t :=
  mk (scores_txt d) (highscore_txt d) (help_txt d) (music_wav d) (writable d)
     (sound_looping d) v.
End Disk.

(** The globals of the program, the stream of values [rand()] will return
    with the number of draws made so far, and the disk. *)
Record World : Type := mkWorld {
  gameState : GameState;
  currentLevel : Z;
  ball : Ball.t;
  paddle : Paddle.t;
  bricks : list Brick.t;
  perks : list Perk.t;
  projectiles : list Projectile.t;
  score : Z;
  lives : Z;
  highScore : Z;
  bricksRemaining : Z;
  gameStartTime : R;
  elapsedTime : R;
  fireCooldown : R;
  keyLeft : bool;
  keyRight : bool;
  musicPlaying : bool;
  rand_src : nat -> Z;
  rand_pos : nat;
  disk : Disk.t }.

Definition set_gameState (v : GameState) (s : World) : World :=
  mkWorld v (currentLevel s) (ball s) (paddle s) (bricks s) (perks s)
    (projectiles s) (score s) (lives s) (highScore s) (bricksRemaining s)
    (gameStartTime s) (elapsedTime s) (fireCooldown s) (keyLeft s) (keyRight s)
    (musicPlaying s) (rand_src s) (rand_pos s) (disk s).
Definition set_currentLevel (v : Z) (s : World) : World :=
  mkWorld (gameState s) v (ball s) (paddle s) (bricks s) (perks s)
    (projectiles s) (score s) (lives s) (highScore s) (bricksRemaining s)
    (gameStartTime s) (elapsedTime s) (fireCooldown s) (keyLeft s) (keyRight s)
    (musicPlaying s) (rand_src s) (rand_pos s) (disk s).
Definition set_ball (v : Ball.t) (s : World) : World :=
  mkWorld (gameState s) (currentLevel s) v (paddle s) (bricks s) (perks s)
    (projectiles s) (score s) (lives s) (highScore s) (bricksRemaining s)
    (gameStartTime s) (elapsedTime s) (fireCooldown s) (keyLeft s) (keyRight s)
    (musicPlaying s) (rand_src s) (rand_pos s) (disk s).
Definition set_paddle (v : Paddle.t) (s : World) : World :=
  mkWorld (gameState s) (currentLevel s) (ball s) v (bricks s) (perks s)
    (projectiles s) (score s) (lives s) (highScore s) (bricksRemaining s)
    (gameStartTime s) (elapsedTime s) (fireCooldown s) (keyLeft s) (keyRight s)
    (musicPlaying s) (rand_src s) (rand_pos s) (disk s).
Definition set_bricks (v : list Brick.t) (s : World) : World :=
  mkWorld (gameState s) (currentLevel s) (ball s) (paddle s) v (perks s)
    (projectiles s) (score s) (lives s) (highScore s) (bricksRemaining s)
    (gameStartTime s) (elapsedTime s) (fireCooldown s) (keyLeft s) (keyRight s)
    (musicPlaying s) (rand_src s) (rand_pos s) (disk s).
Definition set_perks (v : list Perk.t) (s : World) : World :=
  mkWorld (gameState s) (currentLevel s) (ball s) (paddle s) (bricks s) v
    (projectiles s) (score s) (lives s) (highScore s) (bricksRemaining s)
    (gameStartTime s) (elapsedTime s) (fireCooldown s) (keyLeft s) (keyRight s)
    (musicPlaying s) (rand_src s) (rand_pos s) (disk s).
Definition set_projectiles (v : list Projectile.t) (s : World) : World :=
  mkWorld (gameState s) (currentLevel s) (ball s) (paddle s) (bricks s) (perks s)
    v (score s) (lives s) (highScore s) (bricksRemaining s)
    (gameStartTime s) (elapsedTime s) (fireCooldown s) (keyLeft s) (keyRight s)
    (musicPlaying s) (rand_src s) (rand_pos s) (disk s).
Definition set_score (v : Z) (s : World) : World :=
  mkWorld (gameState s) (currentLevel s) (ball s) (paddle s) (bricks s) (perks s)
    (projectiles s) v (lives s) (highScore s) (bricksRemaining s)
    (gameStartTime s) (elapsedTime s) (fireCooldown s) (keyLeft s) (keyRight s)
    (musicPlaying s) (rand_src s) (rand_pos s) (disk s).
Definition set_lives (v : Z) (s : World) : World :=
  mkWorld (gameState s) (currentLevel s) (ball s) (paddle s) (bricks s) (perks s)
    (projectiles s) (score s) v (highScore s) (bricksRemaining s)
    (gameStartTime s) (elapsedTime s) (fireCooldown s) (keyLeft s) (keyRight s)
    (musicPlaying s) (rand_src s) (rand_pos s) (disk s).
Definition set_highScore (v : Z) (s : World) : World :=
  mkWorld (gameState s) (currentLevel s) (ball s) (paddle s) (bricks s) (perks s)
    (projectiles s) (score s) (lives s) v (bricksRemaining s)
    (gameStartTime s) (elapsedTime s) (fireCooldown s) (keyLeft s) (keyRight s)
    (musicPlaying s) (rand_src s) (rand_pos s) (disk s).
Definition set_bricksRemaining (v : Z) (s : World) : World :=
  mkWorld (gameState s) (currentLevel s) (ball s) (paddle s) (bricks s) (perks s)
    (projectiles s) (score s) (lives s) (highScore s) v
    (gameStartTime s) (elapsedTime s) (fireCooldown s) (keyLeft s) (keyRight s)
    (musicPlaying s) (rand_src s) (rand_pos s) (disk s).
Definition set_gameStartTime (v : R) (s : World) : World :=
  mkWorld (gameState s) (currentLevel s) (ball s) (paddle s) (bricks s) (perks s)
    (projectiles s) (score s) (lives s) (highScore s) (bricksRemaining s)
    v (elapsedTime s) (fireCooldown s) (keyLeft s) (keyRight s)
    (musicPlaying s) (rand_src s) (rand_pos s) (disk s).
Definition set_elapsedTime (v : R) (s : World) : World :=
  mkWorld (gameState s) (currentLevel s) (ball s) (paddle s) (bricks s) (perks s)
    (projectiles s) (score s) (lives s) (highScore s) (bricksRemaining s)
    (gameStartTime s) v (fireCooldown s) (keyLeft s) (keyRight s)
    (musicPlaying s) (rand_src s) (rand_pos s) (disk s).
Definition set_fireCooldown (v : R) (s : World) : World :=
  mkWorld (gameState s) (currentLevel s) (ball s) (paddle s) (bricks s) (perks s)
    (projectiles s) (score s) (lives s) (highScore s) (bricksRemaining s)
    (gameStartTime s) (elapsedTime s) v (keyLeft s) (keyRight s)
    (musicPlaying s) (rand_src s) (rand_pos s) (disk s).
Definition set_keyLeft (v : bool) (s : World) : World :=
  mkWorld (gameState s) (currentLevel s) (ball s) (paddle s) (bricks s) (perks s)
    (projectiles s) (score s) (lives s) (highScore s) (bricksRemaining s)
    (gameStartTime s) (elapsedTime s) (fireCooldown s) v (keyRight s)
    (musicPlaying s) (rand_src s) (rand_pos s) (disk s).
Definition set_keyRight (v : bool) (s : World) : World :=
  mkWorld (gameState s) (currentLevel s) (ball s) (paddle s) (bricks s) (perks s)
    (projectiles s) (score s) (lives s) (highScore s) (bricksRemaining s)
    (gameStartTime s) (elapsedTime s) (fireCooldown s) (keyLeft s) v
    (musicPlaying s) (rand_src s) (rand_pos s) (disk s).
Definition set_musicPlaying (v : bool) (s : World) : World :=
  mkWorld (gameState s) (currentLevel s) (ball s) (paddle s) (bricks s) (perks s)
    (projectiles s) (score s) (lives s) (highScore s) (bricksRemaining s)
    (gameStartTime s) (elapsedTime s) (fireCooldown s) (keyLeft s) (keyRight s)
    v (rand_src s) (rand_pos s) (disk s).
Definition set_rand_pos (v : nat) (s : World) : World :=
  mkWorld (gameState s) (currentLevel s) (ball s) (paddle s) (bricks s) (perks s)
    (projectiles s) (score s) (lives s) (highScore s) (bricksRemaining s)
    (gameStartTime s) (elapsedTime s) (fireCooldown s) (keyLeft s) (keyRight s)
    (musicPlaying s) (rand_src s) v (disk s).
Definition set_disk (v : Disk.t) (s : World) : World :=
  mkWorld (gameState s) (currentLevel s) (ball s) (paddle s) (bricks s) (perks s)
    (projectiles s) (score s) (lives s) (highScore s) (bricksRemaining s)
    (gameStartTime s) (elapsedTime s) (fireCooldown s) (keyLeft s) (keyRight s)
    (musicPlaying s) (rand_src s) (rand_pos s) v.

Definition FIRE_RATE : R := 0.3.
Definition PERK_DROP_PROB : R := 0.25.
Definition BALL_SPEED_MAX : R := 900.
Definition BALL_SPEED_INCREASE_RATE : R := 5.

(** [RAND_MAX] of the C runtime the build command of the source targets
    (MinGW: 0x7FFF). *)
Definition RAND_MAX : Z := 32767.

(** [rand()]: the next value of the stream, and one more draw made. *)
Definition rand (s : World) : Z * World :=
  (rand_src s (rand_pos s), set_rand_pos (S (rand_pos s)) s).

(** A counting loop [for (int i = 0; i < n; ++i) body], run on the state. *)
Definition for_loop (n : Z) (body : Z -> World -> World) (s : World) : World :=
  fold_left (fun acc i => body (Z.of_nat i) acc) (seq 0 (Z.to_nat n)) s.

(** ** Part 6: game initialization and level creation *)

Definition resetPaddleAndBall (s : World) : World :=
  let pw := 120 in
  let ph := 16 in
  let px := (IZR WIN_W - pw) / 2 in
  let py := 50 in
  let p := Paddle.mk px py pw ph 600 in
  let radius := 8 in
  let b := Ball.mk (px + pw / 2) (py + ph + radius + 1) 0 0 radius 380
                   true false 0 in
  set_ball b (set_paddle p s).

(** The hit count the generator gives a brick of level [level] on the draw
    [d] of [rand()]. *)
Definition brickHits (level d : Z) : Z :=
  if (Z.rem d 100 <? Z.max 0 (level - 1) * 15)%Z then 2%Z else 1%Z.

(** Its type (1: drops a perk) on the draw [d]. *)
Definition brickType (level d : Z) : Z :=
  if Rltb (IZR d / (IZR RAND_MAX + 1)) (PERK_DROP_PROB + 0.02 * IZR (level - 1))
  then 1%Z else 0%Z.

Definition levelRows (level : Z) : Z := Z.min (3 + level) 8.
Definition levelCols : Z := 10.

(** The body of the inner loop of [createBricksForLevel]. *)
Definition createBrick (level r c : Z) (s : World) : World :=
  let margin := 60 in
  let gap := 6 in
  let brickW := (IZR WIN_W - 2 * margin - IZR (levelCols - 1) * gap) / IZR levelCols in
  let brickH := 22 in
  let startY := IZR WIN_H - 100 in
  let (d1, s1) := rand s in
  let (d2, s2) := rand s1 in
  let b := Brick.mk (margin + IZR c * (brickW + gap))
                    (startY - IZR r * (brickH + gap))
                    brickW brickH (brickHits level d1) true (brickType level d2) in
  set_bricksRemaining (bricksRemaining s2 + 1)%Z (set_bricks (bricks s2 ++ [b]) s2).

Definition createBricksForLevel (level : Z) (s : World) : World :=
  let s := set_projectiles [] (set_perks [] (set_bricks [] s)) in
  let s := set_bricksRemaining 0%Z s in
  let s := for_loop (levelRows level)
             (fun r => for_loop levelCols (fun c => createBrick level r c)) s in
  let speed := 380 + IZR (level - 1) * 30 in
  let speed := if Rgtb speed BALL_SPEED_MAX then BALL_SPEED_MAX else speed in
  set_ball (Ball.set_speed speed (ball s)) s.

(** [now] is what [glutGet(GLUT_ELAPSED_TIME)] returns at the call. *)
Definition startNewGame (now : Z) (s : World) : World :=
  let s := set_currentLevel 1%Z s in
  let s := set_lives 3%Z (set_score 0%Z s) in
  let s := createBricksForLevel (currentLevel s) s in
  let s := resetPaddleAndBall s in
  let s := set_gameStartTime (IZR now) s in
  let s := set_elapsedTime 0 s in
  set_gameState GS_PLAYING s.

Definition startLevel (now : Z) (level : Z) (s : World) : World :=
  let s := createBricksForLevel level s in
  let s := resetPaddleAndBall s in
  let s := set_gameStartTime (IZR now) s in
  let s := set_elapsedTime 0 s in
  set_gameState GS_PLAYING s.

(** ** Part 10: score persistence *)

Definition loadRecentScores (s : World) : list Z :=
  match Disk.scores_txt (disk s) with
  | Some v => v
  | None => []
  end.

Definition saveScore (sc : Z) (s : World) : World :=
  let scores := sc :: loadRecentScores s in
  let scores := if (Z.of_nat (length scores) >? MAX_RECENT)%Z
                then firstn (Z.to_nat MAX_RECENT) scores else scores in
  if Disk.writable (disk s)
  then set_disk (Disk.set_scores_txt (Some scores) (disk s)) s
  else s.

Definition saveHighScore (newScore : Z) (s : World) : World :=
  if (newScore >? highScore s)%Z then
    let s := set_highScore newScore s in
    if Disk.writable (disk s)
    then set_disk (Disk.set_highscore_txt (Some (highScore s)) (disk s)) s
    else s
  else s.

Definition loadHighScore (s : World) : Z :=
  match Disk.highscore_txt (disk s) with
  | Some v => v
  | None => 0%Z
  end.

(** ** Part 7: perks *)

Definition perkTypeOfDraw (t : Z) : Z :=
  if (t <? 35)%Z then 0%Z
  else if (t <? 65)%Z then 1%Z
  else if (t <? 80)%Z then 2%Z
  else if (t <? 90)%Z then 3%Z
  else if (t <? 97)%Z then 4%Z
  else 5%Z.

Definition spawnPerk (x y : R) (s : World) : World :=
  let (d, s) := rand s in
  let t := Z.rem d 100 in
  let p := Perk.mk x y (-150) (perkTypeOfDraw t) true in
  set_perks (perks s ++ [p]) s.

(** [lives--; if (lives <= 0) { saveScore(score); saveHighScore(score);
     gameState = GS_GAMEOVER; } else { resetPaddleAndBall(); }]
    the statements that [applyPerk] (for the death perk) and [updateGame]
    (for a missed ball) both carry. *)
Definition loseLife (s : World) : World :=
  let s := set_lives (lives s - 1)%Z s in
  if (lives s <=? 0)%Z then
    let s := saveScore (score s) s in
    let s := saveHighScore (score s) s in
    set_gameState GS_GAMEOVER s
  else resetPaddleAndBall s.

(** [applyPerk] works on a reference to a perk of the vector it is called
    from; the perk is returned next to the state. *)
Definition applyPerk (p : Perk.t) (s : World) : Perk.t * World :=
  let s :=
    if (Perk.type p =? 0)%Z then set_lives (lives s + 1)%Z s
    else if (Perk.type p =? 1)%Z then
      let w := Paddle.w (paddle s) + 40 in
      let w := if Rgtb w 280 then 280 else w in
      set_paddle (Paddle.set_w w (paddle s)) s
    else if (Perk.type p =? 2)%Z then
      let v := Ball.speed (ball s) * 1.15 in
      let v := if Rgtb v BALL_SPEED_MAX then BALL_SPEED_MAX else v in
      set_ball (Ball.set_speed v (ball s)) s
    else if (Perk.type p =? 3)%Z then
      set_ball (Ball.set_fireballTimer 10 (Ball.set_isFireball true (ball s))) s
    else if (Perk.type p =? 4)%Z then
      let w := Paddle.w (paddle s) - 30 in
      let w := if Rltb w 40 then 40 else w in
      set_paddle (Paddle.set_w w (paddle s)) s
    else if (Perk.type p =? 5)%Z then loseLife s
    else s in
  (Perk.set_alive false p, s).

(** ** Part 8: ball physics and collision handling *)

Definition launchBall (s : World) : World :=
  if negb (Ball.stuck (ball s)) then s
  else
    let s := set_ball (Ball.set_stuck false (ball s)) s in
    let (d, s) := rand s in
    let angle := PI / 3 + IZR (Z.rem d 100 - 50) * 0.004 in
    let b := ball s in
    let b := Ball.set_vx (Ball.speed b * cos angle) b in
    let b := Ball.set_vy (Ball.speed b * sin angle) b in
    set_ball b s.

Definition normalizeBallVelocity (s : World) : World :=
  let b := ball s in
  let vmag := sqrt (Ball.vx b * Ball.vx b + Ball.vy b * Ball.vy b) in
  if Rgtb vmag 0.0001 then
    let b := Ball.set_vx (Ball.vx b * (Ball.speed b / vmag)) b in
    let b := Ball.set_vy (Ball.vy b * (Ball.speed b / vmag)) b in
    set_ball b s
  else s.

Definition bounceBallOffPaddle (s : World) : World :=
  let b := ball s in
  let p := paddle s in
  let rel := (Ball.x b - (Paddle.x p + Paddle.w p * 0.5)) / (Paddle.w p * 0.5) in
  let angle := PI / 2 + rel * (75 * PI / 180) in
  let b := Ball.set_y (Paddle.y p + Paddle.h p + Ball.radius b + 1) b in
  let b := Ball.set_vx (Ball.speed b * cos angle) b in
  let b := Ball.set_vy (Ball.speed b * sin angle) b in
  set_ball b s.

Definition handleWallCollisions (s : World) : World :=
  let b := ball s in
  let b := if Rleb (Ball.x b - Ball.radius b) 0
           then Ball.set_vx (- Ball.vx b) (Ball.set_x (Ball.radius b) b) else b in
  let b := if Rgeb (Ball.x b + Ball.radius b) (IZR WIN_W)
           then Ball.set_vx (- Ball.vx b) (Ball.set_x (IZR WIN_W - Ball.radius b) b)
           else b in
  let b := if Rgeb (Ball.y b + Ball.radius b) (IZR WIN_H)
           then Ball.set_vy (- Ball.vy b) (Ball.set_y (IZR WIN_H - Ball.radius b) b)
           else b in
  set_ball b s.

Definition handlePaddleCollision (s : World) : World :=
  let b := ball s in
  let p := paddle s in
  if Rltb (Ball.vy b) 0
     && Rgtb (Ball.x b + Ball.radius b) (Paddle.x p)
     && Rltb (Ball.x b - Ball.radius b) (Paddle.x p + Paddle.w p)
     && Rltb (Ball.y b - Ball.radius b) (Paddle.y p + Paddle.h p)
     && Rgtb (Ball.y b + Ball.radius b) (Paddle.y p)
  then bounceBallOffPaddle s
  else s.

(** The bounding-box test of [handleBrickCollisions]. *)
Definition ballOverlaps (bl : Ball.t) (b : Brick.t) : bool :=
  Rgtb (Ball.x bl + Ball.radius bl) (Brick.x b)
  && Rltb (Ball.x bl - Ball.radius bl) (Brick.x b + Brick.w b)
  && Rgtb (Ball.y bl + Ball.radius bl) (Brick.y b)
  && Rltb (Ball.y bl - Ball.radius bl) (Brick.y b + Brick.h b).

(** [b.alive = false; bricksRemaining--; score += 10;
     if (b.type==1) spawnPerk(b.x + b.w/2, b.y + b.h/2);]
    the statements the source repeats wherever a brick is destroyed. *)
Definition destroyBrick (b : Brick.t) (s : World) : Brick.t * World :=
  let b := Brick.set_alive false b in
  let s := set_bricksRemaining (bricksRemaining s - 1)%Z s in
  let s := set_score (score s + 10)%Z s in
  let s := if (Brick.type b =? 1)%Z
           then spawnPerk (Brick.x b + Brick.w b / 2) (Brick.y b + Brick.h b / 2) s
           else s in
  (b, s).

(** [b.hits--; if (b.hits <= 0) { ...destroyed... } else score += 5;]
    shared by the ball and the projectiles. *)
Definition damageBrick (b : Brick.t) (s : World) : Brick.t * World :=
  let b := Brick.set_hits (Brick.hits b - 1)%Z b in
  if (Brick.hits b <=? 0)%Z then destroyBrick b s
  else (b, set_score (score s + 5)%Z s).

(** The non-fireball branch for the brick [b] that the ball overlaps. *)
Definition bounceOffBrick (b : Brick.t) (s : World) : Brick.t * World :=
  let bl := ball s in
  let overlapX := (Brick.w b / 2 + Ball.radius bl)
                  - Rabs (Ball.x bl - (Brick.x b + Brick.w b / 2)) in
  let overlapY := (Brick.h b / 2 + Ball.radius bl)
                  - Rabs (Ball.y bl - (Brick.y b + Brick.h b / 2)) in
  let bl := if Rltb overlapX overlapY
            then Ball.set_vx (- Ball.vx bl) bl
            else Ball.set_vy (- Ball.vy bl) bl in
  damageBrick b (set_ball bl s).

(** The loop of [handleBrickCollisions] over the rest [bs] of the vector:
    the bricks as the loop leaves them, and the state. *)
Fixpoint brickLoop (bs : list Brick.t) (s : World) : list Brick.t * World :=
  match bs with
  | [] => ([], s)
  | b :: rest =>
      if negb (Brick.alive b) then
        let (rest', s') := brickLoop rest s in (b :: rest', s')
      else if ballOverlaps (ball s) b then
        if Ball.isFireball (ball s) then
          let (b', s1) := destroyBrick b s in
          let (rest', s') := brickLoop rest s1 in (b' :: rest', s')
        else
          let (b', s1) := bounceOffBrick b s in
          (b' :: rest, s1)                                   (* break *)
      else
        let (rest', s') := brickLoop rest s in (b :: rest', s')
  end.

Definition handleBrickCollisions (s : World) : World :=
  let (bs, s') := brickLoop (bricks s) s in
  set_bricks bs s'.

Definition perkCaught (p : Perk.t) (pd : Paddle.t) : bool :=
  Rgtb (Perk.x p) (Paddle.x pd)
  && Rltb (Perk.x p) (Paddle.x pd + Paddle.w pd)
  && Rltb (Perk.y p) (Paddle.y pd + Paddle.h pd)
  && Rgtb (Perk.y p) (Paddle.y pd).

Fixpoint perkLoop (dt : R) (ps : list Perk.t) (s : World) : list Perk.t * World :=
  match ps with
  | [] => ([], s)
  | p :: rest =>
      if negb (Perk.alive p) then
        let (rest', s') := perkLoop dt rest s in (p :: rest', s')
      else
        let p := Perk.set_y (Perk.y p + Perk.vy p * dt) p in
        let p := if Rltb (Perk.y p) (-40) then Perk.set_alive false p else p in
        let (p, s1) := if perkCaught p (paddle s) then applyPerk p s else (p, s) in
        let (rest', s') := perkLoop dt rest s1 in (p :: rest', s')
  end.

Definition handlePerks (dt : R) (s : World) : World :=
  let (ps, s') := perkLoop dt (perks s) s in
  set_perks ps s'.

Definition projectileInside (p : Projectile.t) (b : Brick.t) : bool :=
  Rgtb (Projectile.x p) (Brick.x b)
  && Rltb (Projectile.x p) (Brick.x b + Brick.w b)
  && Rgtb (Projectile.y p) (Brick.y b)
  && Rltb (Projectile.y p) (Brick.y b + Brick.h b).

(** The inner loop of [handleProjectiles] for the projectile [p]. *)
Fixpoint projectileBrickLoop (p : Projectile.t) (bs : list Brick.t) (s : World)
  : Projectile.t * list Brick.t * World :=
  match bs with
  | [] => (p, [], s)
  | b :: rest =>
      if Brick.alive b && projectileInside p b then
        let p := Projectile.set_alive false p in
        let (b', s1) := damageBrick b s in
        (p, b' :: rest, s1)                                  (* break *)
      else
        let '(p', rest', s') := projectileBrickLoop p rest s in
        (p', b :: rest', s')
  end.

(** The outer loop; the bricks live in the state here, since every
    projectile scans the vector as the previous ones left it. *)
Fixpoint projectileLoop (dt : R) (ps : list Projectile.t) (s : World)
  : list Projectile.t * World :=
  match ps with
  | [] => ([], s)
  | p :: rest =>
      if negb (Projectile.alive p) then
        let (rest', s') := projectileLoop dt rest s in (p :: rest', s')
      else
        let p := Projectile.set_y (Projectile.y p + Projectile.vy p * dt) p in
        let p := if Rgtb (Projectile.y p) (IZR WIN_H)
                 then Projectile.set_alive false p else p in
        let '(p, bs, s1) := projectileBrickLoop p (bricks s) s in
        let s1 := set_bricks bs s1 in
        let (rest', s') := projectileLoop dt rest s1 in (p :: rest', s')
  end.

Definition handleProjectiles (dt : R) (s : World) : World :=
  let (ps, s') := projectileLoop dt (projectiles s) s in
  set_projectiles ps s'.

(** ** Part 9: the update loop *)

Definition increaseBallSpeedOverTime (dt : R) (s : World) : World :=
  if negb (Ball.stuck (ball s)) then
    let v := Ball.speed (ball s) + BALL_SPEED_INCREASE_RATE * dt in
    let v := if Rgtb v BALL_SPEED_MAX then BALL_SPEED_MAX else v in
    normalizeBallVelocity (set_ball (Ball.set_speed v (ball s)) s)
  else s.

(** The statements of [updateGame] before the miss test, one function per
    statement group. *)

(** [elapsedTime = (glutGet(GLUT_ELAPSED_TIME) - gameStartTime) / 1000.0;] *)
Definition tickClock (now : Z) (s : World) : World :=
  set_elapsedTime ((IZR now - gameStartTime s) / 1000) s.

(** [if (fireCooldown > 0) fireCooldown -= dt;] *)
Definition tickCooldown (dt : R) (s : World) : World :=
  if Rgtb (fireCooldown s) 0
  then set_fireCooldown (fireCooldown s - dt) s else s.

(** [if (ball.isFireball) { ball.fireballTimer -= dt;
      if (ball.fireballTimer <= 0) ball.isFireball = false; }] *)
Definition tickFireball (dt : R) (s : World) : World :=
  if Ball.isFireball (ball s) then
    let b := Ball.set_fireballTimer (Ball.fireballTimer (ball s) - dt) (ball s) in
    let b := if Rleb (Ball.fireballTimer b) 0
             then Ball.set_isFireball false b else b in
    set_ball b s
  else s.

(** The key motion of the paddle and its clamp to the window. *)
Definition movePaddle (dt : R) (s : World) : World :=
  let mv := Paddle.speed (paddle s) * dt in
  let p := paddle s in
  let p := if keyLeft s then Paddle.set_x (Paddle.x p - mv) p else p in
  let p := if keyRight s then Paddle.set_x (Paddle.x p + mv) p else p in
  let p := if Rltb (Paddle.x p) 0 then Paddle.set_x 0 p else p in
  let p := if Rgtb (Paddle.x p + Paddle.w p) (IZR WIN_W)
           then Paddle.set_x (IZR WIN_W - Paddle.w p) p else p in
  set_paddle p s.

(** [if (ball.stuck) ball.x = paddle.x + paddle.w/2.0f;
     else { ball.x += ball.vx * dt; ball.y += ball.vy * dt; }] *)
Definition moveBall (dt : R) (s : World) : World :=
  let b := ball s in
  let p := paddle s in
  let b := if Ball.stuck b
           then Ball.set_x (Paddle.x p + Paddle.w p / 2) b
           else Ball.set_y (Ball.y b + Ball.vy b * dt)
                  (Ball.set_x (Ball.x b + Ball.vx b * dt) b) in
  set_ball b s.

(** [updateGame] up to and including [handleWallCollisions()]. *)
Definition updateMotion (dt : R) (now : Z) (s : World) : World :=
  let s := tickClock now s in
  let s := tickCooldown dt s in
  let s := tickFireball dt s in
  let s := movePaddle dt s in
  let s := moveBall dt s in
  handleWallCollisions s.

(** The test [ball.y - ball.radius <= 0] that follows; when it holds the
    function ends with [loseLife]. *)
Definition ballMissed (s : World) : bool :=
  Rleb (Ball.y (ball s) - Ball.radius (ball s)) 0.

Definition updateGame (dt : R) (now : Z) (s : World) : World :=
  if negb (GameState_eqb (gameState s) GS_PLAYING) then s
  else
    let s := updateMotion dt now s in
    if ballMissed s then loseLife s                          (* return *)
    else
      let s := handlePaddleCollision s in
      let s := handleBrickCollisions s in
      let s := handlePerks dt s in
      let s := handleProjectiles dt s in
      let s := increaseBallSpeedOverTime dt s in
      if (bricksRemaining s <=? 0)%Z then
        set_gameState GS_LEVEL_CLEAR (saveScore (score s) s)
      else s.

(** ** Part 11: help file and music control *)

Definition openHelpFile (s : World) : World :=
  let d := disk s in
  let d := if Disk.writable d
           then (if negb (Disk.help_txt d) then Disk.set_help_txt true d else d)
           else d in
  let d := Disk.set_notepad_launches (S (Disk.notepad_launches d)) d in
  set_disk d s.

Definition stopMusic (s : World) : World :=
  set_musicPlaying false (set_disk (Disk.set_sound_looping false (disk s)) s).

Definition playMusic (s : World) : World :=
  let s := stopMusic s in
  if Disk.music_wav (disk s)
  then set_musicPlaying true (set_disk (Disk.set_sound_looping true (disk s)) s)
  else s.

(** ** Part 13: input handling *)

(** Constants of [GL/glut.h]. *)
Definition GLUT_LEFT_BUTTON : Z := 0.
Definition GLUT_DOWN : Z := 0.
Definition GLUT_KEY_LEFT : Z := 100.
Definition GLUT_KEY_RIGHT : Z := 102.

Definition mouseClick (button state x y : Z) (s : World) : World :=
  if negb (button =? GLUT_LEFT_BUTTON)%Z || negb (state =? GLUT_DOWN)%Z then s
  else if GameState_eqb (gameState s) GS_PLAYING then
    if Rleb (fireCooldown s) 0 then
      let p := paddle s in
      let s := set_projectiles
                 (projectiles s
                  ++ [Projectile.mk (Paddle.x p + 10) (Paddle.y p + Paddle.h p) 500 true])
                 s in
      let s := set_projectiles
                 (projectiles s
                  ++ [Projectile.mk (Paddle.x p + Paddle.w p - 10)
                                    (Paddle.y p + Paddle.h p) 500 true])
                 s in
      set_fireCooldown FIRE_RATE s
    else s
  else s.

Definition passiveMouse (x y : Z) (s : World) : World :=
  if GameState_eqb (gameState s) GS_PLAYING then
    let p := Paddle.set_x (IZR x - Paddle.w (paddle s) * 0.5) (paddle s) in
    let s := set_paddle p s in
    if Ball.stuck (ball s)
    then set_ball (Ball.set_x (Paddle.x p + Paddle.w p * 0.5) (ball s)) s
    else s
  else s.

Definition ESC : ascii := "027"%char.

(** [keyboardDown]; [None] is [exit(0)]. *)
Definition keyboardDown (key : ascii) (now : Z) (s : World) : option World :=
  let gs := gameState s in
  if Ascii.eqb key ESC then
    if GameState_eqb gs GS_MENU then None
    else Some (set_gameState GS_MENU s)
  else if Ascii.eqb key " " then
    if GameState_eqb gs GS_PLAYING && Ball.stuck (ball s) then Some (launchBall s)
    else if GameState_eqb gs GS_LEVEL_CLEAR then
      let s := set_currentLevel (currentLevel s + 1)%Z s in
      Some (startLevel now (currentLevel s) s)
    else if GameState_eqb gs GS_GAMEOVER then Some (startNewGame now s)
    else Some s
  else if Ascii.eqb key "p" || Ascii.eqb key "P" then
    if GameState_eqb gs GS_PLAYING then Some (set_gameState GS_PAUSED s)
    else if GameState_eqb gs GS_PAUSED then
      let s := set_gameState GS_PLAYING s in
      Some (set_gameStartTime (IZR (now - truncZ (elapsedTime s * 1000))) s)
    else Some s
  else if Ascii.eqb key "r" || Ascii.eqb key "R" then
    if GameState_eqb gs GS_PLAYING || GameState_eqb gs GS_PAUSED
    then Some (startLevel now (currentLevel s) s)
    else Some s
  else if Ascii.eqb key "a" || Ascii.eqb key "A" then Some (set_keyLeft true s)
  else if Ascii.eqb key "d" || Ascii.eqb key "D" then Some (set_keyRight true s)
  else if GameState_eqb gs GS_MENU then
    if Ascii.eqb key "1" then Some (startNewGame now s)
    else if Ascii.eqb key "2" then Some (set_gameState GS_SCOREBOARD s)
    else if Ascii.eqb key "3" then Some (set_gameState GS_MUSIC_MENU s)
    else if Ascii.eqb key "4" then Some (set_gameState GS_HELP (openHelpFile s))
    else Some s
  else if GameState_eqb gs GS_MUSIC_MENU then
    if Ascii.eqb key "1" then Some (set_gameState GS_MENU (playMusic s))
    else if Ascii.eqb key "2" then Some (set_gameState GS_MENU (stopMusic s))
    else Some s
  else Some s.

Definition keyboardUp (key : ascii) (s : World) : World :=
  let s := if Ascii.eqb key "a" || Ascii.eqb key "A" then set_keyLeft false s else s in
  if Ascii.eqb key "d" || Ascii.eqb key "D" then set_keyRight false s else s.

Definition specialDown (key : Z) (s : World) : World :=
  let s := if (key =? GLUT_KEY_LEFT)%Z then set_keyLeft true s else s in
  if (key =? GLUT_KEY_RIGHT)%Z then set_keyRight true s else s.

Definition specialUp (key : Z) (s : World) : World :=
  let s := if (key =? GLUT_KEY_LEFT)%Z then set_keyLeft false s else s in
  if (key =? GLUT_KEY_RIGHT)%Z then set_keyRight false s else s.

(** The callbacks registered in [main], as one event type. *)
Inductive Event : Type :=
  | KeyDown (key : ascii)
  | KeyUp (key : ascii)
  | SpecialDown (key : Z)
  | SpecialUp (key : Z)
  | MouseClick (button state x y : Z)
  | MouseMotion (x y : Z).

Definition handleEvent (now : Z) (e : Event) (s : World) : option World :=
  match e with
  | KeyDown key => keyboardDown key now s
  | KeyUp key => Some (keyboardUp key s)
  | SpecialDown key => Some (specialDown key s)
  | SpecialUp key => Some (specialUp key s)
  | MouseClick button state x y => Some (mouseClick button state x y s)
  | MouseMotion x y => Some (passiveMouse x y s)
  end.

(** ** Part 14: the timer loop *)

(** [timerFunc]; its [static int last] is passed in and returned. *)
Definition timerFunc (last now : Z) (s : World) : Z * World :=
  let dt := IZR (now - last) / 1000 in
  let dt := if Rgtb dt 0.1 then 0.1 else dt in
  (now, if GameState_eqb (gameState s) GS_PLAYING then updateGame dt now s else s).

(** ** Part 15: program start *)

(** The globals as their initialisers leave them, over a given stream of
    random numbers and a given disk. *)
Definition initialGlobals (rnd : nat -> Z) (d : Disk.t) : World :=
  mkWorld GS_MENU 1%Z
    (Ball.mk 0 0 0 0 0 0 false false 0) (Paddle.mk 0 0 0 0 0)
    [] [] [] 0%Z 3%Z 0%Z 0%Z 0 0 0 false false false rnd 0%nat d.

(** [main] up to [glutMainLoop()]. *)
Definition mainInit (rnd : nat -> Z) (d : Disk.t) : World :=
  let s := initialGlobals rnd d in
  let s := set_highScore (loadHighScore s) s in
  let s := resetPaddleAndBall s in
  createBricksForLevel (currentLevel s) s.

(** ** Vocabulary of the statements *)

(** The values [rand() % 100] can take, and how many of them the level
    generator maps to a two-hit brick at a level. *)
Definition residues : list Z := map Z.of_nat (seq 0 100).


(** The vector holds [n] bricks, all alive, and the counter agrees. *)
Definition gridOf (n : nat) (s : World) : Prop :=
  length (bricks s) = n
  /\ bricksRemaining s = Z.of_nat n
  /\ Forall (fun b => Brick.alive b = true) (bricks s).

(** A disk with no score yet, and the world [main] builds on it when every
    draw of [rand()] is 0. *)
Definition emptyDisk : Disk.t := Disk.mk None None false false true false 0.

Definition freshWorld : World := mainInit (fun _ => 0%Z) emptyDisk.

(** The world of [freshWorld] with [scores] in scores.txt. *)
Definition withScores (scores : list Z) (s : World) : World :=
  set_disk (Disk.set_scores_txt (Some scores) (disk s)) s.

(** The test that makes [handleBrickCollisions] act on a brick: it is alive
    and its bounding box overlaps the ball's. *)
Definition brickHit (bl : Ball.t) (b : Brick.t) : bool :=
  Brick.alive b && ballOverlaps bl b.

(** In the state [s] the ball is no fireball and [b] is the first brick of
    the vector that passes the test. *)
Definition firstHit (s : World) (pre : list Brick.t) (b : Brick.t)
    (post : list Brick.t) : Prop :=
  Ball.isFireball (ball s) = false
  /\ bricks s = pre ++ b :: post
  /\ Forall (fun c => brickHit (ball s) c = false) pre
  /\ brickHit (ball s) b = true.

(** The first two bricks of a top row, the first one tough, and a world in
    play whose ball (speed 380, velocity (228, 304)) overlaps both, as a
    fireball or not. *)
Definition brickA : Brick.t := Brick.mk 60 500 62.6 22 2 true 0.
Definition brickB : Brick.t := Brick.mk 128.6 500 62.6 22 1 true 0.

Definition betweenBricks (fire : bool) : World :=
  mkWorld GS_PLAYING 1%Z
    (Ball.mk 125.6 498 228 304 8 380 false fire (if fire then 10 else 0))
    (Paddle.mk 340 50 120 16 600)
    [brickA; brickB] [] [] 0%Z 3%Z 0%Z 2%Z 0 0 0 false false false
    (fun _ => 0%Z) 0%nat emptyDisk.

(** What [saveScore(score); saveHighScore(score)] leave behind, from the
    state [s] to the state [s']: the score heads the recent scores, cut to
    five, and the high score (with its file) is the larger of the two. *)
Definition scorePersisted (s s' : World) : Prop :=
  loadRecentScores s' = firstn 5 (score s :: loadRecentScores s)
  /\ highScore s' = Z.max (highScore s) (score s)
  /\ ((score s > highScore s)%Z -> Disk.highscore_txt (disk s') = Some (score s)).

(** A world in play with [l] lives: the paddle widened to 160, the ball in
    flight at speed 500 and about to leave through the bottom, far from the
    paddle; score 40 against a high score of 30. *)
Definition fallingWorld (l : Z) : World :=
  mkWorld GS_PLAYING 1%Z
    (Ball.mk 700 5 0 (-500) 8 500 false false 0) (Paddle.mk 100 50 160 16 600)
    [brickA; brickB] [] [] 40%Z l 30%Z 2%Z 0 0 0 false false false
    (fun _ => 0%Z) 0%nat emptyDisk.

(** A death perk. *)
Definition deathPerk : Perk.t := Perk.mk 150 60 (-150) 5 true.

(** A world in play on the last life: the first brick of the row already
    destroyed, the ball in flight (speed 380, velocity (228, 304)) just
    under the last brick, and a death perk falling onto the paddle; score
    40 against a high score of 30. *)
Definition lastBrickWorld : World :=
  mkWorld GS_PLAYING 1%Z
    (Ball.mk 150 495 228 304 8 380 false false 0) (Paddle.mk 340 50 120 16 600)
    [Brick.mk 60 500 62.6 22 0 false 0; brickB]
    [Perk.mk 400 67 (-150) 5 true] [] 40%Z 1%Z 30%Z 1%Z 0 0 0 false false false
    (fun _ => 0%Z) 0%nat emptyDisk.

(** [lastBrickWorld] as a tick of 16 ms leaves it after [handlePerks]: the
    ball has bounced off the last brick and destroyed it, the perk has been
    caught and has taken the last life. *)
Definition afterPerks : World :=
  mkWorld GS_GAMEOVER 1%Z
    (Ball.mk (150 + 228 * 0.016) (495 + 304 * 0.016) 228 (-304) 8 380 false false 0)
    (Paddle.mk 340 50 120 16 600)
    [Brick.mk 60 500 62.6 22 0 false 0; Brick.mk 128.6 500 62.6 22 0 false 0]
    [Perk.mk 400 (67 + -150 * 0.016) (-150) 5 false] []
    50%Z 0%Z 50%Z 0%Z 0 ((16 - 0) / 1000) 0 false false false
    (fun _ => 0%Z) 0%nat
    (Disk.mk (Some [50%Z]) (Some 50%Z) false false true false 0).

(** The transitions that section 4.4 of the specification lists, as pairs
    of a mode and an input event: cancel (ESC) in every mode; in the menu
    the digits 1 to 4 (start, scoreboard, music menu, help); the pause
    toggle and the level restart while playing or paused; space on the
    level-clear and game-over screens.  This follows the specification's
    words, not [keyboardDown]. *)
Definition specTransition (gs : GameState) (e : Event) : bool :=
  match e with
  | KeyDown key =>
      if Ascii.eqb key ESC then true
      else if Ascii.eqb key " " then
        GameState_eqb gs GS_LEVEL_CLEAR || GameState_eqb gs GS_GAMEOVER
      else if Ascii.eqb key "p" || Ascii.eqb key "P" then
        GameState_eqb gs GS_PLAYING || GameState_eqb gs GS_PAUSED
      else if Ascii.eqb key "r" || Ascii.eqb key "R" then
        GameState_eqb gs GS_PLAYING || GameState_eqb gs GS_PAUSED
      else if Ascii.eqb key "1" || Ascii.eqb key "2"
              || Ascii.eqb key "3" || Ascii.eqb key "4" then
        GameState_eqb gs GS_MENU
      else false
  | _ => false
  end.

(** The mode an event leaves the game in; [None] when the process exits. *)
Definition modeAfter (now : Z) (e : Event) (s : World) : option GameState :=
  option_map gameState (handleEvent now e s).

(** A game in play as [startNewGame] leaves paddle and ball: the paddle 120
    wide in the middle of the window, the ball stuck on it, three lives. *)
Definition servingWorld : World :=
  mkWorld GS_PLAYING 1%Z
    (Ball.mk 400 75 0 0 8 380 true false 0) (Paddle.mk 340 50 120 16 600)
    [brickA; brickB] [] [] 0%Z 3%Z 0%Z 2%Z 0 0 0 false false false
    (fun _ => 0%Z) 0%nat emptyDisk.

(** The state [s'] differs from [s] at most in the paddle, the ball, the
    clock and the fire cooldown. *)
Definition sameGame (s s' : World) : Prop :=
  gameState s' = gameState s
  /\ bricks s' = bricks s /\ perks s' = perks s /\ projectiles s' = projectiles s
  /\ score s' = score s /\ lives s' = lives s /\ highScore s' = highScore s
  /\ bricksRemaining s' = bricksRemaining s /\ rand_pos s' = rand_pos s
  /\ disk s' = disk s.

(** The magnitude of the ball's velocity, as [normalizeBallVelocity]
    computes it. *)
Definition vmag (b : Ball.t) : R :=
  sqrt (Ball.vx b * Ball.vx b + Ball.vy b * Ball.vy b).

(** The invariant of the ball: its speed is at least the base speed 380,
    and in flight its velocity has that magnitude. *)
Definition ballInv (s : World) : Prop :=
  380 <= Ball.speed (ball s)
  /\ (Ball.stuck (ball s) = false -> vmag (ball s) = Ball.speed (ball s)).

(** What holds between a change of speed and the renormalisation that
    ends the tick: the velocity is still that of some speed of at least
    380. *)
Definition ballMoving (s : World) : Prop :=
  380 <= Ball.speed (ball s)
  /\ (Ball.stuck (ball s) = false -> 380 <= vmag (ball s)).

(** Two balls of the same speed, stuck flag and velocity magnitude. *)
Definition sameMotion (b b' : Ball.t) : Prop :=
  Ball.speed b' = Ball.speed b /\ Ball.stuck b' = Ball.stuck b /\ vmag b' = vmag b.

(** A disk on which no [ofstream] opens. *)
Definition readOnlyDisk : Disk.t := Disk.mk None None false false false false 0.

(** The test of [handlePaddleCollision]: the ball moves down and its
    bounding box overlaps the paddle. *)
Definition paddleContact (s : World) : bool :=
  let b := ball s in
  let p := paddle s in
  Rltb (Ball.vy b) 0
  && Rgtb (Ball.x b + Ball.radius b) (Paddle.x p)
  && Rltb (Ball.x b - Ball.radius b) (Paddle.x p + Paddle.w p)
  && Rltb (Ball.y b - Ball.radius b) (Paddle.y p + Paddle.h p)
  && Rgtb (Ball.y b + Ball.radius b) (Paddle.y p).

(** A ball coming down on the left part of the resting paddle. *)
Definition landingWorld : World :=
  mkWorld GS_PLAYING 1%Z
    (Ball.mk 370 70 0 (-380) 8 380 false false 0) (Paddle.mk 340 50 120 16 600)
    [brickA; brickB] [] [] 0%Z 3%Z 0%Z 2%Z 0 0 0 false false false
    (fun _ => 0%Z) 0%nat emptyDisk.

(** The number of bricks of a vector that are alive. *)
Definition aliveCount (bs : list Brick.t) : Z :=
  Z.of_nat (length (filter Brick.alive bs)).

(** What one step of a tick may do to score, bricks, counter, perks and
    projectiles: the score does not drop, the counter moves with the number
    of alive bricks, no brick and no projectile leaves its vector, and the
    perks are only added to. *)
Definition tickStep (s s' : World) : Prop :=
  (score s <= score s')%Z
  /\ (bricksRemaining s' - aliveCount (bricks s')
      = bricksRemaining s - aliveCount (bricks s))%Z
  /\ length (bricks s') = length (bricks s)
  /\ length (projectiles s') = length (projectiles s)
  /\ (length (perks s) <= length (perks s'))%nat.

(** The bounds of section 7: the paddle's width stays in [40, 280] and the
    ball's speed does not exceed 900. *)
Definition sized (s : World) : Prop :=
  40 <= Paddle.w (paddle s) <= 280 /\ Ball.speed (ball s) <= 900.

(** The invariant of the game: the ball's, the bounds, and the counter of
    alive bricks. *)
Definition gameInv (s : World) : Prop :=
  ballInv s /\ sized s /\ bricksRemaining s = aliveCount (bricks s).

(** A step that changes neither the ball's motion nor the paddle's width
    nor the bricks. *)
Definition sameBody (s s' : World) : Prop :=
  sameMotion (ball s) (ball s')
  /\ Paddle.w (paddle s') = Paddle.w (paddle s)
  /\ bricks s' = bricks s
  /\ bricksRemaining s' = bricksRemaining s.

(** The states the program can be in: those [main] sets up, and those an
    input event or a timer call (the clock never running backwards) leads
    to from there. *)
Inductive reachable : World -> Prop :=
  | reach_main (rnd : nat -> Z) (d : Disk.t) : reachable (mainInit rnd d)
  | reach_event (now : Z) (e : Event) (s s' : World) :
      reachable s -> handleEvent now e s = Some s' -> reachable s'
  | reach_timer (last now : Z) (s : World) :
      reachable s -> (last <= now)%Z -> reachable (snd (timerFunc last now s)).

(** The speed [createBricksForLevel] gives the ball at a level. *)
Definition levelSpeed (level : Z) : R :=
  let speed := 380 + IZR (level - 1) * 30 in
  if Rgtb speed BALL_SPEED_MAX then BALL_SPEED_MAX else speed.

(** A game in play 12.3456 seconds into the level. *)
Definition runningWorld : World :=
  mkWorld GS_PLAYING 1%Z
    (Ball.mk 400 300 228 304 8 380 false false 0) (Paddle.mk 340 50 120 16 600)
    [brickA; brickB] [] [] 0%Z 3%Z 0%Z 2%Z 1000 12.3456 0 false false false
    (fun _ => 0%Z) 0%nat emptyDisk.

(** How many of the hundred residues [spawnPerk] maps to a perk type. *)
Definition perkResidues (type : Z) : Z :=
  Z.of_nat (length (filter (fun t => (perkTypeOfDraw t =? type)%Z) residues)).

(** What [handlePerks] may do to one perk in a tick of length [dt]: the
    perk keeps its column, type and fall speed; a dead perk is not touched;
    a perk alive afterwards was alive, has fallen by [vy * dt] and is not
    below the playfield. *)
Definition perkFalls (dt : R) (p p' : Perk.t) : Prop :=
  Perk.x p' = Perk.x p /\ Perk.type p' = Perk.type p /\ Perk.vy p' = Perk.vy p
  /\ (Perk.alive p = false -> p' = p)
  /\ (Perk.alive p' = true ->
      Perk.alive p = true /\ Perk.y p' = Perk.y p + Perk.vy p * dt
      /\ -40 <= Perk.y p').

(** The test of the inner loop of [handleProjectiles]. *)
Definition projectileHit (p : Projectile.t) (b : Brick.t) : bool :=
  Brick.alive b && projectileInside p b.

(** A world in play with an extra-life perk falling onto the paddle and a
    spent perk beside it. *)
Definition perkWorld : World :=
  mkWorld GS_PLAYING 1%Z
    (Ball.mk 400 300 228 304 8 380 false false 0) (Paddle.mk 340 50 120 16 600)
    [brickA; brickB] [Perk.mk 400 67 (-150) 0 true; Perk.mk 500 20 (-150) 5 false]
    [] 0%Z 3%Z 0%Z 2%Z 0 0 0 false false false
    (fun _ => 0%Z) 0%nat emptyDisk.

(** A world in play with one projectile under the second brick. *)
Definition shotWorld : World :=
  mkWorld GS_PLAYING 1%Z
    (Ball.mk 400 300 228 304 8 380 false false 0) (Paddle.mk 340 50 120 16 600)
    [brickA; brickB] [] [Projectile.mk 150 495 500 true]
    0%Z 3%Z 0%Z 2%Z 0 0 0 false false false
    (fun _ => 0%Z) 0%nat emptyDisk.

(** Where section 4.4 of the specification sends each listed transition
    ([None]: the process exits).  Like [specTransition] this follows the
    specification's words, not [keyboardDown]. *)
Definition specTarget (gs : GameState) (key : ascii) : option GameState :=
  if Ascii.eqb key ESC then
    if GameState_eqb gs GS_MENU then None else Some GS_MENU
  else if Ascii.eqb key " " then Some GS_PLAYING
  else if Ascii.eqb key "p" || Ascii.eqb key "P" then
    if GameState_eqb gs GS_PLAYING then Some GS_PAUSED else Some GS_PLAYING
  else if Ascii.eqb key "r" || Ascii.eqb key "R" then Some GS_PLAYING
  else if Ascii.eqb key "1" then Some GS_PLAYING
  else if Ascii.eqb key "2" then Some GS_SCOREBOARD
  else if Ascii.eqb key "3" then Some GS_MUSIC_MENU
  else Some GS_HELP.

(** The level-clear screen of level 3 with 250 points and two lives. *)
Definition clearedWorld : World :=
  mkWorld GS_LEVEL_CLEAR 3%Z
    (Ball.mk 400 300 228 304 8 500 false false 0) (Paddle.mk 100 50 160 16 600)
    [Brick.set_alive false brickA] [] [] 250%Z 2%Z 100%Z 0%Z 0 31.5 0
    false false false (fun _ => 0%Z) 0%nat emptyDisk.

(** How many bricks of a vector pass the test of [handleBrickCollisions]
    for a ball. *)
Definition hitCount (bl : Ball.t) (bs : list Brick.t) : Z :=
  Z.of_nat (length (filter (brickHit bl) bs)).

(** * Properties *)

(** ** The boolean comparisons decide the order of [R] *)

Lemma Rltb_true (a b : R) : a < b -> Rltb a b = true.
Proof. intros H; unfold Rltb; destruct (Rlt_dec a b); [reflexivity | contradiction]. Qed.

Lemma Rltb_false (a b : R) : b <= a -> Rltb a b = false.
Proof. intros H; unfold Rltb; destruct (Rlt_dec a b); [lra | reflexivity]. Qed.

Lemma Rleb_true (a b : R) : a <= b -> Rleb a b = true.
Proof. intros H; unfold Rleb; destruct (Rle_dec a b); [reflexivity | contradiction]. Qed.

Lemma Rleb_false (a b : R) : b < a -> Rleb a b = false.
Proof. intros H; unfold Rleb; destruct (Rle_dec a b); [lra | reflexivity]. Qed.

Lemma Rltb_spec (a b : R) : Rltb a b = true <-> a < b.
Proof.
  split; [| apply Rltb_true].
  unfold Rltb; destruct (Rlt_dec a b); [trivial | discriminate].
Qed.

Lemma Rleb_spec (a b : R) : Rleb a b = true <-> a <= b.
Proof.
  split; [| apply Rleb_true].
  unfold Rleb; destruct (Rle_dec a b); [trivial | discriminate].
Qed.

Lemma Rgtb_true (a b : R) : a > b -> Rgtb a b = true.
Proof. intros H; apply Rltb_true; lra. Qed.

Lemma Rgtb_false (a b : R) : a <= b -> Rgtb a b = false.
Proof. intros H; apply Rltb_false; lra. Qed.

Lemma Rgeb_true (a b : R) : a >= b -> Rgeb a b = true.
Proof. intros H; apply Rleb_true; lra. Qed.

Lemma Rgeb_false (a b : R) : a < b -> Rgeb a b = false.
Proof. intros H; apply Rleb_false; lra. Qed.

(** Decide every comparison of a goal whose operands are numerals. *)
Ltac rcmp :=
  repeat match goal with
  | |- context [Rltb ?a ?b] =>
      first [ rewrite (Rltb_true a b) by lra | rewrite (Rltb_false a b) by lra ]
  | |- context [Rleb ?a ?b] =>
      first [ rewrite (Rleb_true a b) by lra | rewrite (Rleb_false a b) by lra ]
  | |- context [Rgtb ?a ?b] =>
      first [ rewrite (Rgtb_true a b) by lra | rewrite (Rgtb_false a b) by lra ]
  | |- context [Rgeb ?a ?b] =>
      first [ rewrite (Rgeb_true a b) by lra | rewrite (Rgeb_false a b) by lra ]
  end.

Lemma GameState_eqb_eq (a b : GameState) : GameState_eqb a b = true <-> a = b.
Proof. destruct a, b; simpl; split; intros H; congruence. Qed.

Lemma GameState_eqb_refl (a : GameState) : GameState_eqb a a = true.
Proof. destruct a; reflexivity. Qed.

(** ** Level generation *)


Lemma filter_all {A : Type} (f : A -> bool) (l : list A) :
  (forall a, In a l -> f a = true) -> filter f l = l.
Proof.
  induction l as [| a l IH]; simpl; intros H; [reflexivity |].
  rewrite (H a (or_introl eq_refl)); f_equal; apply IH; intros; apply H; now right.
Qed.





Section ForLoop.
Variable P : nat -> World -> Prop.
Variable m : nat.
Variable body : Z -> World -> World.
Hypothesis body_step : forall i k s, P k s -> P (k + m)%nat (body i s).

Lemma fold_seq_steps (len start k : nat) (s : World) :
  P k s ->
  P (k + len * m)%nat
    (fold_left (fun acc i => body (Z.of_nat i) acc) (seq start len) s).
Proof.
  revert start k s; induction len as [| len IH]; simpl; intros start k s H.
  - now rewrite Nat.add_0_r.
  - replace (k + (m + len * m))%nat with ((k + m) + len * m)%nat by lia.
    apply IH, body_step, H.
Qed.

Lemma for_loop_steps (n : Z) (k : nat) (s : World) :
  P k s -> P (k + Z.to_nat n * m)%nat (for_loop n body s).
Proof. apply fold_seq_steps. Qed.
End ForLoop.

Lemma createBrick_grid (level r c : Z) (k : nat) (s : World) :
  gridOf k s -> gridOf (k + 1) (createBrick level r c s).
Proof.
  intros (Hlen & Hrem & Hall); unfold gridOf, createBrick; simpl.
  rewrite length_app, Hlen, Hrem; simpl.
  split; [lia | split; [lia |]].
  apply Forall_app; split; [assumption | constructor; [reflexivity | constructor]].
Qed.

(** C3: for every level [L >= 1], right after [createBricksForLevel L] the
    vector holds [rows(L) * 10] bricks with [rows(L) = min(3+L, 8)], every
    one of them is alive, and [bricksRemaining] equals that count. *)
Theorem C3_level_grid (L : Z) (s : World) :
  (1 <= L)%Z ->
  let s' := createBricksForLevel L s in
  levelRows L = Z.min (3 + L) 8
  /\ Z.of_nat (length (bricks s')) = (levelRows L * 10)%Z
  /\ Forall (fun b => Brick.alive b = true) (bricks s')
  /\ bricksRemaining s' = Z.of_nat (length (bricks s')).
Proof.
  intros HL s'.
  set (s0 := set_bricksRemaining 0%Z
               (set_projectiles [] (set_perks [] (set_bricks [] s)))).
  assert (G0 : gridOf 0 s0) by (repeat split; constructor).
  assert (G : gridOf (0 + Z.to_nat (levelRows L) * 10)
                (for_loop (levelRows L)
                   (fun r => for_loop levelCols (fun c => createBrick L r c)) s0)).
  { apply (for_loop_steps gridOf 10); [| exact G0].
    intros i k t Hk.
    exact (for_loop_steps gridOf 1 (fun c => createBrick L i c) (createBrick_grid L i)
             levelCols k t Hk). }
  destruct G as (Hlen & Hrem & Hall).
  assert (Eb : bricks s' = bricks (for_loop (levelRows L)
                 (fun r => for_loop levelCols (fun c => createBrick L r c)) s0))
    by reflexivity.
  assert (Er : bricksRemaining s' = bricksRemaining (for_loop (levelRows L)
                 (fun r => for_loop levelCols (fun c => createBrick L r c)) s0))
    by reflexivity.
  rewrite Eb, Er, Hlen, Hrem.
  split; [reflexivity |].
  split; [unfold levelRows; lia |].
  split; [assumption | reflexivity].
Qed.

Lemma C3_level_grid_witness :
  levelRows 1 = 4%Z
  /\ Z.of_nat (length (bricks (createBricksForLevel 1 freshWorld))) = 40%Z
  /\ Forall (fun b => Brick.alive b = true) (bricks (createBricksForLevel 1 freshWorld))
  /\ bricksRemaining (createBricksForLevel 1 freshWorld) = 40%Z.
Proof.
  assert (H := C3_level_grid 1 freshWorld ltac:(lia)); cbv zeta in H.
  destruct H as (H1 & H2 & H3 & H4).
  split; [reflexivity | split; [exact H2 | split; [exact H3 | rewrite H4; exact H2]]].
Defined.

(** ** Score persistence *)

Lemma saveScore_file (sc : Z) (s : World) :
  Disk.writable (disk s) = true ->
  Disk.scores_txt (disk (saveScore sc s))
  = Some (firstn 5 (sc :: loadRecentScores s)).
Proof.
  intros Hw; unfold saveScore; rewrite Hw.
  unfold set_disk, Disk.set_scores_txt; cbn [disk Disk.scores_txt].
  f_equal.
  destruct (Z.gtb_spec (Z.of_nat (length (sc :: loadRecentScores s))) MAX_RECENT) as [Hgt | Hle].
  - reflexivity.
  - symmetry; apply firstn_all2.
    unfold MAX_RECENT in Hle; lia.
Qed.

Lemma saveScore_frame (sc : Z) (s : World) :
  let s' := saveScore sc s in
  gameState s' = gameState s /\ ball s' = ball s /\ paddle s' = paddle s
  /\ bricks s' = bricks s /\ perks s' = perks s /\ projectiles s' = projectiles s
  /\ score s' = score s /\ lives s' = lives s /\ highScore s' = highScore s
  /\ bricksRemaining s' = bricksRemaining s /\ rand_pos s' = rand_pos s
  /\ Disk.writable (disk s') = Disk.writable (disk s)
  /\ Disk.highscore_txt (disk s') = Disk.highscore_txt (disk s).
Proof.
  cbv zeta; unfold saveScore; destruct (Disk.writable (disk s)) eqn:Hw;
    cbn; rewrite ?Hw; repeat (split; [reflexivity |]); reflexivity.
Qed.

(** C8: for every score [S] and every prior content of the recent-scores
    file (which the program can write), [saveScore S] leaves in the file [S]
    followed by the old entries, cut to the first five; on [10,20,30,40,50]
    and [S = 25] that is [25,10,20,30,40]. *)
Theorem C8_saveScore_prepends_and_truncates (S : Z) (s : World) :
  Disk.writable (disk s) = true ->
  let old := loadRecentScores s in
  let new := loadRecentScores (saveScore S s) in
  new = firstn 5 (S :: old)
  /\ hd_error new = Some S
  /\ (length new <= 5)%nat
  /\ (S = 25%Z -> old = [10; 20; 30; 40; 50]%Z -> new = [25; 10; 20; 30; 40]%Z).
Proof.
  intros Hw old new.
  assert (E : new = firstn 5 (S :: old)).
  { unfold new, loadRecentScores at 1; now rewrite saveScore_file. }
  rewrite E; repeat split.
  - apply firstn_le_length.
  - intros -> ->; reflexivity.
Qed.

Lemma C8_saveScore_prepends_and_truncates_witness :
  loadRecentScores (saveScore 25 (withScores [10; 20; 30; 40; 50]%Z freshWorld))
  = [25; 10; 20; 30; 40]%Z.
Proof.
  assert (H := C8_saveScore_prepends_and_truncates 25
                 (withScores [10; 20; 30; 40; 50]%Z freshWorld) eq_refl).
  cbv zeta in H; destruct H as (_ & _ & _ & H).
  apply H; reflexivity.
Defined.

(** ** Brick collisions *)

Arguments destroyBrick : simpl never.
Arguments damageBrick : simpl never.
Arguments bounceOffBrick : simpl never.
Arguments spawnPerk : simpl never.

Lemma spawnPerk_frame (x y : R) (s : World) :
  let s' := spawnPerk x y s in
  ball s' = ball s /\ score s' = score s /\ bricksRemaining s' = bricksRemaining s
  /\ paddle s' = paddle s /\ lives s' = lives s /\ gameState s' = gameState s
  /\ disk s' = disk s /\ projectiles s' = projectiles s /\ bricks s' = bricks s.
Proof. cbv zeta; unfold spawnPerk; cbn; repeat (split; [reflexivity |]); reflexivity. Qed.

Lemma destroyBrick_brick (b : Brick.t) (s : World) :
  fst (destroyBrick b s) = Brick.set_alive false b.
Proof. reflexivity. Qed.

Lemma destroyBrick_frame (b : Brick.t) (s : World) :
  let s' := snd (destroyBrick b s) in
  ball s' = ball s /\ score s' = (score s + 10)%Z
  /\ bricksRemaining s' = (bricksRemaining s - 1)%Z
  /\ paddle s' = paddle s /\ lives s' = lives s /\ gameState s' = gameState s
  /\ disk s' = disk s /\ projectiles s' = projectiles s.
Proof.
  cbv zeta; unfold destroyBrick; cbn [snd].
  destruct (Brick.type (Brick.set_alive false b) =? 1)%Z.
  - match goal with |- context [spawnPerk ?x ?y ?t] =>
      destruct (spawnPerk_frame x y t) as (-> & -> & -> & -> & -> & -> & -> & -> & _)
    end.
    repeat (split; [reflexivity |]); reflexivity.
  - repeat (split; [reflexivity |]); reflexivity.
Qed.

Lemma damageBrick_tough (b : Brick.t) (s : World) :
  (Brick.hits b > 1)%Z ->
  damageBrick b s
  = (Brick.set_hits (Brick.hits b - 1) b, set_score (score s + 5) s).
Proof.
  intros H; unfold damageBrick; cbn [Brick.hits Brick.set_hits].
  destruct (Z.leb_spec (Brick.hits b - 1) 0); [lia | reflexivity].
Qed.

Lemma damageBrick_last (b : Brick.t) (s : World) :
  (Brick.hits b <= 1)%Z ->
  damageBrick b s = destroyBrick (Brick.set_hits (Brick.hits b - 1) b) s.
Proof.
  intros H; unfold damageBrick; cbn [Brick.hits Brick.set_hits].
  destruct (Z.leb_spec (Brick.hits b - 1) 0); [reflexivity | lia].
Qed.

(** The loop stops at the first brick that passes the test when the ball is
    no fireball: what comes before is skipped, what comes after is not
    visited. *)
Lemma brickLoop_first_hit (pre post : list Brick.t) (b : Brick.t) (s : World) :
  Ball.isFireball (ball s) = false ->
  Forall (fun c => brickHit (ball s) c = false) pre ->
  brickHit (ball s) b = true ->
  brickLoop (pre ++ b :: post) s
  = (pre ++ fst (bounceOffBrick b s) :: post, snd (bounceOffBrick b s)).
Proof.
  intros Hf Hpre Hb; induction Hpre as [| c pre Hc Hpre IH]; cbn.
  - unfold brickHit in Hb; apply andb_true_iff in Hb as [Ha Ho].
    rewrite Ha, Ho, Hf; cbn.
    destruct (bounceOffBrick b s); reflexivity.
  - unfold brickHit in Hc; rewrite IH.
    destruct (Brick.alive c); cbn in *; [rewrite Hc |]; reflexivity.
Qed.

(** With nothing to hit the loop changes nothing. *)
Lemma brickLoop_no_hit (bs : list Brick.t) (s : World) :
  Forall (fun c => brickHit (ball s) c = false) bs ->
  brickLoop bs s = (bs, s).
Proof.
  induction 1 as [| c bs Hc Hbs IH]; cbn; [reflexivity |].
  unfold brickHit in Hc; rewrite IH.
  destruct (Brick.alive c); cbn in *; [rewrite Hc |]; reflexivity.
Qed.

(** A fireball goes through the whole vector and destroys every brick that
    passes the test. *)
Lemma brickLoop_fireball (bs : list Brick.t) (s : World) :
  Ball.isFireball (ball s) = true ->
  fst (brickLoop bs s)
  = map (fun b => if brickHit (ball s) b then Brick.set_alive false b else b) bs
  /\ ball (snd (brickLoop bs s)) = ball s.
Proof.
  revert s; induction bs as [| b bs IH]; intros s Hf; cbn; [split; reflexivity |].
  unfold brickHit at 1.
  destruct (Brick.alive b); cbn.
  - destruct (ballOverlaps (ball s) b).
    + rewrite Hf.
      destruct (destroyBrick_frame b s) as (Hball & _); cbv zeta in Hball.
      pose proof (destroyBrick_brick b s) as Hbrick.
      destruct (destroyBrick b s) as [b' s1]; cbn in *.
      assert (Hf1 : Ball.isFireball (ball s1) = true) by now rewrite Hball.
      destruct (IH s1 Hf1) as (E1 & E2).
      destruct (brickLoop bs s1) as [rest' s']; cbn in *.
      rewrite E1, E2, Hball, Hbrick; split; reflexivity.
    + destruct (IH s Hf) as (E1 & E2).
      destruct (brickLoop bs s) as [rest' s']; cbn in *.
      rewrite E1, E2; split; reflexivity.
  - destruct (IH s Hf) as (E1 & E2).
    destruct (brickLoop bs s) as [rest' s']; cbn in *.
    rewrite E1, E2; split; reflexivity.
Qed.

Lemma handleBrickCollisions_eq (s : World) :
  handleBrickCollisions s
  = set_bricks (fst (brickLoop (bricks s) s)) (snd (brickLoop (bricks s) s)).
Proof. unfold handleBrickCollisions; destruct (brickLoop (bricks s) s); reflexivity. Qed.

Lemma set_bricks_same (s : World) : set_bricks (bricks s) s = s.
Proof. destruct s; reflexivity. Qed.

Lemma damageBrick_ball (b : Brick.t) (s : World) :
  ball (snd (damageBrick b s)) = ball s.
Proof.
  unfold damageBrick.
  destruct (Brick.hits (Brick.set_hits (Brick.hits b - 1) b) <=? 0)%Z.
  - now destruct (destroyBrick_frame (Brick.set_hits (Brick.hits b - 1) b) s) as (-> & _).
  - reflexivity.
Qed.

(** A bounce off a brick turns the velocity and leaves the ball where it
    is, as large and as fast as it is. *)
Lemma bounceOffBrick_ball (b : Brick.t) (s : World) :
  let bl := ball (snd (bounceOffBrick b s)) in
  Ball.x bl = Ball.x (ball s) /\ Ball.y bl = Ball.y (ball s)
  /\ Ball.radius bl = Ball.radius (ball s)
  /\ Ball.isFireball bl = Ball.isFireball (ball s)
  /\ Ball.speed bl = Ball.speed (ball s)
  /\ Ball.stuck bl = Ball.stuck (ball s)
  /\ (Ball.vx bl = Ball.vx (ball s) \/ Ball.vx bl = - Ball.vx (ball s))
  /\ (Ball.vy bl = Ball.vy (ball s) \/ Ball.vy bl = - Ball.vy (ball s)).
Proof.
  cbv zeta; unfold bounceOffBrick; rewrite damageBrick_ball.
  destruct (Rltb _ _); cbn; repeat (split; [reflexivity |]); auto.
Qed.

Lemma ballOverlaps_ext (b1 b2 : Ball.t) (c : Brick.t) :
  Ball.x b1 = Ball.x b2 -> Ball.y b1 = Ball.y b2 -> Ball.radius b1 = Ball.radius b2 ->
  ballOverlaps b1 c = ballOverlaps b2 c.
Proof. intros Hx Hy Hr; unfold ballOverlaps; now rewrite Hx, Hy, Hr. Qed.

(** C1, as stated, fails for a fireball: with the ball over the first two
    bricks of a row, one pass destroys both, the second as well as the
    first. *)
Lemma C1_fireball_destroys_second_brick :
  let s := betweenBricks true in
  bricks s = [brickA; brickB]
  /\ brickHit (ball s) brickA = true
  /\ brickHit (ball s) brickB = true
  /\ bricks (handleBrickCollisions s)
     = [Brick.set_alive false brickA; Brick.set_alive false brickB]
  /\ Brick.set_alive false brickB <> brickB.
Proof.
  cbv zeta.
  assert (HA : brickHit (ball (betweenBricks true)) brickA = true).
  { unfold brickHit, ballOverlaps; cbn; rcmp; reflexivity. }
  assert (HB : brickHit (ball (betweenBricks true)) brickB = true).
  { unfold brickHit, ballOverlaps; cbn; rcmp; reflexivity. }
  split; [reflexivity |]. split; [exact HA |]. split; [exact HB |].
  split; [| discriminate].
  rewrite handleBrickCollisions_eq.
  change (bricks (set_bricks ?l ?t)) with l.
  destruct (brickLoop_fireball (bricks (betweenBricks true)) (betweenBricks true) eq_refl)
    as (-> & _).
  change (bricks (betweenBricks true)) with [brickA; brickB].
  cbn [map]; now rewrite HA, HB.
Qed.

Lemma handleBrickCollisions_first_hit (s : World) (pre post : list Brick.t)
    (b : Brick.t) :
  firstHit s pre b post ->
  handleBrickCollisions s
  = set_bricks (pre ++ fst (bounceOffBrick b s) :: post)
               (snd (bounceOffBrick b s)).
Proof.
  intros (Hf & Hb & Hpre & Hhit).
  rewrite handleBrickCollisions_eq, Hb, brickLoop_first_hit by assumption.
  reflexivity.
Qed.

(** C1, amended: when the ball is no fireball, a collision pass processes
    the first alive brick whose bounding box overlaps the ball and nothing
    else (every other brick is left as it was), and it changes nothing if
    there is no such brick; when the ball is a fireball, the pass destroys
    every alive brick whose bounding box overlaps the ball. *)
Theorem C1_collision_pass (s : World) :
  (forall pre b post,
      firstHit s pre b post ->
      handleBrickCollisions s
      = set_bricks (pre ++ fst (bounceOffBrick b s) :: post)
                   (snd (bounceOffBrick b s)))
  /\ (Forall (fun c => brickHit (ball s) c = false) (bricks s) ->
      handleBrickCollisions s = s)
  /\ (Ball.isFireball (ball s) = true ->
      bricks (handleBrickCollisions s)
      = map (fun c => if brickHit (ball s) c then Brick.set_alive false c else c)
            (bricks s)).
Proof.
  split; [| split].
  - intros pre b post; apply handleBrickCollisions_first_hit.
  - intros Hno.
    rewrite handleBrickCollisions_eq, brickLoop_no_hit by assumption.
    apply set_bricks_same.
  - intros Hf.
    rewrite handleBrickCollisions_eq.
    destruct (brickLoop_fireball (bricks s) s Hf) as (-> & _); reflexivity.
Qed.

Lemma bounceOffBrick_tough (b : Brick.t) (s : World) :
  (Brick.hits b > 1)%Z ->
  fst (bounceOffBrick b s) = Brick.set_hits (Brick.hits b - 1) b
  /\ score (snd (bounceOffBrick b s)) = (score s + 5)%Z
  /\ bricksRemaining (snd (bounceOffBrick b s)) = bricksRemaining s.
Proof.
  intros H; unfold bounceOffBrick; rewrite damageBrick_tough by assumption.
  repeat split.
Qed.

Lemma bounceOffBrick_last (b : Brick.t) (s : World) :
  (Brick.hits b <= 1)%Z ->
  fst (bounceOffBrick b s)
  = Brick.set_alive false (Brick.set_hits (Brick.hits b - 1) b)
  /\ score (snd (bounceOffBrick b s)) = (score s + 10)%Z
  /\ bricksRemaining (snd (bounceOffBrick b s)) = (bricksRemaining s - 1)%Z.
Proof.
  intros H; unfold bounceOffBrick; rewrite damageBrick_last by assumption.
  rewrite destroyBrick_brick.
  match goal with |- context [destroyBrick ?c ?t] =>
    destruct (destroyBrick_frame c t) as (_ & -> & -> & _)
  end.
  repeat split.
Qed.

Lemma firstHit_betweenBricks :
  firstHit (betweenBricks false) [] brickA [brickB].
Proof.
  repeat split; [constructor |].
  unfold brickHit, ballOverlaps; cbn; rcmp; reflexivity.
Qed.

Lemma firstHit_betweenBricks_again :
  firstHit (handleBrickCollisions (betweenBricks false)) []
    (Brick.set_hits 1 brickA) [brickB].
Proof.
  rewrite (handleBrickCollisions_first_hit _ [] [brickB] brickA firstHit_betweenBricks).
  destruct (bounceOffBrick_tough brickA (betweenBricks false)) as (E1 & _);
    [cbn; lia |].
  destruct (bounceOffBrick_ball brickA (betweenBricks false))
    as (Hx & Hy & Hr & Hf & _).
  cbn [app bricks ball set_bricks]; rewrite E1.
  split; [exact Hf |]. split; [reflexivity |]. split; [constructor |].
  unfold brickHit.
  rewrite (ballOverlaps_ext _ (ball (betweenBricks false)) _ Hx Hy Hr).
  unfold ballOverlaps; cbn; rcmp; reflexivity.
Qed.

Lemma C1_collision_pass_witness :
  bricks (handleBrickCollisions (betweenBricks false))
  = [Brick.set_hits 1 brickA; brickB]
  /\ score (handleBrickCollisions (betweenBricks false))
     = (score (betweenBricks false) + 5)%Z.
Proof.
  destruct (C1_collision_pass (betweenBricks false)) as (H & _).
  rewrite (H [] brickA [brickB] firstHit_betweenBricks).
  destruct (bounceOffBrick_tough brickA (betweenBricks false)) as (E1 & E2 & _);
    [cbn; lia |].
  cbn [app bricks score set_bricks]; rewrite E1, E2; split; reflexivity.
Defined.

(** C6: a brick with [hits = 2] that takes a non-fireball ball collision
    stays alive with [hits = 1], the score grows by exactly 5 and
    [bricksRemaining] does not change; when the brick so left takes a second
    such collision it is no longer alive, the score grows by exactly 10 and
    [bricksRemaining] drops by 1. *)
Theorem C6_two_hit_brick (b : Brick.t) (s1 s2 : World)
    (pre1 post1 pre2 post2 : list Brick.t) :
  Brick.hits b = 2%Z ->
  firstHit s1 pre1 b post1 ->
  firstHit s2 pre2 (Brick.set_hits 1 b) post2 ->
  let s1' := handleBrickCollisions s1 in
  let s2' := handleBrickCollisions s2 in
  (bricks s1' = pre1 ++ Brick.set_hits 1 b :: post1
   /\ Brick.alive (Brick.set_hits 1 b) = true
   /\ Brick.hits (Brick.set_hits 1 b) = 1%Z
   /\ score s1' = (score s1 + 5)%Z
   /\ bricksRemaining s1' = bricksRemaining s1)
  /\ (bricks s2' = pre2 ++ Brick.set_alive false (Brick.set_hits 0 b) :: post2
      /\ Brick.alive (Brick.set_alive false (Brick.set_hits 0 b)) = false
      /\ score s2' = (score s2 + 10)%Z
      /\ bricksRemaining s2' = (bricksRemaining s2 - 1)%Z).
Proof.
  intros Hb H1 H2 s1' s2'.
  assert (Halive : Brick.alive b = true).
  { destruct H1 as (_ & _ & _ & Hhit); unfold brickHit in Hhit.
    now apply andb_true_iff in Hhit. }
  split.
  - unfold s1'; rewrite (handleBrickCollisions_first_hit s1 pre1 post1 b H1).
    destruct (bounceOffBrick_tough b s1) as (E1 & E2 & E3); [lia |].
    cbn [bricks score bricksRemaining set_bricks].
    rewrite E1, E2, E3, Hb.
    repeat split; exact Halive.
  - unfold s2'; rewrite (handleBrickCollisions_first_hit s2 pre2 post2 _ H2).
    destruct (bounceOffBrick_last (Brick.set_hits 1 b) s2) as (E1 & E2 & E3);
      [cbn; lia |].
    cbn [bricks score bricksRemaining set_bricks].
    rewrite E1, E2, E3.
    repeat split.
Qed.

Lemma C6_two_hit_brick_witness :
  let s1 := betweenBricks false in
  let s1' := handleBrickCollisions s1 in
  let s2' := handleBrickCollisions s1' in
  (bricks s1' = [Brick.set_hits 1 brickA; brickB]
   /\ score s1' = (score s1 + 5)%Z
   /\ bricksRemaining s1' = 2%Z)
  /\ (bricks s2' = [Brick.set_alive false (Brick.set_hits 0 brickA); brickB]
      /\ score s2' = (score s1' + 10)%Z
      /\ bricksRemaining s2' = (bricksRemaining s1' - 1)%Z).
Proof.
  cbv zeta.
  destruct (C6_two_hit_brick brickA (betweenBricks false)
              (handleBrickCollisions (betweenBricks false)) [] [brickB] [] [brickB]
              eq_refl firstHit_betweenBricks firstHit_betweenBricks_again)
    as ((B1 & _ & _ & S1 & R1) & (B2 & _ & S2 & R2)).
  repeat split; assumption.
Defined.

(** ** Losing a life *)

Arguments saveScore : simpl never.
Arguments saveHighScore : simpl never.
Arguments resetPaddleAndBall : simpl never.

Lemma saveHighScore_spec (v : Z) (s : World) :
  let s' := saveHighScore v s in
  highScore s' = Z.max (highScore s) v
  /\ (Disk.writable (disk s) = true -> (v > highScore s)%Z ->
      Disk.highscore_txt (disk s') = Some v)
  /\ Disk.scores_txt (disk s') = Disk.scores_txt (disk s)
  /\ gameState s' = gameState s /\ ball s' = ball s /\ paddle s' = paddle s
  /\ bricks s' = bricks s /\ perks s' = perks s /\ projectiles s' = projectiles s
  /\ score s' = score s /\ lives s' = lives s
  /\ bricksRemaining s' = bricksRemaining s /\ rand_pos s' = rand_pos s.
Proof.
  cbv zeta; unfold saveHighScore.
  destruct (Z.gtb_spec v (highScore s)) as [Hgt | Hle].
  - cbn [highScore set_highScore disk].
    destruct (Disk.writable (disk s)) eqn:Hw; cbn;
      (split; [lia |]); (split; [intros; congruence |]);
      repeat (split; [reflexivity |]); reflexivity.
  - split; [lia |]. split; [intros; lia |].
    repeat (split; [reflexivity |]); reflexivity.
Qed.

Lemma resetPaddleAndBall_spec (s : World) :
  let s' := resetPaddleAndBall s in
  paddle s' = Paddle.mk 340 50 120 16 600
  /\ ball s' = Ball.mk 400 75 0 0 8 380 true false 0
  /\ gameState s' = gameState s /\ bricks s' = bricks s /\ perks s' = perks s
  /\ projectiles s' = projectiles s /\ score s' = score s /\ lives s' = lives s
  /\ highScore s' = highScore s /\ bricksRemaining s' = bricksRemaining s
  /\ rand_pos s' = rand_pos s /\ disk s' = disk s.
Proof.
  cbv zeta; unfold resetPaddleAndBall, WIN_W; cbn.
  split; [f_equal; lra |]. split; [f_equal; lra |].
  repeat (split; [reflexivity |]); reflexivity.
Qed.

(** The last life: the score is saved and the game is over. *)
Lemma loseLife_game_over (s : World) :
  (lives s - 1 <= 0)%Z ->
  Disk.writable (disk s) = true ->
  gameState (loseLife s) = GS_GAMEOVER /\ scorePersisted s (loseLife s).
Proof.
  intros Hl Hw; unfold loseLife; cbn [lives set_lives].
  destruct (Z.leb_spec (lives s - 1) 0) as [_ | Hc]; [| lia].
  set (s1 := set_lives (lives s - 1) s).
  cbn [score set_lives].
  change (score s1) with (score s).
  destruct (saveScore_frame (score s) s1)
    as (_ & _ & _ & _ & _ & _ & Hsc & _ & Hhs & _ & _ & Hw1 & _); cbv zeta in *.
  rewrite Hsc; change (score s1) with (score s).
  destruct (saveHighScore_spec (score s) (saveScore (score s) s1))
    as (Hmax & Hfile & Hscores & _); cbv zeta in *.
  split; [reflexivity |].
  unfold scorePersisted, loadRecentScores; cbn [disk highScore set_gameState].
  rewrite Hscores, Hmax, Hhs, (saveScore_file (score s) s1 Hw).
  split; [reflexivity |]. split; [reflexivity |].
  intros Hgt; apply Hfile; [rewrite Hw1; exact Hw | rewrite Hhs; exact Hgt].
Qed.

(** A life to spare: paddle and ball are set up again. *)
Lemma loseLife_reset (s : World) :
  (lives s - 1 > 0)%Z ->
  loseLife s = resetPaddleAndBall (set_lives (lives s - 1) s).
Proof.
  intros Hl; unfold loseLife; cbn [lives set_lives].
  destruct (Z.leb_spec (lives s - 1) 0) as [Hc | _]; [lia | reflexivity].
Qed.

(** Either way the bricks, perks, projectiles, score and random stream are
    not touched, and one life is gone. *)
Lemma loseLife_frame (s : World) :
  let s' := loseLife s in
  lives s' = (lives s - 1)%Z
  /\ bricks s' = bricks s /\ perks s' = perks s /\ projectiles s' = projectiles s
  /\ score s' = score s /\ bricksRemaining s' = bricksRemaining s
  /\ rand_pos s' = rand_pos s.
Proof.
  cbv zeta; unfold loseLife; cbn [lives set_lives].
  set (s1 := set_lives (lives s - 1) s).
  destruct (lives s - 1 <=? 0)%Z.
  - cbn [score].
    destruct (saveHighScore_spec (score (saveScore (score s1) s1)) (saveScore (score s1) s1))
      as (_ & _ & _ & _ & _ & _ & B & P & J & S & L & R & N); cbv zeta in *.
    destruct (saveScore_frame (score s1) s1)
      as (_ & _ & _ & B' & P' & J' & S' & L' & _ & R' & N' & _); cbv zeta in *.
    cbn [lives bricks perks projectiles score bricksRemaining rand_pos set_gameState].
    rewrite B, P, J, S, L, R, N, B', P', J', S', L', R', N'.
    repeat (split; [reflexivity |]); reflexivity.
  - destruct (resetPaddleAndBall_spec s1)
      as (_ & _ & _ & B & P & J & S & L & _ & R & N & _); cbv zeta in *.
    rewrite B, P, J, S, L, R, N.
    repeat (split; [reflexivity |]); reflexivity.
Qed.

Lemma sameGame_refl (s : World) : sameGame s s.
Proof. unfold sameGame; repeat (split; [reflexivity |]); reflexivity. Qed.

Lemma sameGame_trans (s1 s2 s3 : World) :
  sameGame s1 s2 -> sameGame s2 s3 -> sameGame s1 s3.
Proof.
  unfold sameGame.
  intros (A1 & A2 & A3 & A4 & A5 & A6 & A7 & A8 & A9 & A10)
         (B1 & B2 & B3 & B4 & B5 & B6 & B7 & B8 & B9 & B10).
  rewrite B1, B2, B3, B4, B5, B6, B7, B8, B9, B10.
  repeat (split; [assumption |]); assumption.
Qed.

Lemma sameGame_set_ball (b : Ball.t) (s : World) : sameGame s (set_ball b s).
Proof. unfold sameGame; repeat (split; [reflexivity |]); reflexivity. Qed.

Lemma sameGame_set_paddle (p : Paddle.t) (s : World) : sameGame s (set_paddle p s).
Proof. unfold sameGame; repeat (split; [reflexivity |]); reflexivity. Qed.

Lemma tickClock_same (now : Z) (s : World) : sameGame s (tickClock now s).
Proof. unfold sameGame; repeat (split; [reflexivity |]); reflexivity. Qed.

Lemma tickCooldown_same (dt : R) (s : World) : sameGame s (tickCooldown dt s).
Proof.
  unfold tickCooldown; destruct (Rgtb _ _); [| apply sameGame_refl].
  unfold sameGame; repeat (split; [reflexivity |]); reflexivity.
Qed.

Lemma tickFireball_same (dt : R) (s : World) : sameGame s (tickFireball dt s).
Proof.
  unfold tickFireball; destruct (Ball.isFireball _);
    [apply sameGame_set_ball | apply sameGame_refl].
Qed.

Lemma movePaddle_same (dt : R) (s : World) : sameGame s (movePaddle dt s).
Proof. unfold movePaddle; apply sameGame_set_paddle. Qed.

Lemma moveBall_same (dt : R) (s : World) : sameGame s (moveBall dt s).
Proof. unfold moveBall; apply sameGame_set_ball. Qed.

Lemma handleWallCollisions_same (s : World) : sameGame s (handleWallCollisions s).
Proof. unfold handleWallCollisions; apply sameGame_set_ball. Qed.

(** The first half of a tick moves the paddle and the ball and nothing
    else of the game. *)
Lemma updateMotion_same (dt : R) (now : Z) (s : World) :
  sameGame s (updateMotion dt now s).
Proof.
  unfold updateMotion.
  eapply sameGame_trans; [apply tickClock_same |].
  eapply sameGame_trans; [apply tickCooldown_same |].
  eapply sameGame_trans; [apply tickFireball_same |].
  eapply sameGame_trans; [apply movePaddle_same |].
  eapply sameGame_trans; [apply moveBall_same |].
  apply handleWallCollisions_same.
Qed.

Lemma updateMotion_frame (dt : R) (now : Z) (s : World) :
  let s' := updateMotion dt now s in
  gameState s' = gameState s
  /\ bricks s' = bricks s /\ perks s' = perks s /\ projectiles s' = projectiles s
  /\ score s' = score s /\ lives s' = lives s /\ highScore s' = highScore s
  /\ bricksRemaining s' = bricksRemaining s /\ rand_pos s' = rand_pos s
  /\ disk s' = disk s.
Proof. exact (updateMotion_same dt now s). Qed.

Lemma updateGame_miss (dt : R) (now : Z) (s : World) :
  gameState s = GS_PLAYING ->
  ballMissed (updateMotion dt now s) = true ->
  updateGame dt now s = loseLife (updateMotion dt now s).
Proof. intros Hg Hm; unfold updateGame; now rewrite Hg, Hm. Qed.

Lemma applyPerk_death (p : Perk.t) (s : World) :
  Perk.type p = 5%Z ->
  applyPerk p s = (Perk.set_alive false p, loseLife s).
Proof. intros Hp; unfold applyPerk; now rewrite Hp. Qed.

Lemma scorePersisted_from (s m s' : World) :
  score m = score s -> highScore m = highScore s -> disk m = disk s ->
  scorePersisted m s' -> scorePersisted s s'.
Proof.
  unfold scorePersisted, loadRecentScores; intros -> -> ->; trivial.
Qed.

Lemma fallingWorld_missed (l : Z) :
  ballMissed (updateMotion 0.016 16 (fallingWorld l)) = true.
Proof.
  unfold updateMotion, tickClock, tickCooldown, fallingWorld; cbn.
  rcmp.
  unfold tickFireball, movePaddle, moveBall, WIN_W; cbn.
  rcmp; cbn.
  unfold ballMissed, handleWallCollisions, WIN_W, WIN_H; cbn.
  rcmp; cbn; rcmp; cbn; rcmp; cbn; rcmp.
  reflexivity.
Qed.

(** The two places where a life is lost: a tick [s'] that loses the ball,
    and the end [t'] of [applyPerk] for a death perk.  With no life left
    the score is saved (recent scores and high score, the files being
    writable) and the mode is game-over, at the end of the tick for the
    ball and at the end of [applyPerk] for the perk; with lives left,
    paddle and ball are reset with the ball stuck to the paddle.  A tick
    that loses the ball ends there: bricks, perks, projectiles, score,
    brick counter and random stream are as before the tick.  The tick that
    called [applyPerk] goes on. *)
Lemma life_loss_paths (dt : R) (now : Z) (s : World) (p : Perk.t) (t : World) :
  gameState s = GS_PLAYING ->
  ballMissed (updateMotion dt now s) = true ->
  Perk.type p = 5%Z ->
  Disk.writable (disk s) = true ->
  Disk.writable (disk t) = true ->
  let s' := updateGame dt now s in
  let t' := snd (applyPerk p t) in
  (lives s' = (lives s - 1)%Z /\ lives t' = (lives t - 1)%Z)
  /\ ((lives s - 1 <= 0)%Z -> gameState s' = GS_GAMEOVER /\ scorePersisted s s')
  /\ ((lives t - 1 <= 0)%Z -> gameState t' = GS_GAMEOVER /\ scorePersisted t t')
  /\ ((lives s - 1 > 0)%Z ->
      gameState s' = GS_PLAYING
      /\ paddle s' = Paddle.mk 340 50 120 16 600
      /\ ball s' = Ball.mk 400 75 0 0 8 380 true false 0
      /\ Ball.stuck (ball s') = true)
  /\ ((lives t - 1 > 0)%Z ->
      gameState t' = gameState t
      /\ paddle t' = Paddle.mk 340 50 120 16 600
      /\ ball t' = Ball.mk 400 75 0 0 8 380 true false 0
      /\ Ball.stuck (ball t') = true)
  /\ (bricks s' = bricks s /\ perks s' = perks s /\ projectiles s' = projectiles s
      /\ score s' = score s /\ bricksRemaining s' = bricksRemaining s
      /\ rand_pos s' = rand_pos s).
Proof.
  intros Hg Hm Hp Hws Hwt s' t'.
  set (m := updateMotion dt now s).
  assert (Es : s' = loseLife m) by (apply updateGame_miss; assumption).
  assert (Et : t' = loseLife t) by (unfold t'; now rewrite applyPerk_death).
  destruct (updateMotion_frame dt now s)
    as (Mg & Mb & Mp & Mj & Msc & Ml & Mh & Mr & Mn & Md); cbv zeta in *; fold m in Mg, Mb, Mp, Mj, Msc, Ml, Mh, Mr, Mn, Md.
  destruct (loseLife_frame m) as (Ll & Lb & Lp & Lj & Lsc & Lr & Ln); cbv zeta in *.
  destruct (loseLife_frame t) as (Tl & _); cbv zeta in *.
  rewrite Es, Et.
  split; [split; [now rewrite Ll, Ml | exact Tl] |].
  split.
  { intros Hl.
    destruct (loseLife_game_over m) as (G & P); [now rewrite Ml | now rewrite Md |].
    split; [exact G | exact (scorePersisted_from s m _ Msc Mh Md P)]. }
  split.
  { intros Hl; apply loseLife_game_over; assumption. }
  split.
  { intros Hl; rewrite loseLife_reset by now rewrite Ml.
    destruct (resetPaddleAndBall_spec (set_lives (lives m - 1) m))
      as (-> & -> & -> & _); cbv zeta.
    cbn [gameState set_lives Ball.stuck]; rewrite Mg, Hg.
    repeat (split; [reflexivity |]); reflexivity. }
  split.
  { intros Hl; rewrite loseLife_reset by assumption.
    destruct (resetPaddleAndBall_spec (set_lives (lives t - 1) t))
      as (-> & -> & -> & _); cbv zeta.
    cbn [gameState set_lives Ball.stuck].
    repeat (split; [reflexivity |]); reflexivity. }
  rewrite Lb, Lp, Lj, Lsc, Lr, Ln, Mb, Mp, Mj, Msc, Mr, Mn.
  repeat (split; [reflexivity |]); reflexivity.
Qed.

Arguments applyPerk : simpl never.
Arguments loseLife : simpl never.

(** The tick of [lastBrickWorld], statement by statement. *)
Lemma lastBrickWorld_motion :
  updateMotion 0.016 16 lastBrickWorld
  = set_elapsedTime ((16 - 0) / 1000)
      (set_ball (Ball.mk (150 + 228 * 0.016) (495 + 304 * 0.016)
                   228 304 8 380 false false 0) lastBrickWorld).
Proof.
  unfold updateMotion, tickClock, tickCooldown, lastBrickWorld; cbn.
  rcmp.
  unfold tickFireball, movePaddle, moveBall, WIN_W; cbn.
  rcmp; cbn.
  unfold handleWallCollisions, WIN_W, WIN_H; cbn.
  rcmp; cbn; rcmp; cbn; rcmp; cbn.
  reflexivity.
Qed.

Lemma lastBrickWorld_after_perks :
  handlePerks 0.016
    (handleBrickCollisions
       (handlePaddleCollision (updateMotion 0.016 16 lastBrickWorld)))
  = afterPerks.
Proof.
  rewrite lastBrickWorld_motion.
  unfold handlePaddleCollision, lastBrickWorld; cbn.
  rcmp; cbn.
  unfold handleBrickCollisions; cbn.
  unfold ballOverlaps, brickB; cbn.
  rcmp; cbn.
  unfold bounceOffBrick; cbn.
  rewrite !Rabs_left by lra.
  rcmp; cbn.
  unfold damageBrick, destroyBrick; cbn.
  unfold handlePerks; cbn.
  unfold perkCaught; cbn.
  rcmp; cbn; rcmp; cbn.
  unfold applyPerk, loseLife; cbn.
  unfold saveScore, saveHighScore, loadRecentScores, emptyDisk; cbn.
  reflexivity.
Qed.

Lemma createBrick_keeps (level r c : Z) (s : World) :
  paddle (createBrick level r c s) = paddle s
  /\ ball (createBrick level r c s) = ball s
  /\ currentLevel (createBrick level r c s) = currentLevel s
  /\ score (createBrick level r c s) = score s
  /\ lives (createBrick level r c s) = lives s.
Proof. unfold createBrick; cbn; repeat split. Qed.

(** Level generation touches the ball's speed and nothing else of ball and
    paddle. *)
Lemma createBricksForLevel_keeps (L : Z) (s : World) :
  let s' := createBricksForLevel L s in
  paddle s' = paddle s
  /\ ball s' = Ball.set_speed (levelSpeed L) (ball s)
  /\ currentLevel s' = currentLevel s
  /\ score s' = score s /\ lives s' = lives s.
Proof.
  set (K := fun (_ : nat) (t : World) =>
              paddle t = paddle s /\ ball t = ball s
              /\ currentLevel t = currentLevel s
              /\ score t = score s /\ lives t = lives s).
  set (s0 := set_bricksRemaining 0%Z
               (set_projectiles [] (set_perks [] (set_bricks [] s)))).
  assert (K0 : K 0%nat s0) by (unfold K; repeat split).
  assert (Kc : forall r i k t, K k t -> K (k + 0)%nat (createBrick L r i t)).
  { intros r i k t (A & B & C & D & E).
    destruct (createBrick_keeps L r i t) as (A' & B' & C' & D' & E').
    unfold K; rewrite A', B', C', D', E'; repeat split; assumption. }
  assert (Kl : K (0 + Z.to_nat (levelRows L) * 0)%nat
                 (for_loop (levelRows L)
                    (fun r => for_loop levelCols (fun c => createBrick L r c)) s0)).
  { apply (for_loop_steps K 0); [| exact K0].
    intros i k t Hk.
    replace (k + 0)%nat with (k + Z.to_nat levelCols * 0)%nat by lia.
    exact (for_loop_steps K 0 (fun c => createBrick L i c) (Kc i) levelCols k t Hk). }
  destruct Kl as (A & B & C & D & E).
  cbv zeta; unfold createBricksForLevel; cbv zeta.
  fold s0; cbn [paddle ball currentLevel score lives set_ball].
  rewrite A, B, C, D, E; repeat split.
Qed.

(** Space on the level-clear screen goes on with the lives there are. *)
Lemma space_on_level_clear (now : Z) (s : World) :
  gameState s = GS_LEVEL_CLEAR ->
  exists s', keyboardDown " " now s = Some s'
    /\ gameState s' = GS_PLAYING
    /\ currentLevel s' = (currentLevel s + 1)%Z
    /\ lives s' = lives s.
Proof.
  intros Hs.
  exists (startLevel now (currentLevel s + 1)
            (set_currentLevel (currentLevel s + 1) s)).
  split; [unfold keyboardDown; rewrite Hs; reflexivity |].
  unfold startLevel; cbv zeta.
  cbn [gameState currentLevel lives set_gameState set_elapsedTime set_gameStartTime].
  destruct (resetPaddleAndBall_spec
              (createBricksForLevel (currentLevel s + 1)
                 (set_currentLevel (currentLevel s + 1) s)))
    as (_ & _ & _ & _ & _ & _ & _ & Rl & _); cbv zeta in Rl.
  destruct (createBricksForLevel_keeps (currentLevel s + 1)
              (set_currentLevel (currentLevel s + 1) s))
    as (_ & _ & Kc & _ & Kl); cbv zeta in Kc, Kl.
  split; [reflexivity |].
  split.
  - unfold resetPaddleAndBall; cbn [currentLevel set_ball set_paddle].
    exact Kc.
  - rewrite Rl; exact Kl.
Qed.

(** C5: a death perk that takes the last life does not always end the game.
    In [lastBrickWorld] (in play, one life, one brick left) a tick of 16 ms
    does not lose the ball; the ball destroys the last brick, the death
    perk is caught, [applyPerk] takes the life, saves the score and sets
    the mode to game-over; but [updateGame] goes on after [handlePerks],
    and its level-clear check, finding no brick left, saves the score once
    more and sets the mode to level-clear.  The tick ends in level-clear
    with no life; space then starts level 2 in play with no life.  The
    other life loss, the missed ball, returns from [updateGame] at once:
    with one life, [fallingWorld 1] ends the same tick in game-over. *)
Theorem C5_death_perk_tick_ends_in_level_clear :
  let s := lastBrickWorld in
  let s' := updateGame 0.016 16 s in
  (gameState s = GS_PLAYING /\ lives s = 1%Z
   /\ ballMissed (updateMotion 0.016 16 s) = false)
  /\ gameState
       (handlePerks 0.016
          (handleBrickCollisions
             (handlePaddleCollision (updateMotion 0.016 16 s)))) = GS_GAMEOVER
  /\ (lives s' = 0%Z /\ gameState s' = GS_LEVEL_CLEAR
      /\ score s' = 50%Z /\ loadRecentScores s' = [50%Z; 50%Z]
      /\ highScore s' = 50%Z)
  /\ (exists t, keyboardDown " " 5000 s' = Some t
        /\ gameState t = GS_PLAYING /\ currentLevel t = 2%Z /\ lives t = 0%Z)
  /\ gameState (updateGame 0.016 16 (fallingWorld 1)) = GS_GAMEOVER.
Proof.
  cbv zeta.
  assert (M : ballMissed (updateMotion 0.016 16 lastBrickWorld) = false).
  { rewrite lastBrickWorld_motion; unfold ballMissed; cbn; rcmp; reflexivity. }
  assert (E : updateGame 0.016 16 lastBrickWorld
              = let s5 := increaseBallSpeedOverTime 0.016
                            (handleProjectiles 0.016 afterPerks) in
                if (bricksRemaining s5 <=? 0)%Z
                then set_gameState GS_LEVEL_CLEAR (saveScore (score s5) s5)
                else s5).
  { unfold updateGame.
    replace (gameState lastBrickWorld) with GS_PLAYING by reflexivity.
    cbn [GameState_eqb negb].
    rewrite M, lastBrickWorld_after_perks; reflexivity. }
  assert (F : lives (updateGame 0.016 16 lastBrickWorld) = 0%Z
              /\ gameState (updateGame 0.016 16 lastBrickWorld) = GS_LEVEL_CLEAR
              /\ score (updateGame 0.016 16 lastBrickWorld) = 50%Z
              /\ loadRecentScores (updateGame 0.016 16 lastBrickWorld)
                 = [50%Z; 50%Z]
              /\ highScore (updateGame 0.016 16 lastBrickWorld) = 50%Z
              /\ currentLevel (updateGame 0.016 16 lastBrickWorld) = 1%Z).
  { rewrite E; clear E.
    replace (handleProjectiles 0.016 afterPerks) with afterPerks by reflexivity.
    unfold increaseBallSpeedOverTime, normalizeBallVelocity, afterPerks; cbn.
    destruct (Rgtb (sqrt _) _); cbn; unfold saveScore, loadRecentScores; cbn;
      repeat split; reflexivity. }
  destruct F as (Fl & Fg & Fs & Fr & Fh & Fc).
  split; [split; [reflexivity | split; [reflexivity | exact M]] |].
  split; [rewrite lastBrickWorld_after_perks; reflexivity |].
  split; [split; [exact Fl | split; [exact Fg | split; [exact Fs | split; [exact Fr | exact Fh]]]] |].
  split.
  - destruct (space_on_level_clear 5000 (updateGame 0.016 16 lastBrickWorld) Fg)
      as (t & K & Tg & Tc & Tl).
    exists t.
    split; [exact K |].
    split; [exact Tg |].
    split; [now rewrite Tc, Fc | now rewrite Tl, Fl].
  - destruct (life_loss_paths 0.016 16 (fallingWorld 1) deathPerk (fallingWorld 3)
                eq_refl (fallingWorld_missed 1) eq_refl eq_refl eq_refl)
      as (_ & Over & _).
    apply Over; cbn; lia.
Qed.

(** C10: every life loss that leaves lives (a missed ball, a death perk)
    sets, besides the ball's position and its stuck flag, the paddle's width
    to 120 and the ball's speed to 380, whatever they were before: widened or
    shrunk paddle, perk-raised or ramped speed. *)
Theorem C10_life_loss_resets_width_and_speed (dt : R) (now : Z) (s : World)
    (p : Perk.t) (t : World) :
  gameState s = GS_PLAYING ->
  ballMissed (updateMotion dt now s) = true ->
  Perk.type p = 5%Z ->
  (lives s - 1 > 0)%Z ->
  (lives t - 1 > 0)%Z ->
  let s' := updateGame dt now s in
  let t' := snd (applyPerk p t) in
  (Paddle.w (paddle s') = 120 /\ Ball.speed (ball s') = 380
   /\ Ball.stuck (ball s') = true /\ lives s' = (lives s - 1)%Z
   /\ gameState s' = GS_PLAYING)
  /\ (Paddle.w (paddle t') = 120 /\ Ball.speed (ball t') = 380
      /\ Ball.stuck (ball t') = true /\ lives t' = (lives t - 1)%Z
      /\ gameState t' = gameState t).
Proof.
  intros Hg Hm Hp Hls Hlt s' t'.
  set (m := updateMotion dt now s).
  destruct (updateMotion_frame dt now s) as (Mg & _ & _ & _ & _ & Ml & _);
    cbv zeta in *; fold m in Mg, Ml.
  assert (Es : s' = resetPaddleAndBall (set_lives (lives m - 1) m)).
  { unfold s'; rewrite updateGame_miss by assumption.
    apply loseLife_reset; fold m; now rewrite Ml. }
  assert (Et : t' = resetPaddleAndBall (set_lives (lives t - 1) t)).
  { unfold t'; rewrite applyPerk_death by assumption.
    now apply loseLife_reset. }
  rewrite Es, Et.
  destruct (resetPaddleAndBall_spec (set_lives (lives m - 1) m))
    as (-> & -> & -> & _ & _ & _ & _ & -> & _); cbv zeta.
  destruct (resetPaddleAndBall_spec (set_lives (lives t - 1) t))
    as (-> & -> & -> & _ & _ & _ & _ & -> & _); cbv zeta.
  cbn [gameState lives set_lives Paddle.w Ball.speed Ball.stuck].
  rewrite Mg, Hg, Ml.
  split; repeat (split; [reflexivity |]); reflexivity.
Qed.

Lemma C10_life_loss_resets_width_and_speed_witness :
  let s := fallingWorld 3 in
  let s' := updateGame 0.016 16 s in
  let t' := snd (applyPerk deathPerk s) in
  Paddle.w (paddle s) = 160 /\ Ball.speed (ball s) = 500
  /\ Paddle.w (paddle s') = 120 /\ Ball.speed (ball s') = 380
  /\ Paddle.w (paddle t') = 120 /\ Ball.speed (ball t') = 380.
Proof.
  cbv zeta.
  destruct (C10_life_loss_resets_width_and_speed 0.016 16 (fallingWorld 3)
              deathPerk (fallingWorld 3) eq_refl (fallingWorld_missed 3) eq_refl)
    as ((W & V & _) & (W' & V' & _)); [cbn; lia | cbn; lia |].
  repeat split; assumption.
Defined.

(** ** The game mode under input events *)

Arguments startLevel : simpl never.
Arguments startNewGame : simpl never.
Arguments launchBall : simpl never.
Arguments openHelpFile : simpl never.
Arguments playMusic : simpl never.
Arguments stopMusic : simpl never.

Lemma launchBall_gameState (s : World) : gameState (launchBall s) = gameState s.
Proof. unfold launchBall; destruct (negb _); reflexivity. Qed.

Lemma mouseClick_gameState (button state x y : Z) (s : World) :
  gameState (mouseClick button state x y s) = gameState s.
Proof.
  unfold mouseClick.
  destruct (_ || _); [reflexivity |].
  destruct (GameState_eqb _ _); [| reflexivity].
  destruct (Rleb _ _); reflexivity.
Qed.

Lemma passiveMouse_gameState (x y : Z) (s : World) :
  gameState (passiveMouse x y s) = gameState s.
Proof.
  unfold passiveMouse.
  destruct (GameState_eqb _ _); [| reflexivity].
  cbn [ball set_paddle]; destruct (Ball.stuck _); reflexivity.
Qed.

Lemma keyboardUp_gameState (key : ascii) (s : World) :
  gameState (keyboardUp key s) = gameState s.
Proof. unfold keyboardUp; repeat destruct (_ || _); reflexivity. Qed.

Lemma specialDown_gameState (key : Z) (s : World) :
  gameState (specialDown key s) = gameState s.
Proof. unfold specialDown; repeat destruct (_ =? _)%Z; reflexivity. Qed.

Lemma specialUp_gameState (key : Z) (s : World) :
  gameState (specialUp key s) = gameState s.
Proof. unfold specialUp; repeat destruct (_ =? _)%Z; reflexivity. Qed.

(** C9, as stated, fails in the music menu: the keys 1 and 2 are no
    transition of the specification's table there, and each of them
    switches the music and returns to the menu. *)
Lemma C9_music_menu_digit_changes_mode :
  let s := set_gameState GS_MUSIC_MENU freshWorld in
  gameState s = GS_MUSIC_MENU
  /\ specTransition (gameState s) (KeyDown "1") = false
  /\ modeAfter 0 (KeyDown "1") s = Some GS_MENU
  /\ specTransition (gameState s) (KeyDown "2") = false
  /\ modeAfter 0 (KeyDown "2") s = Some GS_MENU.
Proof. cbv zeta; repeat split. Qed.

Ltac key_case :=
  match goal with
  | |- context [Ascii.eqb ?k ?c] =>
      let E := fresh "E" in destruct (Ascii.eqb k c) eqn:E
  end; cbn [orb andb negb].

(** C9, amended: an input event that is no transition of the table for the
    current mode leaves the mode unchanged (and the process running),
    except for the keys 1 and 2 in the music menu, which return to the
    menu. *)
Theorem C9_unlisted_event_keeps_mode (now : Z) (e : Event) (s : World) :
  specTransition (gameState s) e = false ->
  ~ (gameState s = GS_MUSIC_MENU /\ (e = KeyDown "1" \/ e = KeyDown "2")) ->
  modeAfter now e s = Some (gameState s).
Proof.
  intros Hspec Hmusic; unfold modeAfter.
  destruct e as [key | key | key | key | button state x y | x y];
    cbn [handleEvent option_map].
  - unfold keyboardDown; cbn [specTransition] in Hspec.
    revert Hspec.
    destruct (gameState s) eqn:G; cbn [GameState_eqb orb andb];
      repeat key_case; intros Hspec;
      try discriminate Hspec;
      try reflexivity;
      try (destruct (Ball.stuck (ball s)); cbn [option_map];
           now rewrite ?launchBall_gameState, ?G);
      try (exfalso; apply Hmusic; split; [reflexivity |];
           match goal with
           | H : Ascii.eqb key "1" = true |- _ => apply Ascii.eqb_eq in H; subst; now left
           | H : Ascii.eqb key "2" = true |- _ => apply Ascii.eqb_eq in H; subst; now right
           end).
    all: cbn [option_map gameState set_keyLeft set_keyRight]; now rewrite G.
  - now rewrite keyboardUp_gameState.
  - now rewrite specialDown_gameState.
  - now rewrite specialUp_gameState.
  - now rewrite mouseClick_gameState.
  - now rewrite passiveMouse_gameState.
Qed.

Lemma C9_unlisted_event_keeps_mode_witness :
  modeAfter 0 (KeyDown "1") (set_gameState GS_HELP freshWorld) = Some GS_HELP
  /\ modeAfter 0 (KeyDown " ") (set_gameState GS_PAUSED freshWorld) = Some GS_PAUSED.
Proof.
  split.
  - apply (C9_unlisted_event_keeps_mode 0 (KeyDown "1") (set_gameState GS_HELP freshWorld));
      [reflexivity | intros [H _]; discriminate H].
  - apply (C9_unlisted_event_keeps_mode 0 (KeyDown " ") (set_gameState GS_PAUSED freshWorld));
      [reflexivity | intros [H _]; discriminate H].
Defined.

(** ** The paddle and the pointer *)

Lemma keyboardDown_pause (now : Z) (s : World) :
  gameState s = GS_PLAYING ->
  keyboardDown "p" now s = Some (set_gameState GS_PAUSED s).
Proof. intros H; unfold keyboardDown; rewrite H; reflexivity. Qed.

Lemma timerFunc_idle (last now : Z) (s : World) :
  gameState s <> GS_PLAYING -> snd (timerFunc last now s) = s.
Proof.
  intros H; unfold timerFunc; cbn [snd].
  destruct (GameState_eqb (gameState s) GS_PLAYING) eqn:E; [| reflexivity].
  apply GameState_eqb_eq in E; contradiction.
Qed.

(** C7 fails on the code.  In a game being served (paddle 120 wide at
    x = 340) a pointer event at window x = 0 puts the paddle at x = -60,
    left of the playfield; [passiveMouse] has no clamp, unlike the key
    motion of [updateGame].  Pausing then keeps every tick from clamping
    it: the paddle is still at -60 after the next timer call. *)
Theorem C7_pointer_puts_paddle_off_field :
  let s := servingWorld in
  let s1 := passiveMouse 0 300 s in
  gameState s = GS_PLAYING
  /\ Paddle.x (paddle s) = 340
  /\ Paddle.w (paddle s1) = 120
  /\ Paddle.x (paddle s1) = -60
  /\ ~ (0 <= Paddle.x (paddle s1) <= IZR WIN_W - Paddle.w (paddle s1))
  /\ exists s2, keyboardDown "p" 16 s1 = Some s2
       /\ Paddle.x (paddle (snd (timerFunc 16 32 s2))) = -60.
Proof.
  cbv zeta.
  assert (Hx : Paddle.x (paddle servingWorld) = 340).
  { reflexivity. }
  assert (Hw : Paddle.w (paddle (passiveMouse 0 300 servingWorld)) = 120).
  { unfold servingWorld, passiveMouse; cbn; reflexivity. }
  assert (H1 : Paddle.x (paddle (passiveMouse 0 300 servingWorld)) = -60).
  { unfold servingWorld, passiveMouse; cbn; lra. }
  split; [reflexivity |]. split; [exact Hx |]. split; [exact Hw |].
  split; [exact H1 |]. split; [rewrite H1; lra |].
  exists (set_gameState GS_PAUSED (passiveMouse 0 300 servingWorld)).
  split.
  - apply keyboardDown_pause.
    rewrite passiveMouse_gameState; reflexivity.
  - rewrite timerFunc_idle by (cbn [gameState set_gameState]; discriminate).
    cbn [paddle set_gameState]; exact H1.
Qed.


(** ** The velocity of the ball *)

Lemma vmag_nonneg (b : Ball.t) : 0 <= vmag b.
Proof. apply sqrt_pos. Qed.

Lemma vmag_flip (vx vy vx' vy' : R) :
  (vx' = vx \/ vx' = - vx) -> (vy' = vy \/ vy' = - vy) ->
  sqrt (vx' * vx' + vy' * vy') = sqrt (vx * vx + vy * vy).
Proof. intros [-> | ->] [-> | ->]; f_equal; ring. Qed.

Lemma vmag_polar (v a : R) :
  0 <= v -> sqrt (v * cos a * (v * cos a) + v * sin a * (v * sin a)) = v.
Proof.
  intros Hv.
  replace (v * cos a * (v * cos a) + v * sin a * (v * sin a))
    with (v * v * (Rsqr (sin a) + Rsqr (cos a))) by (unfold Rsqr; ring).
  rewrite sin2_cos2, Rmult_1_r.
  now apply sqrt_square.
Qed.

Lemma vmag_rescale (vx vy v : R) :
  0 <= v -> 0 < sqrt (vx * vx + vy * vy) ->
  let m := sqrt (vx * vx + vy * vy) in
  sqrt (vx * (v / m) * (vx * (v / m)) + vy * (v / m) * (vy * (v / m))) = v.
Proof.
  intros Hv Hm m.
  assert (Hk : 0 <= v / m).
  { unfold Rdiv; apply Rmult_le_pos; [assumption |].
    left; apply Rinv_0_lt_compat; assumption. }
  replace (vx * (v / m) * (vx * (v / m)) + vy * (v / m) * (vy * (v / m)))
    with (v / m * (v / m) * (vx * vx + vy * vy)) by ring.
  rewrite sqrt_mult; [| nra | nra].
  rewrite sqrt_square by assumption.
  fold m; field; unfold m; lra.
Qed.

Lemma sameMotion_refl (b : Ball.t) : sameMotion b b.
Proof. repeat split. Qed.

Lemma sameMotion_trans (b1 b2 b3 : Ball.t) :
  sameMotion b1 b2 -> sameMotion b2 b3 -> sameMotion b1 b3.
Proof.
  intros (A1 & A2 & A3) (B1 & B2 & B3); unfold sameMotion.
  rewrite B1, B2, B3; auto.
Qed.

Lemma sameMotion_eq (b b' : Ball.t) : b' = b -> sameMotion b b'.
Proof. intros ->; apply sameMotion_refl. Qed.

Lemma ballInv_sameMotion (s s' : World) :
  sameMotion (ball s) (ball s') -> ballInv s -> ballInv s'.
Proof.
  intros (E1 & E2 & E3) (H1 & H2); unfold ballInv.
  rewrite E1, E2, E3; auto.
Qed.

Lemma ballMoving_sameMotion (s s' : World) :
  sameMotion (ball s) (ball s') -> ballMoving s -> ballMoving s'.
Proof.
  intros (E1 & E2 & E3) (H1 & H2); unfold ballMoving.
  rewrite E1, E2, E3; auto.
Qed.

Lemma ballInv_moving (s : World) : ballInv s -> ballMoving s.
Proof.
  intros (H1 & H2); split; [assumption |].
  intros Hs; rewrite (H2 Hs); assumption.
Qed.

Lemma tickCooldown_ball (dt : R) (s : World) : ball (tickCooldown dt s) = ball s.
Proof. unfold tickCooldown; destruct (Rgtb _ _); reflexivity. Qed.

Lemma tickFireball_motion (dt : R) (s : World) :
  sameMotion (ball s) (ball (tickFireball dt s)).
Proof.
  unfold tickFireball.
  destruct (Ball.isFireball (ball s)); [| apply sameMotion_refl].
  cbn [ball set_ball].
  destruct (Rleb _ _); repeat split.
Qed.

Lemma moveBall_motion (dt : R) (s : World) :
  sameMotion (ball s) (ball (moveBall dt s)).
Proof.
  unfold moveBall; cbn [ball set_ball].
  destruct (Ball.stuck (ball s)) eqn:E; repeat split; cbn; now rewrite ?E.
Qed.

Lemma flip_vx_motion (b : Ball.t) (x : R) :
  sameMotion b (Ball.set_vx (- Ball.vx b) (Ball.set_x x b)).
Proof. repeat split; unfold vmag; cbn; f_equal; ring. Qed.

Lemma flip_vy_motion (b : Ball.t) (y : R) :
  sameMotion b (Ball.set_vy (- Ball.vy b) (Ball.set_y y b)).
Proof. repeat split; unfold vmag; cbn; f_equal; ring. Qed.

Lemma if_motion (c : bool) (b b1 : Ball.t) :
  sameMotion b b1 -> sameMotion b (if c then b1 else b).
Proof. destruct c; [trivial | intros _; apply sameMotion_refl]. Qed.

Lemma handleWallCollisions_motion (s : World) :
  sameMotion (ball s) (ball (handleWallCollisions s)).
Proof.
  unfold handleWallCollisions; cbn [ball set_ball].
  eapply sameMotion_trans; [| apply if_motion, flip_vy_motion].
  eapply sameMotion_trans; [| apply if_motion, flip_vx_motion].
  apply if_motion, flip_vx_motion.
Qed.

(** The first half of a tick keeps the ball's speed, stuck flag and
    velocity magnitude: walls only turn the velocity. *)
Lemma updateMotion_motion (dt : R) (now : Z) (s : World) :
  sameMotion (ball s) (ball (updateMotion dt now s)).
Proof.
  unfold updateMotion.
  eapply sameMotion_trans; [| apply handleWallCollisions_motion].
  eapply sameMotion_trans; [| apply moveBall_motion].
  unfold movePaddle; cbn [ball set_paddle].
  eapply sameMotion_trans; [| apply tickFireball_motion].
  rewrite tickCooldown_ball.
  apply sameMotion_refl.
Qed.

Lemma saveScore_ball (sc : Z) (s : World) : ball (saveScore sc s) = ball s.
Proof. now destruct (saveScore_frame sc s) as (_ & -> & _). Qed.

Lemma saveHighScore_ball (v : Z) (s : World) : ball (saveHighScore v s) = ball s.
Proof. now destruct (saveHighScore_spec v s) as (_ & _ & _ & _ & -> & _). Qed.

Lemma resetPaddleAndBall_ballInv (s : World) : ballInv (resetPaddleAndBall s).
Proof.
  destruct (resetPaddleAndBall_spec s) as (_ & E & _); cbv zeta in E.
  unfold ballInv; rewrite E; cbn; split; [lra | discriminate].
Qed.

(** Losing a life either leaves the ball alone (game over) or sets it up
    again, stuck, at the base speed. *)
Lemma loseLife_ball (s : World) :
  ball (loseLife s) = ball s \/ ballInv (loseLife s).
Proof.
  unfold loseLife; cbn [lives set_lives].
  destruct (lives s - 1 <=? 0)%Z.
  - left; cbn [ball set_gameState].
    now rewrite saveHighScore_ball, saveScore_ball.
  - right; apply resetPaddleAndBall_ballInv.
Qed.

Lemma loseLife_ballInv (s : World) : ballInv s -> ballInv (loseLife s).
Proof.
  intros H; destruct (loseLife_ball s) as [E | I]; [| exact I].
  apply (ballInv_sameMotion s); [apply sameMotion_eq, E | exact H].
Qed.

Lemma loseLife_ballMoving (s : World) : ballMoving s -> ballMoving (loseLife s).
Proof.
  intros H; destruct (loseLife_ball s) as [E | I]; [| now apply ballInv_moving].
  apply (ballMoving_sameMotion s); [apply sameMotion_eq, E | exact H].
Qed.

(** A bounce off the paddle gives the velocity the magnitude of the
    speed. *)
Lemma bounceBallOffPaddle_ballInv (s : World) :
  380 <= Ball.speed (ball s) -> ballInv (bounceBallOffPaddle s).
Proof.
  intros H; unfold bounceBallOffPaddle, ballInv; cbn [ball set_ball].
  split; [exact H |].
  intros _; unfold vmag; cbn.
  apply vmag_polar; lra.
Qed.

Lemma handlePaddleCollision_ballInv (s : World) :
  ballInv s -> ballInv (handlePaddleCollision s).
Proof.
  intros H; unfold handlePaddleCollision.
  destruct (_ && _); [| exact H].
  apply bounceBallOffPaddle_ballInv, H.
Qed.

Lemma destroyBrick_ball (b : Brick.t) (s : World) :
  ball (snd (destroyBrick b s)) = ball s.
Proof. now destruct (destroyBrick_frame b s) as (-> & _). Qed.

Lemma bounceOffBrick_motion (b : Brick.t) (s : World) :
  sameMotion (ball s) (ball (snd (bounceOffBrick b s))).
Proof.
  destruct (bounceOffBrick_ball b s) as (_ & _ & _ & _ & Hs & Hk & Hx & Hy).
  cbv zeta in *; repeat split; [exact Hs | exact Hk |].
  unfold vmag; now apply vmag_flip.
Qed.

Lemma brickLoop_motion (bs : list Brick.t) (s : World) :
  sameMotion (ball s) (ball (snd (brickLoop bs s))).
Proof.
  revert s; induction bs as [| b bs IH]; intros s; cbn [brickLoop].
  - apply sameMotion_refl.
  - destruct (negb (Brick.alive b)).
    + specialize (IH s); destruct (brickLoop bs s); exact IH.
    + destruct (ballOverlaps (ball s) b).
      * destruct (Ball.isFireball (ball s)).
        -- pose proof (destroyBrick_ball b s) as E.
           destruct (destroyBrick b s) as [b' s1]; cbn [snd] in E.
           specialize (IH s1); destruct (brickLoop bs s1) as [rest' s'].
           cbn [snd] in *; now rewrite <- E.
        -- pose proof (bounceOffBrick_motion b s) as M.
           destruct (bounceOffBrick b s) as [b' s1]; exact M.
      * specialize (IH s); destruct (brickLoop bs s); exact IH.
Qed.

Lemma handleBrickCollisions_motion (s : World) :
  sameMotion (ball s) (ball (handleBrickCollisions s)).
Proof. rewrite handleBrickCollisions_eq; cbn [ball set_bricks]; apply brickLoop_motion. Qed.

(** A caught perk may raise the speed or reset the ball; the velocity
    stays that of a speed of at least 380. *)
Lemma applyPerk_ballMoving (p : Perk.t) (s : World) :
  ballMoving s -> ballMoving (snd (applyPerk p s)).
Proof.
  intros (H1 & H2); unfold applyPerk; cbn [snd].
  destruct (Perk.type p =? 0)%Z; [split; assumption |].
  destruct (Perk.type p =? 1)%Z; [split; assumption |].
  destruct (Perk.type p =? 2)%Z.
  { unfold ballMoving; cbn [ball set_ball Ball.speed Ball.set_speed Ball.stuck].
    split; [| exact H2].
    unfold Rgtb, Rltb, BALL_SPEED_MAX; destruct (Rlt_dec _ _); lra. }
  destruct (Perk.type p =? 3)%Z; [split; assumption |].
  destruct (Perk.type p =? 4)%Z; [split; assumption |].
  destruct (Perk.type p =? 5)%Z; [| split; assumption].
  apply loseLife_ballMoving; split; assumption.
Qed.

Lemma perkLoop_ballMoving (dt : R) (ps : list Perk.t) (s : World) :
  ballMoving s -> ballMoving (snd (perkLoop dt ps s)).
Proof.
  revert s; induction ps as [| p ps IH]; intros s H; cbn [perkLoop]; [exact H |].
  destruct (negb (Perk.alive p)).
  - specialize (IH s H); destruct (perkLoop dt ps s); exact IH.
  - match goal with |- context [perkCaught ?q ?pd] => destruct (perkCaught q pd) end.
    + match goal with |- context [applyPerk ?q s] =>
        pose proof (applyPerk_ballMoving q s H) as H1;
        destruct (applyPerk q s) as [q' s1]
      end.
      cbn [snd] in H1; specialize (IH s1 H1).
      destruct (perkLoop dt ps s1); exact IH.
    + specialize (IH s H); destruct (perkLoop dt ps s); exact IH.
Qed.

Lemma handlePerks_ballMoving (dt : R) (s : World) :
  ballMoving s -> ballMoving (handlePerks dt s).
Proof.
  intros H; unfold handlePerks.
  pose proof (perkLoop_ballMoving dt (perks s) s H) as H1.
  destruct (perkLoop dt (perks s) s) as [ps s']; exact H1.
Qed.

Lemma projectileBrickLoop_ball (p : Projectile.t) (bs : list Brick.t) (s : World) :
  ball (snd (projectileBrickLoop p bs s)) = ball s.
Proof.
  induction bs as [| b bs IH]; cbn [projectileBrickLoop]; [reflexivity |].
  destruct (_ && _).
  - pose proof (damageBrick_ball b s) as E.
    destruct (damageBrick b s) as [b' s1]; exact E.
  - destruct (projectileBrickLoop p bs s) as [[p' rest'] s']; exact IH.
Qed.

Lemma projectileLoop_ball (dt : R) (ps : list Projectile.t) (s : World) :
  ball (snd (projectileLoop dt ps s)) = ball s.
Proof.
  revert s; induction ps as [| p ps IH]; intros s; cbn [projectileLoop]; [reflexivity |].
  destruct (negb (Projectile.alive p)).
  - specialize (IH s); destruct (projectileLoop dt ps s); exact IH.
  - match goal with |- context [projectileBrickLoop ?q ?l s] =>
      pose proof (projectileBrickLoop_ball q l s) as E;
      destruct (projectileBrickLoop q l s) as [[q' bs'] s1]
    end.
    cbn [snd] in E.
    specialize (IH (set_bricks bs' s1)).
    destruct (projectileLoop dt ps (set_bricks bs' s1)) as [rest' s'].
    cbn [snd] in *; now rewrite IH.
Qed.

Lemma handleProjectiles_ball (dt : R) (s : World) :
  ball (handleProjectiles dt s) = ball s.
Proof.
  unfold handleProjectiles.
  pose proof (projectileLoop_ball dt (projectiles s) s) as E.
  destruct (projectileLoop dt (projectiles s) s) as [ps s']; exact E.
Qed.

(** The renormalisation gives a moving ball the magnitude of its speed. *)
Lemma normalizeBallVelocity_ballInv (s : World) :
  ballMoving s -> ballInv (normalizeBallVelocity s).
Proof.
  intros (H1 & H2); unfold normalizeBallVelocity, ballInv.
  fold (vmag (ball s)).
  destruct (Ball.stuck (ball s)) eqn:Hs.
  - destruct (Rgtb _ _); cbn; rewrite ?Hs; split; (assumption || discriminate).
  - specialize (H2 eq_refl).
    rewrite Rgtb_true by lra.
    cbn [ball set_ball Ball.speed Ball.stuck Ball.set_vx Ball.set_vy].
    split; [exact H1 |].
    intros _; unfold vmag at 1; cbn [Ball.vx Ball.vy].
    apply (vmag_rescale (Ball.vx (ball s)) (Ball.vy (ball s)) (Ball.speed (ball s)));
      [lra | fold (vmag (ball s)); lra].
Qed.

(** The speed ramp ends with the invariant: the speed grows (up to 900) and
    the velocity is scaled to it. *)
Lemma increaseBallSpeedOverTime_ballInv (dt : R) (s : World) :
  0 <= dt -> ballMoving s -> ballInv (increaseBallSpeedOverTime dt s).
Proof.
  intros Hdt (H1 & H2); unfold increaseBallSpeedOverTime.
  destruct (Ball.stuck (ball s)) eqn:Hs; cbn [negb].
  - split; [exact H1 | rewrite Hs; discriminate].
  - specialize (H2 eq_refl).
    apply normalizeBallVelocity_ballInv.
    unfold ballMoving; cbn [ball set_ball Ball.speed Ball.set_speed Ball.stuck].
    split; [| intros _; exact H2].
    unfold Rgtb, Rltb, BALL_SPEED_MAX, BALL_SPEED_INCREASE_RATE.
    destruct (Rlt_dec _ _); lra.
Qed.

Lemma betweenBricks_ballInv (fire : bool) : ballInv (betweenBricks fire).
Proof.
  unfold ballInv, vmag; cbn; split; [lra |].
  intros _.
  replace (228 * 228 + 304 * 304) with (380 * 380) by lra.
  apply sqrt_square; lra.
Qed.

(** C4: a tick of the update loop keeps the invariant of the ball.  From a
    state in which the ball's speed is at least 380 and, when the ball is
    in flight, its velocity has the magnitude of its speed, and for a time
    step [dt >= 0], the state after [updateGame] is such a state again: if
    the ball is not stuck after the tick, the magnitude of (vx, vy) equals
    [ball.speed], whatever walls, paddle, bricks, perks and the speed ramp
    did to speed and velocity during the tick.  (Exact real arithmetic: the
    equality is exact, where the floats of the program meet it up to
    rounding.) *)
Theorem C4_velocity_magnitude (dt : R) (now : Z) (s : World) :
  0 <= dt ->
  ballInv s ->
  let s' := updateGame dt now s in
  (Ball.stuck (ball s') = false -> vmag (ball s') = Ball.speed (ball s'))
  /\ 380 <= Ball.speed (ball s').
Proof.
  intros Hdt Hinv s'.
  assert (I : ballInv s').
  { unfold s', updateGame.
    destruct (negb (GameState_eqb (gameState s) GS_PLAYING)); [exact Hinv |].
    assert (I0 : ballInv (updateMotion dt now s))
      by (apply (ballInv_sameMotion s); [apply updateMotion_motion | exact Hinv]).
    destruct (ballMissed (updateMotion dt now s)); [now apply loseLife_ballInv |].
    cbv zeta.
    set (s1 := handlePaddleCollision (updateMotion dt now s)).
    assert (I1 : ballInv s1) by now apply handlePaddleCollision_ballInv.
    set (s2 := handleBrickCollisions s1).
    assert (I2 : ballInv s2)
      by (apply (ballInv_sameMotion s1); [apply handleBrickCollisions_motion | exact I1]).
    set (s3 := handlePerks dt s2).
    assert (I3 : ballMoving s3) by (apply handlePerks_ballMoving, ballInv_moving, I2).
    set (s4 := handleProjectiles dt s3).
    assert (I4 : ballMoving s4).
    { apply (ballMoving_sameMotion s3); [| exact I3].
      apply sameMotion_eq, handleProjectiles_ball. }
    set (s5 := increaseBallSpeedOverTime dt s4).
    assert (I5 : ballInv s5) by now apply increaseBallSpeedOverTime_ballInv.
    destruct (bricksRemaining s5 <=? 0)%Z; [| exact I5].
    apply (ballInv_sameMotion s5); [| exact I5].
    apply sameMotion_eq; cbn [ball set_gameState]; apply saveScore_ball. }
  destruct I as (I1 & I2); split; assumption.
Qed.

Lemma C4_velocity_magnitude_witness :
  let s' := updateGame 0.016 16 (betweenBricks false) in
  (Ball.stuck (ball s') = false -> vmag (ball s') = Ball.speed (ball s'))
  /\ 380 <= Ball.speed (ball s').
Proof.
  apply (C4_velocity_magnitude 0.016 16 (betweenBricks false));
    [lra | apply betweenBricks_ballInv].
Defined.

(** * Further properties of the code *)

(** ** Persistence *)

(** X1: [saveHighScore] keeps the maximum.  After saving [a] and then [b]
    the in-memory high score is the largest of the old one, [a] and [b];
    it never drops; and saving a score that is not above the high score
    changes nothing at all, on disk or in memory (100 stays after 50). *)
Theorem X1_saveHighScore_keeps_maximum (a b : Z) (s : World) :
  highScore (saveHighScore b (saveHighScore a s))
  = Z.max (Z.max (highScore s) a) b
  /\ (highScore s <= highScore (saveHighScore a s))%Z
  /\ saveHighScore (Z.min a (highScore s)) s = s
  /\ saveHighScore 50 (saveHighScore 100 s) = saveHighScore 100 s.
Proof.
  assert (Noop : forall v t, (v <= highScore t)%Z -> saveHighScore v t = t).
  { intros v t H; unfold saveHighScore.
    destruct (Z.gtb_spec v (highScore t)); [lia | reflexivity]. }
  destruct (saveHighScore_spec a s) as (Ha & _); cbv zeta in Ha.
  destruct (saveHighScore_spec b (saveHighScore a s)) as (Hb & _); cbv zeta in Hb.
  split; [now rewrite Hb, Ha |].
  split; [rewrite Ha; lia |].
  split; [apply Noop; lia |].
  apply Noop.
  destruct (saveHighScore_spec 100 s) as (-> & _); lia.
Qed.

(** X2: the program degrades silently when the disk fails.  If no output
    file opens, [saveScore] changes nothing and [saveHighScore] still
    raises the high score in memory while the disk stays as it was.  A
    scores file that cannot be read counts as empty, a missing high-score
    file as 0, and the first successful [saveScore] leaves a file with that
    one score. *)
Theorem X2_persistence_failures (sc : Z) (s : World) :
  (Disk.writable (disk s) = false ->
     saveScore sc s = s
     /\ disk (saveHighScore sc s) = disk s
     /\ highScore (saveHighScore sc s) = Z.max (highScore s) sc)
  /\ (Disk.scores_txt (disk s) = None ->
      loadRecentScores s = []
      /\ (Disk.writable (disk s) = true -> loadRecentScores (saveScore sc s) = [sc]))
  /\ (Disk.highscore_txt (disk s) = None -> loadHighScore s = 0%Z).
Proof.
  split; [| split].
  - intros Hw; split; [unfold saveScore; now rewrite Hw |].
    destruct (saveHighScore_spec sc s) as (Hm & _); cbv zeta in Hm.
    split; [| exact Hm].
    unfold saveHighScore.
    destruct (sc >? highScore s)%Z; [| reflexivity].
    cbn [disk set_highScore]; now rewrite Hw.
  - intros Hn.
    assert (E : loadRecentScores s = []) by (unfold loadRecentScores; now rewrite Hn).
    split; [exact E |].
    intros Hw; unfold loadRecentScores at 1.
    now rewrite (saveScore_file sc s Hw), E.
  - intros Hn; unfold loadHighScore; now rewrite Hn.
Qed.

Lemma X2_persistence_failures_witness :
  let s := set_disk readOnlyDisk (fallingWorld 3) in
  saveScore 70 s = s
  /\ disk (saveHighScore 70 s) = disk s
  /\ highScore (saveHighScore 70 s) = 70%Z
  /\ loadRecentScores (saveScore 70 (fallingWorld 3)) = [70%Z]
  /\ loadHighScore s = 0%Z.
Proof.
  cbv zeta.
  destruct (X2_persistence_failures 70 (set_disk readOnlyDisk (fallingWorld 3)))
    as (A & _ & C).
  destruct (A eq_refl) as (A1 & A2 & A3).
  destruct (X2_persistence_failures 70 (fallingWorld 3)) as (_ & B & _).
  destruct (B eq_refl) as (_ & B2).
  split; [exact A1 |]. split; [exact A2 |]. split; [exact A3 |].
  split; [exact (B2 eq_refl) | exact (C eq_refl)].
Defined.

(** ** Bounds kept by the first half of a tick *)

Lemma moveBall_paddle (dt : R) (s : World) : paddle (moveBall dt s) = paddle s.
Proof. reflexivity. Qed.

Lemma handleWallCollisions_paddle (s : World) :
  paddle (handleWallCollisions s) = paddle s.
Proof. reflexivity. Qed.

Lemma tickFireball_paddle (dt : R) (s : World) : paddle (tickFireball dt s) = paddle s.
Proof. unfold tickFireball; destruct (Ball.isFireball _); reflexivity. Qed.

Lemma tickCooldown_paddle (dt : R) (s : World) : paddle (tickCooldown dt s) = paddle s.
Proof. unfold tickCooldown; destruct (Rgtb _ _); reflexivity. Qed.

Lemma movePaddle_clamped (dt : R) (s : World) :
  Paddle.w (paddle s) <= 800 ->
  let p := paddle (movePaddle dt s) in
  0 <= Paddle.x p <= 800 - Paddle.w p /\ Paddle.w p = Paddle.w (paddle s).
Proof.
  intros Hw; cbv zeta; unfold movePaddle, WIN_W; cbn [paddle set_paddle].
  generalize (Paddle.speed (paddle s) * dt); intros mv.
  destruct (keyLeft s), (keyRight s); cbn [Paddle.x Paddle.w Paddle.set_x];
    unfold Rgtb, Rltb;
    repeat (match goal with |- context [Rlt_dec ?a ?b] => destruct (Rlt_dec a b) end;
            cbn [Paddle.x Paddle.w Paddle.set_x] in *);
    (split; [lra | reflexivity]).
Qed.

(** X3: the clamp of the tick works.  Whatever the keys held and wherever
    the pointer left the paddle, after the first half of [updateGame] a
    paddle no wider than the window lies inside it:
    [0 <= paddle.x <= 800 - paddle.w], and its width is unchanged. *)
Theorem X3_tick_clamps_paddle (dt : R) (now : Z) (s : World) :
  Paddle.w (paddle s) <= 800 ->
  let p := paddle (updateMotion dt now s) in
  0 <= Paddle.x p <= 800 - Paddle.w p /\ Paddle.w p = Paddle.w (paddle s).
Proof.
  intros Hw; cbv zeta; unfold updateMotion.
  rewrite handleWallCollisions_paddle, moveBall_paddle.
  assert (E : paddle (tickFireball dt (tickCooldown dt (tickClock now s))) = paddle s)
    by now rewrite tickFireball_paddle, tickCooldown_paddle.
  destruct (movePaddle_clamped dt (tickFireball dt (tickCooldown dt (tickClock now s))))
    as (H1 & H2); [now rewrite E |].
  cbv zeta in *; rewrite E in H2; split; assumption.
Qed.

Lemma X3_tick_clamps_paddle_witness :
  let p := paddle (updateMotion 0.016 16 (passiveMouse 0 300 servingWorld)) in
  0 <= Paddle.x p <= 800 - Paddle.w p.
Proof.
  apply (X3_tick_clamps_paddle 0.016 16 (passiveMouse 0 300 servingWorld)).
  unfold passiveMouse, servingWorld; cbn; lra.
Defined.

(** X4: after [handleWallCollisions] the ball is inside the side walls and
    under the ceiling: for a radius between 0 and 400,
    [radius <= ball.x <= 800 - radius] and [ball.y <= 600 - radius].  The
    floor is not a wall: nothing bounds [ball.y] from below. *)
Theorem X4_walls_contain_ball (s : World) :
  0 <= Ball.radius (ball s) <= 400 ->
  let b := ball (handleWallCollisions s) in
  Ball.radius b <= Ball.x b <= 800 - Ball.radius b
  /\ Ball.y b <= 600 - Ball.radius b
  /\ Ball.radius b = Ball.radius (ball s)
  /\ (Ball.y (ball s) + Ball.radius (ball s) < 600 -> Ball.y b = Ball.y (ball s)).
Proof.
  intros Hr; cbv zeta; unfold handleWallCollisions, WIN_W, WIN_H; cbn [ball set_ball].
  unfold Rgeb, Rleb.
  destruct (Rle_dec (Ball.x (ball s) - Ball.radius (ball s)) 0);
    cbn [Ball.x Ball.y Ball.radius Ball.set_x Ball.set_vx];
    match goal with |- context [Rle_dec (IZR 800) ?a] => destruct (Rle_dec (IZR 800) a) end;
    cbn [Ball.x Ball.y Ball.radius Ball.set_x Ball.set_vx];
    match goal with |- context [Rle_dec (IZR 600) ?a] => destruct (Rle_dec (IZR 600) a) end;
    cbn [Ball.x Ball.y Ball.radius Ball.set_x Ball.set_vx Ball.set_y Ball.set_vy];
    repeat split; lra.
Qed.

Lemma X4_walls_contain_ball_witness :
  let b := ball (handleWallCollisions (betweenBricks false)) in
  Ball.radius b <= Ball.x b <= 800 - Ball.radius b /\ Ball.y b <= 600 - Ball.radius b.
Proof.
  destruct (X4_walls_contain_ball (betweenBricks false)) as (H1 & H2 & _);
    [cbn; lra | split; assumption].
Defined.

(** ** Paddle bounce and launch *)

Lemma handlePaddleCollision_eq (s : World) :
  handlePaddleCollision s = if paddleContact s then bounceBallOffPaddle s else s.
Proof. reflexivity. Qed.

Lemma bounceBallOffPaddle_clear (s : World) :
  paddleContact (bounceBallOffPaddle s) = false.
Proof.
  unfold paddleContact, bounceBallOffPaddle; cbn.
  rewrite (Rltb_false
             (Paddle.y (paddle s) + Paddle.h (paddle s) + Ball.radius (ball s) + 1
              - Ball.radius (ball s))
             (Paddle.y (paddle s) + Paddle.h (paddle s))) by lra.
  now rewrite andb_false_r.
Qed.

Lemma paddle_contact_angle (bx r px w : R) :
  0 <= r -> 10 * r <= w -> bx + r > px -> bx - r < px + w ->
  - (PI / 2) < (bx - (px + w * 0.5)) / (w * 0.5) * (75 * PI / 180) < PI / 2.
Proof.
  intros Hr Hw H1 H2.
  assert (Hw0 : 0 < w) by lra.
  pose proof PI_RGT_0 as Hpi.
  set (rel := (bx - (px + w * 0.5)) / (w * 0.5)).
  assert (E : rel * (w * 0.5) = bx - (px + w * 0.5)) by (unfold rel; field; lra).
  assert (Hrel : -1.2 < rel < 1.2) by (split; nra).
  split; nra.
Qed.

(** X5: a paddle bounce sends the ball up and cannot fire twice.  When the
    ball (radius at most a tenth of the paddle's width, as 8 is of 120)
    meets the paddle, [handlePaddleCollision] leaves it moving upward and
    one unit clear of the paddle's top, so a second call changes nothing;
    [handlePaddleCollision] is idempotent in every state. *)
Theorem X5_paddle_bounce_goes_up (s : World) :
  paddleContact s = true ->
  0 < Ball.speed (ball s) ->
  0 <= Ball.radius (ball s) ->
  10 * Ball.radius (ball s) <= Paddle.w (paddle s) ->
  let s' := handlePaddleCollision s in
  0 < Ball.vy (ball s')
  /\ Ball.y (ball s') - Ball.radius (ball s')
     = Paddle.y (paddle s) + Paddle.h (paddle s) + 1
  /\ paddleContact s' = false
  /\ (forall t, handlePaddleCollision (handlePaddleCollision t) = handlePaddleCollision t).
Proof.
  intros Hc Hv Hr Hw s'.
  assert (Idem : forall t, handlePaddleCollision (handlePaddleCollision t)
                           = handlePaddleCollision t).
  { intros t; rewrite (handlePaddleCollision_eq t).
    destruct (paddleContact t) eqn:E.
    - now rewrite handlePaddleCollision_eq, bounceBallOffPaddle_clear.
    - now rewrite handlePaddleCollision_eq, E. }
  unfold s'; rewrite handlePaddleCollision_eq, Hc.
  split; [| split; [| split; [apply bounceBallOffPaddle_clear | exact Idem]]].
  - unfold paddleContact in Hc.
    repeat (apply andb_true_iff in Hc; destruct Hc as [Hc ?]).
    repeat match goal with
           | H : Rgtb _ _ = true |- _ => apply Rltb_spec in H
           | H : Rltb _ _ = true |- _ => apply Rltb_spec in H
           end.
    unfold bounceBallOffPaddle; cbn.
    rewrite <- cos_sin.
    apply Rmult_lt_0_compat; [exact Hv |].
    destruct (paddle_contact_angle (Ball.x (ball s)) (Ball.radius (ball s))
                (Paddle.x (paddle s)) (Paddle.w (paddle s)) Hr Hw)
      as (A1 & A2); [lra | lra |].
    apply cos_gt_0; assumption.
  - unfold bounceBallOffPaddle; cbn; ring.
Qed.

Lemma landingWorld_contact : paddleContact landingWorld = true.
Proof. unfold paddleContact; cbn; rcmp; reflexivity. Qed.

Lemma X5_paddle_bounce_goes_up_witness :
  let s' := handlePaddleCollision landingWorld in
  0 < Ball.vy (ball s') /\ Ball.y (ball s') - Ball.radius (ball s') = 50 + 16 + 1.
Proof.
  destruct (X5_paddle_bounce_goes_up landingWorld landingWorld_contact)
    as (H1 & H2 & _); [cbn; lra | cbn; lra | cbn; lra |].
  split; [exact H1 | exact H2].
Defined.

Lemma launch_angle (d : Z) :
  (0 <= d)%Z ->
  0 < PI / 3 + IZR (Z.rem d 100 - 50) * 0.004 < PI / 2.
Proof.
  intros Hd.
  assert (Hk : (-50 <= Z.rem d 100 - 50 <= 49)%Z).
  { pose proof (Z.rem_bound_pos d 100 Hd ltac:(lia)); lia. }
  destruct Hk as [Hlo Hhi]; apply IZR_le in Hlo, Hhi.
  pose proof PI2_3_2; pose proof PI_4.
  split; lra.
Qed.

(** X6: [launchBall] puts a stuck ball in flight, up and to the right.
    For a draw of [rand()] (never negative) the launch angle lies strictly
    between 0 and 90 degrees, so both velocity components are positive and
    the velocity has exactly the magnitude of the ball's speed; one draw is
    consumed; and a ball already in flight is left alone. *)
Theorem X6_launchBall_flight (s : World) :
  Ball.stuck (ball s) = true ->
  (0 <= rand_src s (rand_pos s))%Z ->
  0 < Ball.speed (ball s) ->
  let s' := launchBall s in
  Ball.stuck (ball s') = false
  /\ 0 < Ball.vx (ball s') /\ 0 < Ball.vy (ball s')
  /\ vmag (ball s') = Ball.speed (ball s')
  /\ Ball.speed (ball s') = Ball.speed (ball s)
  /\ rand_pos s' = S (rand_pos s)
  /\ launchBall s' = s'.
Proof.
  intros Hs Hd Hv s'.
  assert (E : s' = let a := PI / 3 + IZR (Z.rem (rand_src s (rand_pos s)) 100 - 50) * 0.004 in
                   let b := Ball.set_stuck false (ball s) in
                   set_ball (Ball.set_vy (Ball.speed b * sin a)
                               (Ball.set_vx (Ball.speed b * cos a) b))
                     (set_rand_pos (S (rand_pos s)) (set_ball b s))).
  { unfold s', launchBall; rewrite Hs; reflexivity. }
  destruct (launch_angle _ Hd) as (A1 & A2).
  pose proof PI_RGT_0 as Hpi.
  rewrite E; cbv zeta; cbn [ball set_ball rand_pos set_rand_pos Ball.stuck Ball.vx
                             Ball.vy Ball.speed Ball.set_vx Ball.set_vy Ball.set_stuck].
  split; [reflexivity |].
  split; [apply Rmult_lt_0_compat; [exact Hv | apply cos_gt_0; lra] |].
  split; [apply Rmult_lt_0_compat; [exact Hv | apply sin_gt_0; lra] |].
  split; [unfold vmag; cbn; apply vmag_polar; lra |].
  split; [reflexivity |]. split; [reflexivity |].
  unfold launchBall; reflexivity.
Qed.

Lemma X6_launchBall_flight_witness :
  let s' := launchBall servingWorld in
  Ball.stuck (ball s') = false /\ 0 < Ball.vx (ball s') /\ 0 < Ball.vy (ball s')
  /\ vmag (ball s') = 380.
Proof.
  destruct (X6_launchBall_flight servingWorld eq_refl) as (H1 & H2 & H3 & H4 & H5 & _);
    [cbn; lia | cbn; lra |].
  cbv zeta; rewrite H4, H5.
  repeat (split; [assumption |]); reflexivity.
Defined.

(** ** Score, bricks and counter through a tick *)

Lemma tickStep_refl (s : World) : tickStep s s.
Proof. unfold tickStep; repeat split; lia. Qed.

Lemma tickStep_trans (s1 s2 s3 : World) :
  tickStep s1 s2 -> tickStep s2 s3 -> tickStep s1 s3.
Proof.
  intros (A1 & A2 & A3 & A4 & A5) (B1 & B2 & B3 & B4 & B5); unfold tickStep.
  repeat split; lia.
Qed.

(** A step that leaves the five fields alone. *)
Lemma tickStep_same (s s' : World) :
  score s' = score s -> bricksRemaining s' = bricksRemaining s ->
  bricks s' = bricks s -> projectiles s' = projectiles s -> perks s' = perks s ->
  tickStep s s'.
Proof. intros E1 E2 E3 E4 E5; unfold tickStep; rewrite E1, E2, E3, E4, E5; repeat split; lia. Qed.

Lemma tickStep_sameGame (s s' : World) : sameGame s s' -> tickStep s s'.
Proof.
  intros (_ & B & P & J & S & _ & _ & R & _); apply tickStep_same; assumption.
Qed.

Lemma spawnPerk_perks (x y : R) (s : World) :
  length (perks (spawnPerk x y s)) = S (length (perks s)).
Proof. unfold spawnPerk; cbn; rewrite length_app; cbn; lia. Qed.

Lemma destroyBrick_perks (b : Brick.t) (s : World) :
  (length (perks s) <= length (perks (snd (destroyBrick b s))))%nat.
Proof.
  unfold destroyBrick; cbn [snd].
  destruct (_ =? 1)%Z; [rewrite spawnPerk_perks; cbn; lia | cbn; lia].
Qed.

Lemma destroyBrick_bricks (b : Brick.t) (s : World) :
  bricks (snd (destroyBrick b s)) = bricks s.
Proof.
  unfold destroyBrick; cbn [snd].
  destruct (_ =? 1)%Z; [| reflexivity].
  match goal with |- context [spawnPerk ?x ?y ?t] =>
    now destruct (spawnPerk_frame x y t) as (_ & _ & _ & _ & _ & _ & _ & _ & ->)
  end.
Qed.

(** What damaging an alive brick does to the state: the score grows, the
    counter drops exactly if the brick dies. *)
Lemma damageBrick_step (b : Brick.t) (s : World) :
  Brick.alive b = true ->
  let b' := fst (damageBrick b s) in
  let s' := snd (damageBrick b s) in
  (score s < score s')%Z
  /\ (bricksRemaining s' - aliveCount [b'] = bricksRemaining s - 1)%Z
  /\ projectiles s' = projectiles s
  /\ bricks s' = bricks s
  /\ (length (perks s) <= length (perks s'))%nat.
Proof.
  intros Ha; cbv zeta; unfold damageBrick.
  destruct (Brick.hits (Brick.set_hits (Brick.hits b - 1) b) <=? 0)%Z.
  - set (c := Brick.set_hits (Brick.hits b - 1) b).
    rewrite destroyBrick_brick, destroyBrick_bricks.
    pose proof (destroyBrick_perks c s) as Hp.
    destruct (destroyBrick_frame c s) as (_ & -> & -> & _ & _ & _ & _ & ->).
    unfold aliveCount; cbn; repeat split; try lia.
  - cbn [fst snd score bricksRemaining projectiles bricks perks set_score].
    unfold aliveCount; cbn; rewrite Ha; cbn; repeat split; lia.
Qed.

Lemma aliveCount_cons (b : Brick.t) (bs : list Brick.t) :
  aliveCount (b :: bs) = (aliveCount [b] + aliveCount bs)%Z.
Proof.
  unfold aliveCount; cbn [filter]; destruct (Brick.alive b); cbn [length app]; lia.
Qed.

Lemma bounceOffBrick_step (b : Brick.t) (s : World) :
  Brick.alive b = true ->
  let b' := fst (bounceOffBrick b s) in
  let s' := snd (bounceOffBrick b s) in
  (score s < score s')%Z
  /\ (bricksRemaining s' - aliveCount [b'] = bricksRemaining s - 1)%Z
  /\ projectiles s' = projectiles s
  /\ bricks s' = bricks s
  /\ (length (perks s) <= length (perks s'))%nat.
Proof.
  intros Ha; unfold bounceOffBrick.
  match goal with |- context [damageBrick b ?t] =>
    exact (damageBrick_step b t Ha)
  end.
Qed.

(** The loop of [handleBrickCollisions] on any rest of the vector. *)
Lemma brickLoop_step (bs : list Brick.t) (s : World) :
  let bs' := fst (brickLoop bs s) in
  let s' := snd (brickLoop bs s) in
  (score s <= score s')%Z
  /\ (bricksRemaining s' - aliveCount bs' = bricksRemaining s - aliveCount bs)%Z
  /\ length bs' = length bs
  /\ projectiles s' = projectiles s
  /\ bricks s' = bricks s
  /\ (length (perks s) <= length (perks s'))%nat.
Proof.
  revert s; induction bs as [| b bs IH]; intros s; cbv zeta; cbn [brickLoop].
  - cbn; repeat split; lia.
  - destruct (Brick.alive b) eqn:Ha; cbn [negb].
    + destruct (ballOverlaps (ball s) b).
      * destruct (Ball.isFireball (ball s)).
        -- pose proof (destroyBrick_brick b s) as Eb.
           pose proof (destroyBrick_perks b s) as Ep.
           pose proof (destroyBrick_bricks b s) as Ebs.
           destruct (destroyBrick_frame b s) as (_ & Es & Er & _ & _ & _ & _ & Ej).
           cbv zeta in *.
           destruct (destroyBrick b s) as [b' s1]; cbn [fst snd] in *.
           specialize (IH s1); cbv zeta in IH.
           destruct (brickLoop bs s1) as [rest' s']; cbn [fst snd] in *.
           destruct IH as (I1 & I2 & I3 & I4 & I5 & I6).
           rewrite (aliveCount_cons b'), (aliveCount_cons b), Eb.
           unfold aliveCount at 1 3; cbn [filter Brick.alive Brick.set_alive length].
           rewrite Ha; cbn [length].
           rewrite I4, I5, Ej, Ebs; cbn [length].
           repeat split; lia.
        -- destruct (bounceOffBrick_step b s Ha) as (S1 & S2 & S3 & S4 & S5).
           cbv zeta in *.
           destruct (bounceOffBrick b s) as [b' s1]; cbn [fst snd] in *.
           rewrite (aliveCount_cons b'), (aliveCount_cons b).
           unfold aliveCount at 3; cbn [filter]; rewrite Ha; cbn [length].
           repeat split; lia || assumption.
      * specialize (IH s); cbv zeta in IH.
        destruct (brickLoop bs s) as [rest' s']; cbn [fst snd] in *.
        destruct IH as (I1 & I2 & I3 & I4 & I5 & I6).
        rewrite (aliveCount_cons b rest'), (aliveCount_cons b bs); cbn [length].
        repeat split; lia || assumption.
    + specialize (IH s); cbv zeta in IH.
      destruct (brickLoop bs s) as [rest' s']; cbn [fst snd] in *.
      destruct IH as (I1 & I2 & I3 & I4 & I5 & I6).
      rewrite (aliveCount_cons b rest'), (aliveCount_cons b bs); cbn [length].
      repeat split; lia || assumption.
Qed.

Lemma handleBrickCollisions_step (s : World) :
  tickStep s (handleBrickCollisions s).
Proof.
  rewrite handleBrickCollisions_eq.
  destruct (brickLoop_step (bricks s) s) as (I1 & I2 & I3 & I4 & I5 & I6).
  cbv zeta in *; unfold tickStep.
  cbn [score bricksRemaining bricks projectiles perks set_bricks].
  rewrite I4; repeat split; lia.
Qed.

Lemma projectileBrickLoop_step (p : Projectile.t) (bs : list Brick.t) (s : World) :
  let bs' := snd (fst (projectileBrickLoop p bs s)) in
  let s' := snd (projectileBrickLoop p bs s) in
  (score s <= score s')%Z
  /\ (bricksRemaining s' - aliveCount bs' = bricksRemaining s - aliveCount bs)%Z
  /\ length bs' = length bs
  /\ projectiles s' = projectiles s
  /\ (length (perks s) <= length (perks s'))%nat.
Proof.
  induction bs as [| b bs IH]; cbv zeta; cbn [projectileBrickLoop].
  - cbn; repeat split; lia.
  - destruct (Brick.alive b && projectileInside p b) eqn:Hit.
    + apply andb_true_iff in Hit as [Ha _].
      destruct (damageBrick_step b s Ha) as (S1 & S2 & S3 & S4 & S5); cbv zeta in *.
      destruct (damageBrick b s) as [b' s1]; cbn [fst snd] in *.
      rewrite (aliveCount_cons b'), (aliveCount_cons b).
      unfold aliveCount at 3; cbn [filter]; rewrite Ha; cbn [length].
      repeat split; lia || assumption.
    + cbv zeta in IH.
      destruct (projectileBrickLoop p bs s) as [[p' rest'] s']; cbn [fst snd] in *.
      destruct IH as (I1 & I2 & I3 & I4 & I5).
      rewrite (aliveCount_cons b rest'), (aliveCount_cons b bs); cbn [length].
      repeat split; lia || assumption.
Qed.

Lemma projectileLoop_step (dt : R) (ps : list Projectile.t) (s : World) :
  let ps' := fst (projectileLoop dt ps s) in
  let s' := snd (projectileLoop dt ps s) in
  length ps' = length ps
  /\ projectiles s' = projectiles s
  /\ tickStep s s'.
Proof.
  revert s; induction ps as [| p ps IH]; intros s; cbv zeta; cbn [projectileLoop].
  - cbn; split; [reflexivity | split; [reflexivity | apply tickStep_refl]].
  - destruct (negb (Projectile.alive p)).
    + specialize (IH s); cbv zeta in IH.
      destruct (projectileLoop dt ps s) as [rest' s']; cbn [fst snd length] in *.
      destruct IH as (I1 & I2 & I3); split; [lia | split; assumption].
    + match goal with |- context [projectileBrickLoop ?q ?l s] =>
        destruct (projectileBrickLoop_step q l s) as (S1 & S2 & S3 & S4 & S5);
        destruct (projectileBrickLoop q l s) as [[q' bs'] s1]
      end.
      cbv zeta in *; cbn [fst snd] in *.
      specialize (IH (set_bricks bs' s1)); cbv zeta in IH.
      destruct (projectileLoop dt ps (set_bricks bs' s1)) as [rest' s'].
      cbn [fst snd length] in *.
      destruct IH as (I1 & I2 & I3).
      split; [lia |]. split; [rewrite I2; exact S4 |].
      apply (tickStep_trans s (set_bricks bs' s1)); [| exact I3].
      unfold tickStep; cbn [score bricksRemaining bricks projectiles perks set_bricks].
      rewrite S4; repeat split; lia.
Qed.

Lemma handleProjectiles_step (dt : R) (s : World) :
  tickStep s (handleProjectiles dt s).
Proof.
  unfold handleProjectiles.
  destruct (projectileLoop_step dt (projectiles s) s) as (I1 & I2 & I3 & I4 & I5 & I6 & I7).
  cbv zeta in *.
  destruct (projectileLoop dt (projectiles s) s) as [ps' s']; cbn [fst snd] in *.
  unfold tickStep; cbn [score bricksRemaining bricks projectiles perks set_projectiles].
  repeat split; lia.
Qed.

(** A perk touches neither score nor bricks nor projectiles. *)
Lemma applyPerk_frame (p : Perk.t) (s : World) :
  let s' := snd (applyPerk p s) in
  score s' = score s /\ bricksRemaining s' = bricksRemaining s
  /\ bricks s' = bricks s /\ projectiles s' = projectiles s /\ perks s' = perks s.
Proof.
  cbv zeta; unfold applyPerk; cbn [snd].
  repeat (destruct (Perk.type p =? _)%Z;
          [repeat (split; [reflexivity |]); reflexivity |]).
  destruct (Perk.type p =? 5)%Z; [| repeat (split; [reflexivity |]); reflexivity].
  destruct (loseLife_frame s) as (_ & B & P & J & S & R & _); cbv zeta in *.
  rewrite B, P, J, S, R; repeat (split; [reflexivity |]); reflexivity.
Qed.

Lemma perkLoop_frame (dt : R) (ps : list Perk.t) (s : World) :
  let ps' := fst (perkLoop dt ps s) in
  let s' := snd (perkLoop dt ps s) in
  length ps' = length ps
  /\ score s' = score s /\ bricksRemaining s' = bricksRemaining s
  /\ bricks s' = bricks s /\ projectiles s' = projectiles s.
Proof.
  revert s; induction ps as [| p ps IH]; intros s; cbv zeta; cbn [perkLoop].
  - cbn; repeat split.
  - destruct (negb (Perk.alive p)).
    + specialize (IH s); cbv zeta in IH.
      destruct (perkLoop dt ps s) as [rest' s']; cbn [fst snd length] in *.
      destruct IH as (I1 & I2 & I3 & I4 & I5); repeat split; try lia; assumption.
    + match goal with |- context [perkCaught ?q ?pd] => destruct (perkCaught q pd) end.
      * match goal with |- context [applyPerk ?q s] =>
          destruct (applyPerk_frame q s) as (A1 & A2 & A3 & A4 & _);
          destruct (applyPerk q s) as [q' s1]
        end.
        cbv zeta in *; cbn [fst snd] in *.
        specialize (IH s1); cbv zeta in IH.
        destruct (perkLoop dt ps s1) as [rest' s']; cbn [fst snd length] in *.
        destruct IH as (I1 & I2 & I3 & I4 & I5).
        rewrite I2, I3, I4, I5, A1, A2, A3, A4; repeat split; lia.
      * specialize (IH s); cbv zeta in IH.
        destruct (perkLoop dt ps s) as [rest' s']; cbn [fst snd length] in *.
        destruct IH as (I1 & I2 & I3 & I4 & I5); repeat split; try lia; assumption.
Qed.

Lemma handlePerks_step (dt : R) (s : World) : tickStep s (handlePerks dt s).
Proof.
  unfold handlePerks.
  destruct (perkLoop_frame dt (perks s) s) as (I1 & I2 & I3 & I4 & I5).
  cbv zeta in *.
  destruct (perkLoop dt (perks s) s) as [ps' s']; cbn [fst snd] in *.
  unfold tickStep; cbn [score bricksRemaining bricks projectiles perks set_perks].
  rewrite I2, I3, I4, I5; repeat split; lia.
Qed.

Lemma handlePaddleCollision_step (s : World) : tickStep s (handlePaddleCollision s).
Proof.
  rewrite handlePaddleCollision_eq.
  destruct (paddleContact s); [| apply tickStep_refl].
  apply tickStep_same; reflexivity.
Qed.

Lemma increaseBallSpeedOverTime_step (dt : R) (s : World) :
  tickStep s (increaseBallSpeedOverTime dt s).
Proof.
  unfold increaseBallSpeedOverTime, normalizeBallVelocity.
  destruct (negb _); [| apply tickStep_refl].
  cbn [ball set_ball]; destruct (Rgtb (sqrt _) _); apply tickStep_same; reflexivity.
Qed.

Lemma loseLife_step (s : World) : tickStep s (loseLife s).
Proof.
  destruct (loseLife_frame s) as (_ & B & P & J & S & R & _); cbv zeta in *.
  apply tickStep_same; assumption.
Qed.

Lemma saveScore_step (sc : Z) (s : World) : tickStep s (saveScore sc s).
Proof.
  destruct (saveScore_frame sc s) as (_ & _ & _ & B & P & J & S & _ & _ & R & _).
  cbv zeta in *; apply tickStep_same; assumption.
Qed.

(** A whole tick. *)
Lemma updateGame_step (dt : R) (now : Z) (s : World) :
  tickStep s (updateGame dt now s).
Proof.
  unfold updateGame.
  destruct (negb _); [apply tickStep_refl |].
  apply (tickStep_trans _ (updateMotion dt now s));
    [apply tickStep_sameGame, updateMotion_same |].
  destruct (ballMissed _); [apply loseLife_step |].
  cbv zeta.
  eapply tickStep_trans; [apply handlePaddleCollision_step |].
  eapply tickStep_trans; [apply handleBrickCollisions_step |].
  eapply tickStep_trans; [apply handlePerks_step |].
  eapply tickStep_trans; [apply handleProjectiles_step |].
  eapply tickStep_trans; [apply increaseBallSpeedOverTime_step |].
  destruct (_ <=? 0)%Z; [| apply tickStep_refl].
  eapply tickStep_trans; [apply saveScore_step |].
  apply tickStep_same; reflexivity.
Qed.

Lemma aliveCount_all (bs : list Brick.t) :
  Forall (fun b => Brick.alive b = true) bs -> aliveCount bs = Z.of_nat (length bs).
Proof.
  intros H; unfold aliveCount; f_equal; f_equal.
  apply filter_all; intros b Hb.
  rewrite Forall_forall in H; auto.
Qed.

Lemma createBricksForLevel_grid (L : Z) (s : World) :
  gridOf (Z.to_nat (levelRows L) * 10) (createBricksForLevel L s).
Proof.
  set (s0 := set_bricksRemaining 0%Z
               (set_projectiles [] (set_perks [] (set_bricks [] s)))).
  assert (G0 : gridOf 0 s0) by (repeat split; constructor).
  apply (for_loop_steps gridOf 10
           (fun r => for_loop levelCols (fun c => createBrick L r c))
           ltac:(intros i k t Hk;
                 exact (for_loop_steps gridOf 1 (fun c => createBrick L i c)
                          (createBrick_grid L i) levelCols k t Hk))
           (levelRows L) 0 s0 G0).
Qed.

(** X7: [bricksRemaining] mirrors the number of alive bricks.  Level
    generation leaves the two equal, whatever the level, and a tick keeps
    them equal: every path that kills a brick (ball, fireball, projectile)
    takes exactly one off the counter, and no other path touches either. *)
Theorem X7_counter_mirrors_alive_bricks (dt : R) (now L : Z) (s s0 : World) :
  bricksRemaining s = aliveCount (bricks s) ->
  bricksRemaining (updateGame dt now s) = aliveCount (bricks (updateGame dt now s))
  /\ bricksRemaining (createBricksForLevel L s0)
     = aliveCount (bricks (createBricksForLevel L s0)).
Proof.
  intros H; split.
  - destruct (updateGame_step dt now s) as (_ & E & _); lia.
  - destruct (createBricksForLevel_grid L s0) as (Hlen & Hrem & Hall).
    now rewrite Hrem, (aliveCount_all _ Hall), Hlen.
Qed.

Lemma X7_counter_mirrors_alive_bricks_witness :
  let s' := updateGame 0.016 16 (betweenBricks false) in
  bricksRemaining s' = aliveCount (bricks s').
Proof.
  apply (X7_counter_mirrors_alive_bricks 0.016 16 1 (betweenBricks false) freshWorld).
  reflexivity.
Defined.

(** X8: a tick never lowers the score. *)
Theorem X8_score_never_drops (dt : R) (now : Z) (s : World) :
  (score s <= score (updateGame dt now s))%Z.
Proof.
  destruct (updateGame_step dt now s) as (Hscore & _).
  exact Hscore.
Qed.

(** X9: a tick removes nothing from the vectors.  Bricks and projectiles
    keep their number (they are only marked dead), and the perks are only
    added to. *)
Theorem X9_tick_keeps_entities (dt : R) (now : Z) (s : World) :
  let s' := updateGame dt now s in
  length (bricks s') = length (bricks s)
  /\ length (projectiles s') = length (projectiles s)
  /\ (length (perks s) <= length (perks s'))%nat.
Proof.
  destruct (updateGame_step dt now s) as (_ & _ & Hbricks & Hshots & Hperks).
  cbv zeta; split; [exact Hbricks | split; [exact Hshots | exact Hperks]].
Qed.

(** ** The invariant of the game *)

Lemma sameBody_refl (s : World) : sameBody s s.
Proof. repeat split. Qed.

Lemma gameInv_sameBody (s s' : World) : sameBody s s' -> gameInv s -> gameInv s'.
Proof.
  intros (M & W & B & R) (I & (Sw & Sv) & C); unfold gameInv, sized.
  split; [exact (ballInv_sameMotion s s' M I) |].
  destruct M as (Ev & _); rewrite W, Ev, B, R; auto.
Qed.

Lemma sized_same (s s' : World) :
  Paddle.w (paddle s') = Paddle.w (paddle s) ->
  Ball.speed (ball s') = Ball.speed (ball s) ->
  sized s -> sized s'.
Proof. intros E1 E2; unfold sized; now rewrite E1, E2. Qed.

Lemma resetPaddleAndBall_sized (s : World) : sized (resetPaddleAndBall s).
Proof.
  destruct (resetPaddleAndBall_spec s) as (Ep & Eb & _); cbv zeta in *.
  unfold sized; rewrite Ep, Eb; cbn; lra.
Qed.

Lemma movePaddle_w (dt : R) (s : World) :
  Paddle.w (paddle (movePaddle dt s)) = Paddle.w (paddle s).
Proof.
  unfold movePaddle; cbn [paddle set_paddle].
  destruct (keyLeft s), (keyRight s); cbn [Paddle.x Paddle.w Paddle.set_x];
    repeat (match goal with |- context [if ?c then _ else _] => destruct c end;
            cbn [Paddle.x Paddle.w Paddle.set_x]);
    reflexivity.
Qed.

Lemma updateMotion_paddle_w (dt : R) (now : Z) (s : World) :
  Paddle.w (paddle (updateMotion dt now s)) = Paddle.w (paddle s).
Proof.
  unfold updateMotion.
  rewrite handleWallCollisions_paddle, moveBall_paddle, movePaddle_w.
  now rewrite tickFireball_paddle, tickCooldown_paddle.
Qed.

Lemma saveScore_paddle (sc : Z) (s : World) : paddle (saveScore sc s) = paddle s.
Proof. now destruct (saveScore_frame sc s) as (_ & _ & -> & _). Qed.

Lemma saveHighScore_paddle (v : Z) (s : World) : paddle (saveHighScore v s) = paddle s.
Proof. now destruct (saveHighScore_spec v s) as (_ & _ & _ & _ & _ & -> & _). Qed.

Lemma loseLife_sized (s : World) : sized s -> sized (loseLife s).
Proof.
  intros H; unfold loseLife; cbn [lives set_lives].
  destruct (lives s - 1 <=? 0)%Z; [| apply resetPaddleAndBall_sized].
  apply (sized_same s); [| | exact H]; cbn [ball paddle set_gameState].
  - now rewrite saveHighScore_paddle, saveScore_paddle.
  - now rewrite saveHighScore_ball, saveScore_ball.
Qed.

Lemma applyPerk_sized (p : Perk.t) (s : World) :
  sized s -> sized (snd (applyPerk p s)).
Proof.
  intros ((W1 & W2) & V); unfold applyPerk; cbn [snd].
  destruct (Perk.type p =? 0)%Z; [repeat split; assumption |].
  destruct (Perk.type p =? 1)%Z.
  { unfold sized; cbn; unfold Rgtb, Rltb; destruct (Rlt_dec _ _); repeat split; lra. }
  destruct (Perk.type p =? 2)%Z.
  { unfold sized; cbn; unfold Rgtb, Rltb, BALL_SPEED_MAX;
      destruct (Rlt_dec _ _); repeat split; lra. }
  destruct (Perk.type p =? 3)%Z; [repeat split; assumption |].
  destruct (Perk.type p =? 4)%Z.
  { unfold sized; cbn; unfold Rltb; destruct (Rlt_dec _ _); repeat split; lra. }
  destruct (Perk.type p =? 5)%Z; [| repeat split; assumption].
  apply loseLife_sized; repeat split; assumption.
Qed.

Lemma perkLoop_sized (dt : R) (ps : list Perk.t) (s : World) :
  sized s -> sized (snd (perkLoop dt ps s)).
Proof.
  revert s; induction ps as [| p ps IH]; intros s H; cbn [perkLoop]; [exact H |].
  destruct (negb (Perk.alive p)).
  - specialize (IH s H); destruct (perkLoop dt ps s); exact IH.
  - match goal with |- context [perkCaught ?q ?pd] => destruct (perkCaught q pd) end.
    + match goal with |- context [applyPerk ?q s] =>
        pose proof (applyPerk_sized q s H) as H1;
        destruct (applyPerk q s) as [q' s1]
      end.
      cbn [snd] in H1; specialize (IH s1 H1).
      destruct (perkLoop dt ps s1); exact IH.
    + specialize (IH s H); destruct (perkLoop dt ps s); exact IH.
Qed.

Lemma damageBrick_paddle (b : Brick.t) (s : World) :
  paddle (snd (damageBrick b s)) = paddle s.
Proof.
  unfold damageBrick.
  destruct (_ <=? 0)%Z; [| reflexivity].
  match goal with |- context [destroyBrick ?c s] =>
    now destruct (destroyBrick_frame c s) as (_ & _ & _ & -> & _)
  end.
Qed.

Lemma brickLoop_paddle (bs : list Brick.t) (s : World) :
  paddle (snd (brickLoop bs s)) = paddle s.
Proof.
  revert s; induction bs as [| b bs IH]; intros s; cbn [brickLoop]; [reflexivity |].
  destruct (negb (Brick.alive b)).
  - specialize (IH s); destruct (brickLoop bs s); exact IH.
  - destruct (ballOverlaps (ball s) b).
    + destruct (Ball.isFireball (ball s)).
      * destruct (destroyBrick_frame b s) as (_ & _ & _ & E & _); cbv zeta in E.
        destruct (destroyBrick b s) as [b' s1]; cbn [snd] in E.
        specialize (IH s1); destruct (brickLoop bs s1) as [rest' s'].
        cbn [snd] in *; now rewrite IH.
      * unfold bounceOffBrick.
        match goal with |- context [damageBrick b ?t] =>
          pose proof (damageBrick_paddle b t) as E; destruct (damageBrick b t)
        end.
        exact E.
    + specialize (IH s); destruct (brickLoop bs s); exact IH.
Qed.

Lemma projectileBrickLoop_paddle (p : Projectile.t) (bs : list Brick.t) (s : World) :
  paddle (snd (projectileBrickLoop p bs s)) = paddle s.
Proof.
  induction bs as [| b bs IH]; cbn [projectileBrickLoop]; [reflexivity |].
  destruct (_ && _).
  - pose proof (damageBrick_paddle b s) as E.
    destruct (damageBrick b s) as [b' s1]; exact E.
  - destruct (projectileBrickLoop p bs s) as [[p' rest'] s']; exact IH.
Qed.

Lemma projectileLoop_paddle (dt : R) (ps : list Projectile.t) (s : World) :
  paddle (snd (projectileLoop dt ps s)) = paddle s.
Proof.
  revert s; induction ps as [| p ps IH]; intros s; cbn [projectileLoop]; [reflexivity |].
  destruct (negb (Projectile.alive p)).
  - specialize (IH s); destruct (projectileLoop dt ps s); exact IH.
  - match goal with |- context [projectileBrickLoop ?q ?l s] =>
      pose proof (projectileBrickLoop_paddle q l s) as E;
      destruct (projectileBrickLoop q l s) as [[q' bs'] s1]
    end.
    cbn [snd] in E.
    specialize (IH (set_bricks bs' s1)).
    destruct (projectileLoop dt ps (set_bricks bs' s1)) as [rest' s'].
    cbn [snd] in *; now rewrite IH.
Qed.

Lemma normalizeBallVelocity_speed (s : World) :
  Ball.speed (ball (normalizeBallVelocity s)) = Ball.speed (ball s)
  /\ paddle (normalizeBallVelocity s) = paddle s.
Proof. unfold normalizeBallVelocity; destruct (Rgtb _ _); split; reflexivity. Qed.

Lemma increaseBallSpeedOverTime_sized (dt : R) (s : World) :
  sized s -> sized (increaseBallSpeedOverTime dt s).
Proof.
  intros (W & V); unfold increaseBallSpeedOverTime.
  destruct (negb _); [| split; assumption].
  match goal with |- sized (normalizeBallVelocity ?t) =>
    destruct (normalizeBallVelocity_speed t) as (E1 & E2)
  end.
  unfold sized; rewrite E1, E2; cbn; split; [exact W |].
  unfold Rgtb, Rltb, BALL_SPEED_MAX; destruct (Rlt_dec _ _); lra.
Qed.

Lemma handlePaddleCollision_frame (s : World) :
  paddle (handlePaddleCollision s) = paddle s
  /\ Ball.speed (ball (handlePaddleCollision s)) = Ball.speed (ball s)
  /\ bricks (handlePaddleCollision s) = bricks s
  /\ bricksRemaining (handlePaddleCollision s) = bricksRemaining s.
Proof.
  rewrite handlePaddleCollision_eq; destruct (paddleContact s); repeat split.
Qed.

(** A tick keeps the bounds. *)
Lemma updateGame_sized (dt : R) (now : Z) (s : World) :
  sized s -> sized (updateGame dt now s).
Proof.
  intros H; unfold updateGame.
  destruct (negb _); [exact H |].
  assert (H0 : sized (updateMotion dt now s)).
  { apply (sized_same s); [apply updateMotion_paddle_w | | exact H].
    now destruct (updateMotion_motion dt now s) as (-> & _). }
  destruct (ballMissed _); [now apply loseLife_sized |].
  cbv zeta.
  set (s1 := handlePaddleCollision (updateMotion dt now s)).
  assert (H1 : sized s1).
  { destruct (handlePaddleCollision_frame (updateMotion dt now s)) as (E1 & E2 & _).
    apply (sized_same (updateMotion dt now s)); [| | exact H0]; unfold s1.
    - now rewrite E1.
    - exact E2. }
  set (s2 := handleBrickCollisions s1).
  assert (H2 : sized s2).
  { apply (sized_same s1); [| | exact H1].
    - unfold s2; rewrite handleBrickCollisions_eq; cbn [paddle set_bricks].
      now rewrite brickLoop_paddle.
    - unfold s2; now destruct (handleBrickCollisions_motion s1) as (-> & _). }
  set (s3 := handlePerks dt s2).
  assert (H3 : sized s3).
  { unfold s3, handlePerks.
    pose proof (perkLoop_sized dt (perks s2) s2 H2) as Hp.
    destruct (perkLoop dt (perks s2) s2) as [ps s']; exact Hp. }
  set (s4 := handleProjectiles dt s3).
  assert (H4 : sized s4).
  { apply (sized_same s3); [| | exact H3].
    - unfold s4, handleProjectiles.
      pose proof (projectileLoop_paddle dt (projectiles s3) s3) as E.
      destruct (projectileLoop dt (projectiles s3) s3) as [ps s']; cbn [snd] in E.
      cbn [paddle set_projectiles]; now rewrite E.
    - unfold s4; now rewrite handleProjectiles_ball. }
  set (s5 := increaseBallSpeedOverTime dt s4).
  assert (H5 : sized s5) by now apply increaseBallSpeedOverTime_sized.
  destruct (_ <=? 0)%Z; [| exact H5].
  apply (sized_same s5); [| | exact H5]; cbn [ball paddle set_gameState].
  - now rewrite saveScore_paddle.
  - now rewrite saveScore_ball.
Qed.

Lemma levelSpeed_bounds (L : Z) : (1 <= L)%Z -> 380 <= levelSpeed L <= 900.
Proof.
  intros HL; unfold levelSpeed, Rgtb, Rltb, BALL_SPEED_MAX.
  assert (H : 0 <= IZR (L - 1)) by (apply IZR_le; lia).
  destruct (Rlt_dec _ _); lra.
Qed.

Lemma aliveCount_grid (n : nat) (s : World) :
  gridOf n s -> bricksRemaining s = aliveCount (bricks s).
Proof.
  intros (Hlen & Hrem & Hall); now rewrite Hrem, (aliveCount_all _ Hall), Hlen.
Qed.

Lemma enter_level_gameInv (n : nat) (t : R) (g : World) :
  gridOf n g ->
  gameInv (set_gameState GS_PLAYING
             (set_elapsedTime 0 (set_gameStartTime t (resetPaddleAndBall g)))).
Proof.
  intros G.
  apply (gameInv_sameBody (resetPaddleAndBall g)); [repeat split |].
  split; [apply resetPaddleAndBall_ballInv |].
  split; [apply resetPaddleAndBall_sized |].
  destruct (resetPaddleAndBall_spec g) as (_ & _ & _ & -> & _ & _ & _ & _ & _ & -> & _).
  apply (aliveCount_grid _ g G).
Qed.

(** Both ways into a level end with the invariant, whatever came before. *)
Lemma startLevel_gameInv (now L : Z) (s : World) : gameInv (startLevel now L s).
Proof.
  unfold startLevel; cbv zeta.
  eapply enter_level_gameInv, createBricksForLevel_grid.
Qed.

Lemma startNewGame_gameInv (now : Z) (s : World) : gameInv (startNewGame now s).
Proof.
  unfold startNewGame; cbv zeta.
  eapply enter_level_gameInv, createBricksForLevel_grid.
Qed.

Lemma launchBall_gameInv (s : World) : gameInv s -> gameInv (launchBall s).
Proof.
  intros H; pose proof H as ((I1 & _) & (W & V) & C); unfold launchBall.
  destruct (Ball.stuck (ball s)); cbn [negb]; [| exact H].
  unfold gameInv, ballInv, sized; cbn.
  split; [split; [exact I1 |] | split; [split; assumption | exact C]].
  intros _; unfold vmag; cbn; apply vmag_polar; lra.
Qed.

Lemma mainInit_gameInv (rnd : nat -> Z) (d : Disk.t) : gameInv (mainInit rnd d).
Proof.
  unfold mainInit; cbv zeta.
  set (s1 := resetPaddleAndBall
               (set_highScore (loadHighScore (initialGlobals rnd d))
                  (initialGlobals rnd d))).
  assert (EL : currentLevel s1 = 1%Z) by reflexivity.
  rewrite EL.
  destruct (createBricksForLevel_keeps 1 s1) as (Ep & Eb & _); cbv zeta in *.
  destruct (resetPaddleAndBall_spec
              (set_highScore (loadHighScore (initialGlobals rnd d))
                 (initialGlobals rnd d))) as (Rp & Rb & _); cbv zeta in *.
  fold s1 in Rp, Rb.
  pose proof (levelSpeed_bounds 1 ltac:(lia)) as Hv.
  split; [| split].
  - unfold ballInv; rewrite Eb, Rb; cbn; split; [lra | discriminate].
  - unfold sized; rewrite Ep, Eb, Rp, Rb; cbn; lra.
  - apply (aliveCount_grid _ _ (createBricksForLevel_grid 1 s1)).
Qed.

Lemma updateGame_ballInv (dt : R) (now : Z) (s : World) :
  0 <= dt -> ballInv s -> ballInv (updateGame dt now s).
Proof.
  intros Hdt Hinv; unfold updateGame.
  destruct (negb (GameState_eqb (gameState s) GS_PLAYING)); [exact Hinv |].
  assert (I0 : ballInv (updateMotion dt now s))
    by (apply (ballInv_sameMotion s); [apply updateMotion_motion | exact Hinv]).
  destruct (ballMissed (updateMotion dt now s)); [now apply loseLife_ballInv |].
  cbv zeta.
  apply (ballInv_sameMotion
           (increaseBallSpeedOverTime dt
              (handleProjectiles dt
                 (handlePerks dt
                    (handleBrickCollisions
                       (handlePaddleCollision (updateMotion dt now s))))))).
  - destruct (_ <=? 0)%Z; [| apply sameMotion_refl].
    apply sameMotion_eq; cbn [ball set_gameState]; apply saveScore_ball.
  - apply increaseBallSpeedOverTime_ballInv; [exact Hdt |].
    eapply ballMoving_sameMotion; [apply sameMotion_eq, handleProjectiles_ball |].
    apply handlePerks_ballMoving, ballInv_moving.
    eapply ballInv_sameMotion; [apply handleBrickCollisions_motion |].
    apply handlePaddleCollision_ballInv, I0.
Qed.

Lemma updateGame_gameInv (dt : R) (now : Z) (s : World) :
  0 <= dt -> gameInv s -> gameInv (updateGame dt now s).
Proof.
  intros Hdt (I & S & C).
  split; [now apply updateGame_ballInv |].
  split; [now apply updateGame_sized |].
  destruct (updateGame_step dt now s) as (_ & E & _); lia.
Qed.

Lemma timerFunc_gameInv (last now : Z) (s : World) :
  (last <= now)%Z -> gameInv s -> gameInv (snd (timerFunc last now s)).
Proof.
  intros Hc H; unfold timerFunc; cbn [snd].
  destruct (GameState_eqb _ _); [| exact H].
  apply updateGame_gameInv; [| exact H].
  assert (Hd : 0 <= IZR (now - last)) by (apply IZR_le; lia).
  unfold Rgtb, Rltb; destruct (Rlt_dec _ _); lra.
Qed.

Lemma passiveMouse_sameBody (x y : Z) (s : World) : sameBody s (passiveMouse x y s).
Proof.
  unfold passiveMouse.
  destruct (GameState_eqb _ _); [| apply sameBody_refl].
  cbn [ball set_paddle]; destruct (Ball.stuck (ball s)) eqn:E;
    repeat split; cbn; now rewrite ?E.
Qed.

Lemma mouseClick_sameBody (button state x y : Z) (s : World) :
  sameBody s (mouseClick button state x y s).
Proof.
  unfold mouseClick.
  destruct (_ || _); [apply sameBody_refl |].
  destruct (GameState_eqb _ _); [| apply sameBody_refl].
  destruct (Rleb _ _); repeat split.
Qed.

Lemma keyboardDown_gameInv (key : ascii) (now : Z) (s s' : World) :
  gameInv s -> keyboardDown key now s = Some s' -> gameInv s'.
Proof.
  intros H; unfold keyboardDown.
  assert (Same : forall t, sameBody s t -> gameInv t)
    by (intros t Ht; exact (gameInv_sameBody s t Ht H)).
  cbv zeta.
  repeat match goal with
         | |- context [if Ascii.eqb key ?c then _ else _] => destruct (Ascii.eqb key c)
         | |- context [if Ascii.eqb key ?c || _ then _ else _] => destruct (Ascii.eqb key c)
         | |- context [if GameState_eqb ?a ?b then _ else _] => destruct (GameState_eqb a b)
         | |- context [if GameState_eqb ?a ?b && _ then _ else _] => destruct (GameState_eqb a b)
         | |- context [if GameState_eqb ?a ?b || _ then _ else _] => destruct (GameState_eqb a b)
         | |- context [if Ball.stuck ?b then _ else _] => destruct (Ball.stuck b)
         | _ => progress cbn [orb andb]
         end;
    intros E; try discriminate E; injection E as <-;
    match goal with
    | |- gameInv s => exact H
    | |- gameInv (startLevel _ _ _) => apply startLevel_gameInv
    | |- gameInv (startNewGame _ _) => apply startNewGame_gameInv
    | |- gameInv (launchBall s) => apply launchBall_gameInv, H
    | |- _ =>
        apply Same; unfold openHelpFile, playMusic, stopMusic;
        repeat match goal with |- context [if ?c then _ else _] => destruct c end;
        repeat split
    end.
Qed.

Lemma handleEvent_gameInv (now : Z) (e : Event) (s s' : World) :
  gameInv s -> handleEvent now e s = Some s' -> gameInv s'.
Proof.
  intros H; destruct e as [key | key | key | key | button state x y | x y];
    cbn [handleEvent].
  - apply keyboardDown_gameInv, H.
  - intros [= <-]; apply (gameInv_sameBody s); [| exact H].
    unfold keyboardUp; repeat destruct (_ || _); repeat split.
  - intros [= <-]; apply (gameInv_sameBody s); [| exact H].
    unfold specialDown; repeat destruct (_ =? _)%Z; repeat split.
  - intros [= <-]; apply (gameInv_sameBody s); [| exact H].
    unfold specialUp; repeat destruct (_ =? _)%Z; repeat split.
  - intros [= <-]; apply (gameInv_sameBody s); [apply mouseClick_sameBody | exact H].
  - intros [= <-]; apply (gameInv_sameBody s); [apply passiveMouse_sameBody | exact H].
Qed.

(** X10: the invariant of the game holds in every state the program can
    reach.  From what [main] sets up, through any sequence of key, pointer
    and mouse events and of timer calls (the clock not running backwards):
    the ball's speed lies in [380, 900]; in flight its velocity has the
    magnitude of its speed; the paddle's width lies in [40, 280]; and
    [bricksRemaining] is the number of alive bricks. *)
Theorem X10_reachable_states_keep_invariant (s : World) :
  reachable s ->
  380 <= Ball.speed (ball s) <= 900
  /\ (Ball.stuck (ball s) = false -> vmag (ball s) = Ball.speed (ball s))
  /\ 40 <= Paddle.w (paddle s) <= 280
  /\ bricksRemaining s = aliveCount (bricks s).
Proof.
  intros Hr.
  assert (G : gameInv s).
  { induction Hr as [rnd d | now e s s' _ IH E | last now s _ IH Hc].
    - apply mainInit_gameInv.
    - exact (handleEvent_gameInv now e s s' IH E).
    - exact (timerFunc_gameInv last now s Hc IH). }
  destruct G as ((I1 & I2) & (W & V) & C).
  repeat split; assumption || lra.
Qed.

Lemma X10_reachable_states_keep_invariant_witness :
  let s := snd (timerFunc 0 16 (mainInit (fun _ => 0%Z) emptyDisk)) in
  380 <= Ball.speed (ball s) <= 900
  /\ (Ball.stuck (ball s) = false -> vmag (ball s) = Ball.speed (ball s))
  /\ 40 <= Paddle.w (paddle s) <= 280
  /\ bricksRemaining s = aliveCount (bricks s).
Proof.
  apply X10_reachable_states_keep_invariant.
  apply reach_timer; [apply reach_main | lia].
Defined.

(** X11: a tick keeps the bounds on its own.  From any state with the
    paddle's width in [40, 280] and the ball's speed at most 900, whatever
    the time step, the perks caught and the lives lost, [updateGame] ends in
    such a state: wide and shrink perks clamp the width, speed perk and
    speed ramp cap the speed. *)
Theorem X11_tick_keeps_bounds (dt : R) (now : Z) (s : World) :
  40 <= Paddle.w (paddle s) <= 280 ->
  Ball.speed (ball s) <= 900 ->
  let s' := updateGame dt now s in
  40 <= Paddle.w (paddle s') <= 280 /\ Ball.speed (ball s') <= 900.
Proof.
  intros W V; exact (updateGame_sized dt now s (conj W V)).
Qed.

Lemma X11_tick_keeps_bounds_witness :
  let s' := updateGame 0.016 16 (fallingWorld 3) in
  40 <= Paddle.w (paddle s') <= 280 /\ Ball.speed (ball s') <= 900.
Proof.
  apply (X11_tick_keeps_bounds 0.016 16 (fallingWorld 3)); cbn; lra.
Defined.

Lemma enter_level_fields (t : R) (g : World) :
  let s' := set_gameState GS_PLAYING
              (set_elapsedTime 0 (set_gameStartTime t (resetPaddleAndBall g))) in
  Ball.speed (ball s') = 380 /\ Paddle.w (paddle s') = 120
  /\ Ball.stuck (ball s') = true
  /\ score s' = score g /\ lives s' = lives g /\ currentLevel s' = currentLevel g
  /\ bricks s' = bricks g /\ gameState s' = GS_PLAYING.
Proof.
  cbv zeta.
  cbn [ball paddle score lives currentLevel bricks gameState
       set_gameState set_elapsedTime set_gameStartTime].
  destruct (resetPaddleAndBall_spec g) as (-> & -> & _ & -> & _ & _ & -> & -> & _).
  unfold resetPaddleAndBall; cbn; repeat split.
Qed.

(** X12: the speed of a level never reaches the game.  At level [L >= 1]
    [createBricksForLevel] sets the ball's speed to [min(900, 380 +
    30*(L-1))], between 380 and 900; but [startLevel] and [startNewGame]
    call [resetPaddleAndBall] next, so every level starts at speed 380 with
    a paddle 120 wide. *)
Theorem X12_level_speed_is_reset (now L : Z) (s : World) :
  (1 <= L)%Z ->
  Ball.speed (ball (createBricksForLevel L s)) = Rmin 900 (380 + IZR (L - 1) * 30)
  /\ 380 <= Ball.speed (ball (createBricksForLevel L s)) <= 900
  /\ Ball.speed (ball (startLevel now L s)) = 380
  /\ Paddle.w (paddle (startLevel now L s)) = 120
  /\ Ball.speed (ball (startNewGame now s)) = 380.
Proof.
  intros HL.
  destruct (createBricksForLevel_keeps L s) as (_ & Eb & _); cbv zeta in Eb.
  pose proof (levelSpeed_bounds L HL) as Hb.
  assert (Ev : Ball.speed (ball (createBricksForLevel L s)) = levelSpeed L)
    by now rewrite Eb.
  split; [| split; [now rewrite Ev |]].
  - rewrite Ev; unfold levelSpeed, Rgtb, Rltb, BALL_SPEED_MAX, Rmin.
    destruct (Rlt_dec _ _), (Rle_dec _ _); lra.
  - unfold startLevel.
    destruct (enter_level_fields (IZR now) (createBricksForLevel L s)) as (A & B & _).
    split; [exact A | split; [exact B |]].
    unfold startNewGame.
    match goal with |- context [resetPaddleAndBall ?g] =>
      destruct (enter_level_fields (IZR now) g) as (C & _)
    end.
    exact C.
Qed.

Lemma X12_level_speed_is_reset_witness :
  Ball.speed (ball (createBricksForLevel 5 servingWorld)) = Rmin 900 (380 + IZR (5 - 1) * 30)
  /\ Ball.speed (ball (startLevel 0 5 servingWorld)) = 380.
Proof.
  destruct (X12_level_speed_is_reset 0 5 servingWorld) as (H1 & _ & H2 & _);
    [lia | split; assumption].
Defined.

(** ** The clock *)

Lemma destroyBrick_clock (b : Brick.t) (s : World) :
  elapsedTime (snd (destroyBrick b s)) = elapsedTime s.
Proof. unfold destroyBrick; cbn [snd]; destruct (_ =? 1)%Z; reflexivity. Qed.

Lemma damageBrick_clock (b : Brick.t) (s : World) :
  elapsedTime (snd (damageBrick b s)) = elapsedTime s.
Proof.
  unfold damageBrick; destruct (_ <=? 0)%Z; [| reflexivity].
  now rewrite destroyBrick_clock.
Qed.

Lemma brickLoop_clock (bs : list Brick.t) (s : World) :
  elapsedTime (snd (brickLoop bs s)) = elapsedTime s.
Proof.
  revert s; induction bs as [| b bs IH]; intros s; cbn [brickLoop]; [reflexivity |].
  destruct (negb (Brick.alive b)).
  - specialize (IH s); destruct (brickLoop bs s); exact IH.
  - destruct (ballOverlaps (ball s) b).
    + destruct (Ball.isFireball (ball s)).
      * pose proof (destroyBrick_clock b s) as E.
        destruct (destroyBrick b s) as [b' s1]; cbn [snd] in E.
        specialize (IH s1); destruct (brickLoop bs s1) as [rest' s'].
        cbn [snd] in *; now rewrite IH.
      * unfold bounceOffBrick.
        match goal with |- context [damageBrick b ?t] =>
          pose proof (damageBrick_clock b t) as E; destruct (damageBrick b t)
        end.
        exact E.
    + specialize (IH s); destruct (brickLoop bs s); exact IH.
Qed.

Lemma projectileBrickLoop_clock (p : Projectile.t) (bs : list Brick.t) (s : World) :
  elapsedTime (snd (projectileBrickLoop p bs s)) = elapsedTime s.
Proof.
  induction bs as [| b bs IH]; cbn [projectileBrickLoop]; [reflexivity |].
  destruct (_ && _).
  - pose proof (damageBrick_clock b s) as E.
    destruct (damageBrick b s) as [b' s1]; exact E.
  - destruct (projectileBrickLoop p bs s) as [[p' rest'] s']; exact IH.
Qed.

Lemma projectileLoop_clock (dt : R) (ps : list Projectile.t) (s : World) :
  elapsedTime (snd (projectileLoop dt ps s)) = elapsedTime s.
Proof.
  revert s; induction ps as [| p ps IH]; intros s; cbn [projectileLoop]; [reflexivity |].
  destruct (negb (Projectile.alive p)).
  - specialize (IH s); destruct (projectileLoop dt ps s); exact IH.
  - match goal with |- context [projectileBrickLoop ?q ?l s] =>
      pose proof (projectileBrickLoop_clock q l s) as E;
      destruct (projectileBrickLoop q l s) as [[q' bs'] s1]
    end.
    cbn [snd] in E.
    specialize (IH (set_bricks bs' s1)).
    destruct (projectileLoop dt ps (set_bricks bs' s1)) as [rest' s'].
    cbn [snd] in *; now rewrite IH.
Qed.

Lemma saveScore_clock (sc : Z) (s : World) :
  elapsedTime (saveScore sc s) = elapsedTime s.
Proof. unfold saveScore; destruct (Disk.writable _); reflexivity. Qed.

Lemma saveHighScore_clock (v : Z) (s : World) :
  elapsedTime (saveHighScore v s) = elapsedTime s.
Proof.
  unfold saveHighScore; destruct (_ >? _)%Z; [| reflexivity].
  cbn [disk set_highScore]; destruct (Disk.writable _); reflexivity.
Qed.

Lemma loseLife_clock (s : World) : elapsedTime (loseLife s) = elapsedTime s.
Proof.
  unfold loseLife; cbn [lives set_lives].
  destruct (_ <=? 0)%Z; [| reflexivity].
  cbn [elapsedTime set_gameState].
  now rewrite saveHighScore_clock, saveScore_clock.
Qed.

Lemma applyPerk_clock (p : Perk.t) (s : World) :
  elapsedTime (snd (applyPerk p s)) = elapsedTime s.
Proof.
  unfold applyPerk; cbn [snd].
  repeat (destruct (Perk.type p =? _)%Z; [reflexivity |]).
  destruct (Perk.type p =? 5)%Z; [apply loseLife_clock | reflexivity].
Qed.

Lemma perkLoop_clock (dt : R) (ps : list Perk.t) (s : World) :
  elapsedTime (snd (perkLoop dt ps s)) = elapsedTime s.
Proof.
  revert s; induction ps as [| p ps IH]; intros s; cbn [perkLoop]; [reflexivity |].
  destruct (negb (Perk.alive p)).
  - specialize (IH s); destruct (perkLoop dt ps s); exact IH.
  - match goal with |- context [perkCaught ?q ?pd] => destruct (perkCaught q pd) end.
    + match goal with |- context [applyPerk ?q s] =>
        pose proof (applyPerk_clock q s) as E;
        destruct (applyPerk q s) as [q' s1]
      end.
      cbn [snd] in E; specialize (IH s1).
      destruct (perkLoop dt ps s1); cbn [snd] in *; now rewrite IH.
    + specialize (IH s); destruct (perkLoop dt ps s); exact IH.
Qed.

Lemma updateMotion_clock (dt : R) (now : Z) (s : World) :
  elapsedTime (updateMotion dt now s) = (IZR now - gameStartTime s) / 1000.
Proof.
  unfold updateMotion, handleWallCollisions, moveBall, movePaddle.
  cbn [elapsedTime set_ball set_paddle].
  unfold tickFireball; destruct (Ball.isFireball _); cbn [elapsedTime set_ball];
    unfold tickCooldown; destruct (Rgtb _ _); reflexivity.
Qed.

(** While playing, every tick sets the elapsed time from the clock and the
    start reference, and nothing later in the tick touches it. *)
Lemma updateGame_clock (dt : R) (now : Z) (s : World) :
  gameState s = GS_PLAYING ->
  elapsedTime (updateGame dt now s) = (IZR now - gameStartTime s) / 1000.
Proof.
  intros Hg; unfold updateGame; rewrite Hg; cbn [GameState_eqb negb].
  pose proof (updateMotion_clock dt now s) as E0.
  destruct (ballMissed _); [now rewrite loseLife_clock |].
  cbv zeta.
  set (s1 := handlePaddleCollision (updateMotion dt now s)).
  assert (E1 : elapsedTime s1 = elapsedTime (updateMotion dt now s)).
  { unfold s1; rewrite handlePaddleCollision_eq; destruct (paddleContact _); reflexivity. }
  set (s2 := handleBrickCollisions s1).
  assert (E2 : elapsedTime s2 = elapsedTime s1).
  { unfold s2; rewrite handleBrickCollisions_eq; cbn [elapsedTime set_bricks].
    apply brickLoop_clock. }
  set (s3 := handlePerks dt s2).
  assert (E3 : elapsedTime s3 = elapsedTime s2).
  { unfold s3, handlePerks.
    pose proof (perkLoop_clock dt (perks s2) s2) as E.
    destruct (perkLoop dt (perks s2) s2); exact E. }
  set (s4 := handleProjectiles dt s3).
  assert (E4 : elapsedTime s4 = elapsedTime s3).
  { unfold s4, handleProjectiles.
    pose proof (projectileLoop_clock dt (projectiles s3) s3) as E.
    destruct (projectileLoop dt (projectiles s3) s3); exact E. }
  set (s5 := increaseBallSpeedOverTime dt s4).
  assert (E5 : elapsedTime s5 = elapsedTime s4).
  { unfold s5, increaseBallSpeedOverTime, normalizeBallVelocity.
    destruct (negb _); [| reflexivity].
    cbn [ball set_ball]; destruct (Rgtb (sqrt _) _); reflexivity. }
  destruct (_ <=? 0)%Z; cbn [elapsedTime set_gameState];
    rewrite ?saveScore_clock; congruence.
Qed.

Lemma truncZ_bounds (d : R) : 0 <= d -> IZR (truncZ d) <= d < IZR (truncZ d) + 1.
Proof.
  intros Hd; unfold truncZ.
  destruct (Rle_dec 0 d); [| contradiction].
  destruct (base_Int_part d); lra.
Qed.

(** X13: pausing and resuming keeps the elapsed time.  A game paused at
    any moment and resumed at clock [t2] shows, at a tick at clock [t3],
    the elapsed time it had when it was paused plus the time played since
    the resume, short by less than a millisecond (the cast to [int]); while
    paused the elapsed time stands still. *)
Theorem X13_pause_resume_keeps_elapsed_time (t1 t2 t3 : Z) (dt : R) (s : World) :
  gameState s = GS_PLAYING ->
  0 <= elapsedTime s ->
  exists s1 s2,
    keyboardDown "p" t1 s = Some s1
    /\ gameState s1 = GS_PAUSED
    /\ snd (timerFunc t1 t2 s1) = s1
    /\ keyboardDown "p" t2 s1 = Some s2
    /\ gameState s2 = GS_PLAYING
    /\ elapsedTime s + IZR (t3 - t2) / 1000 - 0.001
       < elapsedTime (updateGame dt t3 s2)
       <= elapsedTime s + IZR (t3 - t2) / 1000.
Proof.
  intros Hg He.
  exists (set_gameState GS_PAUSED s).
  exists (set_gameStartTime (IZR (t2 - truncZ (elapsedTime s * 1000)))
            (set_gameState GS_PLAYING (set_gameState GS_PAUSED s))).
  split; [now apply keyboardDown_pause |].
  split; [reflexivity |].
  split; [apply timerFunc_idle; cbn; discriminate |].
  split; [reflexivity |].
  split; [reflexivity |].
  rewrite updateGame_clock by reflexivity.
  cbn [gameStartTime set_gameStartTime].
  destruct (truncZ_bounds (elapsedTime s * 1000)) as (B1 & B2); [lra |].
  rewrite !minus_IZR.
  split; lra.
Qed.

Lemma X13_pause_resume_keeps_elapsed_time_witness :
  exists s1 s2,
    keyboardDown "p" 13400 runningWorld = Some s1
    /\ gameState s1 = GS_PAUSED
    /\ snd (timerFunc 13400 60000 s1) = s1
    /\ keyboardDown "p" 60000 s1 = Some s2
    /\ gameState s2 = GS_PLAYING
    /\ elapsedTime runningWorld + IZR (60016 - 60000) / 1000 - 0.001
       < elapsedTime (updateGame 0.016 60016 s2)
       <= elapsedTime runningWorld + IZR (60016 - 60000) / 1000.
Proof.
  apply (X13_pause_resume_keeps_elapsed_time 13400 60000 60016 0.016 runningWorld);
    [reflexivity | cbn; lra].
Defined.

(** ** Firing and perks *)

(** X14: a click fires one pair of projectiles and starts the cooldown.
    While playing with the cooldown run out, a left-button press adds two
    projectiles, 10 inside each end of the paddle at its top, rising at
    500, and sets the cooldown to 0.3; a second press before any tick adds
    nothing; other buttons and releases do nothing. *)
Theorem X14_click_fires_one_pair (x y x' y' : Z) (s : World) :
  gameState s = GS_PLAYING ->
  fireCooldown s <= 0 ->
  let p := paddle s in
  let s1 := mouseClick GLUT_LEFT_BUTTON GLUT_DOWN x y s in
  projectiles s1
  = projectiles s
    ++ [Projectile.mk (Paddle.x p + 10) (Paddle.y p + Paddle.h p) 500 true;
        Projectile.mk (Paddle.x p + Paddle.w p - 10) (Paddle.y p + Paddle.h p) 500 true]
  /\ fireCooldown s1 = 0.3
  /\ mouseClick GLUT_LEFT_BUTTON GLUT_DOWN x' y' s1 = s1
  /\ (forall button state,
        (button <> GLUT_LEFT_BUTTON \/ state <> GLUT_DOWN) ->
        mouseClick button state x y s = s).
Proof.
  intros Hg Hc p s1.
  assert (E : s1 = set_fireCooldown FIRE_RATE
                     (set_projectiles
                        ((projectiles s
                          ++ [Projectile.mk (Paddle.x p + 10) (Paddle.y p + Paddle.h p) 500 true])
                         ++ [Projectile.mk (Paddle.x p + Paddle.w p - 10)
                               (Paddle.y p + Paddle.h p) 500 true]) s)).
  { unfold s1, mouseClick; cbn [Z.eqb GLUT_LEFT_BUTTON GLUT_DOWN negb orb].
    rewrite Hg, (Rleb_true _ _ Hc); reflexivity. }
  split; [rewrite E; cbn [projectiles set_fireCooldown set_projectiles];
          now rewrite <- app_assoc |].
  split; [rewrite E; reflexivity |].
  split.
  - rewrite E; unfold mouseClick; cbn [Z.eqb GLUT_LEFT_BUTTON GLUT_DOWN negb orb].
    cbn [gameState fireCooldown set_fireCooldown set_projectiles]; rewrite Hg.
    cbn [GameState_eqb]; unfold FIRE_RATE; rewrite Rleb_false by lra; reflexivity.
  - intros button state H; unfold mouseClick.
    destruct (Z.eqb_spec button GLUT_LEFT_BUTTON), (Z.eqb_spec state GLUT_DOWN);
      cbn [negb orb]; try reflexivity.
    destruct H; contradiction.
Qed.

Lemma X14_click_fires_one_pair_witness :
  let s1 := mouseClick GLUT_LEFT_BUTTON GLUT_DOWN 400 300 servingWorld in
  projectiles s1
  = [Projectile.mk (340 + 10) (50 + 16) 500 true;
     Projectile.mk (340 + 120 - 10) (50 + 16) 500 true]
  /\ mouseClick GLUT_LEFT_BUTTON GLUT_DOWN 400 300 s1 = s1.
Proof.
  destruct (X14_click_fires_one_pair 400 300 400 300 servingWorld eq_refl)
    as (H1 & _ & H3 & _); [cbn; lra |].
  split; [exact H1 | exact H3].
Defined.

Lemma perkTypeOfDraw_range (t : Z) : (0 <= perkTypeOfDraw t <= 5)%Z.
Proof.
  unfold perkTypeOfDraw.
  repeat (match goal with |- context [(?a <? ?b)%Z] => destruct (a <? b)%Z end; try lia).
Qed.

(** X15: what [spawnPerk] spawns.  For a draw of [rand()] it appends to
    the perks one alive perk at the given point, falling at 150, of a type
    between 0 and 5 chosen by the residue of the draw: below 35 an extra
    life, then wide paddle up to 65, speed ball up to 80, fireball up to 90,
    shrink paddle up to 97, death above; that is 35, 30, 15, 10, 7 and 3 of
    the hundred residues.  Nothing else changes but the count of draws. *)
Theorem X15_spawnPerk_draws_by_weight (x y : R) (s : World) :
  (0 <= rand_src s (rand_pos s))%Z ->
  let t := (rand_src s (rand_pos s) mod 100)%Z in
  let s' := spawnPerk x y s in
  perks s' = perks s ++ [Perk.mk x y (-150) (perkTypeOfDraw t) true]
  /\ (0 <= perkTypeOfDraw t <= 5)%Z
  /\ (perkTypeOfDraw t = 0%Z <-> (t < 35)%Z)
  /\ (perkTypeOfDraw t = 5%Z <-> (97 <= t)%Z)
  /\ map perkResidues [0; 1; 2; 3; 4; 5]%Z = [35; 30; 15; 10; 7; 3]%Z
  /\ rand_pos s' = S (rand_pos s)
  /\ bricks s' = bricks s /\ score s' = score s /\ lives s' = lives s.
Proof.
  intros Hd t s'.
  assert (Et : Z.rem (rand_src s (rand_pos s)) 100 = t)
    by (apply Z.rem_mod_nonneg; lia).
  split; [unfold s', spawnPerk; cbn; now rewrite Et |].
  split; [apply perkTypeOfDraw_range |].
  split; [| split].
  - unfold perkTypeOfDraw.
    repeat (match goal with |- context [(?a <? ?b)%Z] => destruct (Z.ltb_spec a b) end;
            try (split; intros; lia)).
  - unfold perkTypeOfDraw.
    repeat (match goal with |- context [(?a <? ?b)%Z] => destruct (Z.ltb_spec a b) end;
            try (split; intros; lia)).
  - split; [vm_compute; reflexivity |].
    unfold s', spawnPerk; cbn; repeat split.
Qed.

Lemma X15_spawnPerk_draws_by_weight_witness :
  perks (spawnPerk 91.3 511 servingWorld) = [Perk.mk 91.3 511 (-150) 0 true]
  /\ rand_pos (spawnPerk 91.3 511 servingWorld) = 1%nat.
Proof.
  destruct (X15_spawnPerk_draws_by_weight 91.3 511 servingWorld) as (H1 & _ & _ & _ & _ & H2 & _);
    [cbn; lia |].
  split; [exact H1 | exact H2].
Defined.

Lemma perkLoop_falls (dt : R) (ps : list Perk.t) (s : World) :
  Forall2 (perkFalls dt) ps (fst (perkLoop dt ps s)).
Proof.
  revert s; induction ps as [| p ps IH]; intros s; cbn [perkLoop]; [constructor |].
  destruct (Perk.alive p) eqn:Ha; cbn [negb].
  - set (p1 := Perk.set_y (Perk.y p + Perk.vy p * dt) p).
    set (p2 := if Rltb (Perk.y p1) (-40) then Perk.set_alive false p1 else p1).
    assert (F2 : perkFalls dt p p2).
    { unfold perkFalls, p2, p1, Rltb.
      destruct (Rlt_dec _ _); cbn in *; rewrite Ha;
        (split; [reflexivity |]); (split; [reflexivity |]); (split; [reflexivity |]);
        (split; [discriminate |]); intros Hal; try discriminate Hal;
        (split; [reflexivity |]); (split; [reflexivity |]); lra. }
    assert (F3 : forall t, perkFalls dt p
                   (fst (if perkCaught p2 (paddle s) then applyPerk p2 t else (p2, t)))).
    { intros t; destruct (perkCaught _ _); [| exact F2].
      unfold applyPerk; cbn [fst].
      destruct F2 as (A & B & C & D & E).
      unfold perkFalls; cbn; rewrite Ha.
      (split; [assumption |]); (split; [assumption |]); (split; [assumption |]);
      split; discriminate. }
    specialize (F3 s).
    destruct (if perkCaught p2 (paddle s) then applyPerk p2 s else (p2, s)) as [q s1].
    specialize (IH s1); destruct (perkLoop dt ps s1); cbn [fst] in *.
    constructor; assumption.
  - specialize (IH s); destruct (perkLoop dt ps s); cbn [fst] in *.
    constructor; [| exact IH].
    unfold perkFalls; rewrite Ha.
    do 3 (split; [reflexivity |]); split; [reflexivity | discriminate].
Qed.

Lemma perkLoop_dead (dt : R) (ps : list Perk.t) (s : World) :
  Forall (fun p => Perk.alive p = false) ps -> perkLoop dt ps s = (ps, s).
Proof.
  induction 1 as [| p ps Hp _ IH]; cbn [perkLoop]; [reflexivity |].
  now rewrite Hp, IH.
Qed.

Lemma set_perks_same (s : World) : set_perks (perks s) s = s.
Proof. destruct s; reflexivity. Qed.

(** X16: perks fall, and a spent perk is spent for good.  In a tick
    [handlePerks] keeps every perk in its place in the vector, with its
    column, type and fall speed; a perk that is not alive is not moved, not
    tested and not applied again; a perk still alive after the tick has
    fallen by [vy * dt] and is not below -40.  With no perk alive the
    function changes nothing. *)
Theorem X16_perks_fall_and_are_spent_once (dt : R) (s : World) :
  Forall2 (perkFalls dt) (perks s) (perks (handlePerks dt s))
  /\ (Forall (fun p => Perk.alive p = false) (perks s) -> handlePerks dt s = s).
Proof.
  unfold handlePerks; split.
  - pose proof (perkLoop_falls dt (perks s) s) as H.
    destruct (perkLoop dt (perks s) s); exact H.
  - intros H; rewrite (perkLoop_dead dt _ s H); apply set_perks_same.
Qed.

Lemma X16_perks_fall_and_are_spent_once_witness :
  Forall2 (perkFalls 0.016) (perks perkWorld) (perks (handlePerks 0.016 perkWorld))
  /\ handlePerks 0.016 (set_perks [Perk.mk 500 20 (-150) 5 false] perkWorld)
     = set_perks [Perk.mk 500 20 (-150) 5 false] perkWorld.
Proof.
  split.
  - apply (X16_perks_fall_and_are_spent_once 0.016 perkWorld).
  - apply (X16_perks_fall_and_are_spent_once 0.016).
    repeat constructor.
Defined.

Lemma projectileBrickLoop_first_hit (p : Projectile.t) (pre post : list Brick.t)
    (b : Brick.t) (s : World) :
  Forall (fun c => projectileHit p c = false) pre ->
  projectileHit p b = true ->
  projectileBrickLoop p (pre ++ b :: post) s
  = (Projectile.set_alive false p, pre ++ fst (damageBrick b s) :: post,
     snd (damageBrick b s)).
Proof.
  intros Hpre Hb; induction Hpre as [| c pre Hc _ IH]; cbn [projectileBrickLoop app].
  - unfold projectileHit in Hb; rewrite Hb.
    destruct (damageBrick b s); reflexivity.
  - unfold projectileHit in Hc; rewrite Hc, IH; reflexivity.
Qed.

Lemma projectileBrickLoop_no_hit (p : Projectile.t) (bs : list Brick.t) (s : World) :
  Forall (fun c => projectileHit p c = false) bs ->
  projectileBrickLoop p bs s = (p, bs, s).
Proof.
  induction 1 as [| c bs Hc _ IH]; cbn [projectileBrickLoop]; [reflexivity |].
  unfold projectileHit in Hc; now rewrite Hc, IH.
Qed.

(** X19: a projectile damages one brick at most, the first it is inside.
    For a single projectile in flight that is still below the top after its
    move, [handleProjectiles] damages the first alive brick of the vector
    that contains it (by the rules of a ball hit: one hit taken, 5 or 10
    points), leaves all other bricks alone and marks the projectile dead;
    if no alive brick contains it, it only moves. *)
Theorem X19_projectile_damages_first_brick (dt : R) (s : World) (p : Projectile.t)
    (pre post : list Brick.t) (b : Brick.t) :
  projectiles s = [p] ->
  Projectile.alive p = true ->
  bricks s = pre ++ b :: post ->
  let p1 := Projectile.set_y (Projectile.y p + Projectile.vy p * dt) p in
  Projectile.y p1 <= 600 ->
  Forall (fun c => projectileHit p1 c = false) pre ->
  (projectileHit p1 b = true ->
     handleProjectiles dt s
     = set_projectiles [Projectile.set_alive false p1]
         (set_bricks (pre ++ fst (damageBrick b s) :: post) (snd (damageBrick b s)))
     /\ (score s < score (handleProjectiles dt s))%Z)
  /\ (Forall (fun c => projectileHit p1 c = false) (b :: post) ->
      handleProjectiles dt s = set_projectiles [p1] s).
Proof.
  intros Hp Ha Hb p1 Hy Hpre.
  assert (E : handleProjectiles dt s
              = let '(q, bs, s1) := projectileBrickLoop p1 (bricks s) s in
                set_projectiles [q] (set_bricks bs s1)).
  { unfold handleProjectiles; rewrite Hp; cbn [projectileLoop].
    rewrite Ha; cbn [negb]; fold p1.
    unfold WIN_H, Rgtb; rewrite (Rltb_false _ _ Hy).
    destruct (projectileBrickLoop p1 (bricks s) s) as [[q bs] s1]; reflexivity. }
  split.
  - intros Hhit.
    rewrite E, Hb, (projectileBrickLoop_first_hit p1 pre post b s Hpre Hhit).
    split; [reflexivity |].
    cbn [score set_projectiles set_bricks].
    apply andb_true_iff in Hhit as [Hal _].
    now destruct (damageBrick_step b s Hal) as (H & _).
  - intros Hno.
    rewrite E, Hb, projectileBrickLoop_no_hit.
    + rewrite <- Hb; now rewrite set_bricks_same.
    + apply Forall_app; split; assumption.
Qed.

Lemma shotWorld_moved :
  Projectile.set_y (495 + 500 * 0.016) (Projectile.mk 150 495 500 true)
  = Projectile.mk 150 (495 + 500 * 0.016) 500 true.
Proof. reflexivity. Qed.

Lemma X19_projectile_damages_first_brick_witness :
  let s' := handleProjectiles 0.016 shotWorld in
  bricks s' = [brickA; Brick.set_alive false (Brick.set_hits 0 brickB)]
  /\ score s' = 10%Z
  /\ projectiles s' = [Projectile.mk 150 (495 + 500 * 0.016) 500 false].
Proof.
  destruct (X19_projectile_damages_first_brick 0.016 shotWorld
              (Projectile.mk 150 495 500 true) [brickA] [] brickB
              eq_refl eq_refl eq_refl) as (H & _).
  - cbn; lra.
  - constructor; [| constructor].
    unfold projectileHit, projectileInside; cbn; rcmp; reflexivity.
  - destruct H as (E & _).
    + unfold projectileHit, projectileInside; cbn; rcmp; reflexivity.
    + cbv zeta; rewrite E.
      rewrite damageBrick_last by (cbn; lia).
      rewrite destroyBrick_brick.
      match goal with |- context [destroyBrick ?c ?t] =>
        destruct (destroyBrick_frame c t) as (_ & Es & _)
      end.
      cbn [bricks score projectiles set_projectiles set_bricks app].
      rewrite Es; repeat split.
Defined.

(** ** Transitions and levels *)

(** X17: every transition of the specification's table goes where the
    table says.  For a key that the table lists in the current mode,
    [keyboardDown] ends in the listed mode: cancel leads to the menu (from
    the menu, out of the process), the menu digits to play, scoreboard,
    music menu and help, the pause key toggles between playing and paused,
    space leaves the level-clear and game-over screens for play, the
    restart key returns to play. *)
Theorem X17_listed_transitions_reach_their_target (now : Z) (key : ascii) (s : World) :
  specTransition (gameState s) (KeyDown key) = true ->
  modeAfter now (KeyDown key) s = specTarget (gameState s) key.
Proof.
  unfold modeAfter; cbn [handleEvent specTransition].
  unfold keyboardDown, specTarget.
  destruct (gameState s) eqn:G; cbn [GameState_eqb orb andb];
    repeat (match goal with
            | |- context [Ascii.eqb key ?c] =>
                destruct (Ascii.eqb_spec key c) as [-> |]
            end; cbn [orb andb negb Ascii.eqb Bool.eqb ESC]);
    intros Hspec; try discriminate Hspec; reflexivity.
Qed.

Lemma X17_listed_transitions_reach_their_target_witness :
  modeAfter 0 (KeyDown " ") clearedWorld = Some GS_PLAYING
  /\ modeAfter 0 (KeyDown ESC) (set_gameState GS_MENU clearedWorld) = None.
Proof.
  split.
  - apply (X17_listed_transitions_reach_their_target 0 " " clearedWorld); reflexivity.
  - apply (X17_listed_transitions_reach_their_target 0 ESC
             (set_gameState GS_MENU clearedWorld)); reflexivity.
Defined.

Lemma createBrick_vectors (level r c : Z) (s : World) :
  perks (createBrick level r c s) = perks s
  /\ projectiles (createBrick level r c s) = projectiles s
  /\ highScore (createBrick level r c s) = highScore s.
Proof. unfold createBrick; cbn; repeat split. Qed.

(** Level generation empties the perks and the projectiles. *)
Lemma createBricksForLevel_clears (L : Z) (s : World) :
  perks (createBricksForLevel L s) = []
  /\ projectiles (createBricksForLevel L s) = []
  /\ highScore (createBricksForLevel L s) = highScore s.
Proof.
  set (K := fun (_ : nat) (t : World) =>
              perks t = [] /\ projectiles t = [] /\ highScore t = highScore s).
  set (s0 := set_bricksRemaining 0%Z
               (set_projectiles [] (set_perks [] (set_bricks [] s)))).
  assert (K0 : K 0%nat s0) by (unfold K; repeat split).
  assert (Kc : forall r i k t, K k t -> K (k + 0)%nat (createBrick L r i t)).
  { intros r i k t (A & B & C).
    destruct (createBrick_vectors L r i t) as (A' & B' & C').
    unfold K; rewrite A', B', C'; repeat split; assumption. }
  assert (Kl : K (0 + Z.to_nat (levelRows L) * 0)%nat
                 (for_loop (levelRows L)
                    (fun r => for_loop levelCols (fun c => createBrick L r c)) s0)).
  { apply (for_loop_steps K 0); [| exact K0].
    intros i k t Hk.
    replace (k + 0)%nat with (k + Z.to_nat levelCols * 0)%nat by lia.
    exact (for_loop_steps K 0 (fun c => createBrick L i c) (Kc i) levelCols k t Hk). }
  destruct Kl as (A & B & C).
  unfold createBricksForLevel; cbv zeta.
  fold s0; cbn [perks projectiles highScore set_ball].
  rewrite A, B, C; repeat split.
Qed.

(** What a state at the start of level [L] looks like, from the state [s]
    the level was entered from. *)
Lemma enter_level_spec (t : R) (L : Z) (s : World) :
  (0 <= L)%Z ->
  let s' := set_gameState GS_PLAYING
              (set_elapsedTime 0
                 (set_gameStartTime t (resetPaddleAndBall (createBricksForLevel L s)))) in
  gameState s' = GS_PLAYING
  /\ currentLevel s' = currentLevel s /\ score s' = score s /\ lives s' = lives s
  /\ Z.of_nat (length (bricks s')) = (Z.min (3 + L) 8 * 10)%Z
  /\ Forall (fun b => Brick.alive b = true) (bricks s')
  /\ bricksRemaining s' = Z.of_nat (length (bricks s'))
  /\ perks s' = [] /\ projectiles s' = []
  /\ ball s' = Ball.mk 400 75 0 0 8 380 true false 0
  /\ paddle s' = Paddle.mk 340 50 120 16 600
  /\ elapsedTime s' = 0.
Proof.
  intros HL; cbv zeta.
  set (g := createBricksForLevel L s).
  destruct (createBricksForLevel_grid L s) as (Glen & Grem & Gall); fold g in Glen, Grem, Gall.
  destruct (createBricksForLevel_keeps L s) as (_ & _ & Klev & Ksc & Kl);
    cbv zeta in *; fold g in Klev, Ksc, Kl.
  destruct (createBricksForLevel_clears L s) as (Cp & Cj & _); fold g in Cp, Cj.
  destruct (resetPaddleAndBall_spec g)
    as (Rp & Rb & _ & Rbr & Rpk & Rpj & Rsc & Rl & _ & Rrem & _ & _); cbv zeta in *.
  cbn [gameState currentLevel score lives bricks bricksRemaining perks projectiles ball
       paddle elapsedTime set_gameState set_elapsedTime set_gameStartTime].
  rewrite Rp, Rb, Rbr, Rpk, Rpj, Rsc, Rl, Rrem, Ksc, Kl, Cp, Cj, Grem, Glen.
  assert (Elev : currentLevel (resetPaddleAndBall g) = currentLevel s)
    by (rewrite <- Klev; reflexivity).
  rewrite Elev.
  repeat (split; [reflexivity |]).
  split; [unfold levelRows; lia |].
  split; [exact Gall |].
  repeat (split; [reflexivity |]); reflexivity.
Qed.

(** X18: space on the level-clear screen starts the next level and keeps
    the game; space on the game-over screen starts a new game.  From level
    clear (level [L >= 0]): level [L+1], same score and lives, a fresh grid
    of [min(4+L, 8) * 10] alive bricks with the counter to match, no perks
    and no projectiles, paddle and ball as [resetPaddleAndBall] leaves them,
    elapsed time 0.  From game over: level 1, score 0, three lives, 40
    bricks. *)
Theorem X18_space_starts_next_level_or_new_game (now : Z) (s t : World) :
  gameState s = GS_LEVEL_CLEAR ->
  (0 <= currentLevel s)%Z ->
  gameState t = GS_GAMEOVER ->
  exists s' t',
    keyboardDown " " now s = Some s' /\ keyboardDown " " now t = Some t'
    /\ (gameState s' = GS_PLAYING
        /\ currentLevel s' = (currentLevel s + 1)%Z
        /\ score s' = score s /\ lives s' = lives s
        /\ Z.of_nat (length (bricks s')) = (Z.min (4 + currentLevel s) 8 * 10)%Z
        /\ bricksRemaining s' = Z.of_nat (length (bricks s'))
        /\ perks s' = [] /\ projectiles s' = []
        /\ Ball.stuck (ball s') = true /\ Ball.speed (ball s') = 380
        /\ Paddle.w (paddle s') = 120 /\ elapsedTime s' = 0)
    /\ (gameState t' = GS_PLAYING
        /\ currentLevel t' = 1%Z /\ score t' = 0%Z /\ lives t' = 3%Z
        /\ length (bricks t') = 40%nat /\ bricksRemaining t' = 40%Z
        /\ Ball.stuck (ball t') = true).
Proof.
  intros Hs HL Ht.
  exists (startLevel now (currentLevel s + 1)
            (set_currentLevel (currentLevel s + 1) s)).
  exists (startNewGame now t).
  split; [unfold keyboardDown; rewrite Hs; reflexivity |].
  split; [unfold keyboardDown; rewrite Ht; reflexivity |].
  split.
  - unfold startLevel.
    destruct (enter_level_spec (IZR now) (currentLevel s + 1)
                (set_currentLevel (currentLevel s + 1) s) ltac:(lia))
      as (A1 & A2 & A3 & A4 & A5 & A6 & A7 & A8 & A9 & A10 & A11 & A12).
    cbv zeta in *.
    rewrite A1, A2, A3, A4, A7, A8, A9, A10, A11, A12.
    cbn [currentLevel score lives set_currentLevel Ball.stuck Ball.speed Paddle.w].
    repeat (split; [first [reflexivity | lia] |]); reflexivity.
  - unfold startNewGame; cbv zeta.
    cbn [currentLevel set_lives set_score set_currentLevel].
    destruct (enter_level_spec (IZR now) 1
                (set_lives 3 (set_score 0 (set_currentLevel 1 t))) ltac:(lia))
      as (A1 & A2 & A3 & A4 & A5 & A6 & A7 & A8 & A9 & A10 & A11 & A12).
    cbv zeta in *.
    rewrite A1, A2, A3, A4, A7, A10.
    assert (E : length (bricks
                  (set_gameState GS_PLAYING
                     (set_elapsedTime 0
                        (set_gameStartTime (IZR now)
                           (resetPaddleAndBall
                              (createBricksForLevel 1
                                 (set_lives 3 (set_score 0 (set_currentLevel 1 t))))))))) = 40%nat)
      by lia.
    rewrite E.
    repeat (split; [reflexivity |]); reflexivity.
Qed.

Lemma X18_space_starts_next_level_or_new_game_witness :
  exists s' t',
    keyboardDown " " 0 clearedWorld = Some s'
    /\ keyboardDown " " 0 (set_gameState GS_GAMEOVER clearedWorld) = Some t'
    /\ (currentLevel s' = 4%Z /\ score s' = 250%Z /\ lives s' = 2%Z
        /\ Z.of_nat (length (bricks s')) = 70%Z)
    /\ (currentLevel t' = 1%Z /\ score t' = 0%Z /\ lives t' = 3%Z
        /\ length (bricks t') = 40%nat).
Proof.
  destruct (X18_space_starts_next_level_or_new_game 0 clearedWorld
              (set_gameState GS_GAMEOVER clearedWorld) eq_refl ltac:(cbn; lia) eq_refl)
    as (s' & t' & E1 & E2 & (_ & A2 & A3 & A4 & A5 & _) & (_ & B2 & B3 & B4 & B5 & _)).
  exists s', t'.
  split; [exact E1 |]. split; [exact E2 |].
  split.
  - split; [exact A2 |]. split; [exact A3 |]. split; [exact A4 | exact A5].
  - split; [exact B2 |]. split; [exact B3 |]. split; [exact B4 | exact B5].
Defined.

(** ** Fireball and wide paddle *)

Lemma hitCount_cons (bl : Ball.t) (b : Brick.t) (bs : list Brick.t) :
  hitCount bl (b :: bs)
  = ((if brickHit bl b then 1 else 0) + hitCount bl bs)%Z.
Proof.
  unfold hitCount; cbn [filter]; destruct (brickHit bl b); cbn [length]; lia.
Qed.

Lemma brickLoop_fireball_score (bs : list Brick.t) (s : World) :
  Ball.isFireball (ball s) = true ->
  let s' := snd (brickLoop bs s) in
  score s' = (score s + 10 * hitCount (ball s) bs)%Z
  /\ bricksRemaining s' = (bricksRemaining s - hitCount (ball s) bs)%Z
  /\ ball s' = ball s.
Proof.
  revert s; induction bs as [| b bs IH]; intros s Hf; cbv zeta; cbn [brickLoop].
  - unfold hitCount; cbn; repeat split; lia.
  - rewrite hitCount_cons; unfold brickHit.
    destruct (Brick.alive b); cbn [negb andb].
    + destruct (ballOverlaps (ball s) b).
      * rewrite Hf.
        destruct (destroyBrick_frame b s) as (Eb & Es & Er & _); cbv zeta in *.
        destruct (destroyBrick b s) as [b' s1]; cbn [snd] in *.
        assert (Hf1 : Ball.isFireball (ball s1) = true) by now rewrite Eb.
        destruct (IH s1 Hf1) as (I1 & I2 & I3); cbv zeta in *.
        destruct (brickLoop bs s1) as [rest' s']; cbn [snd] in *.
        rewrite I1, I2, I3, Es, Er, Eb; repeat split; lia.
      * destruct (IH s Hf) as (I1 & I2 & I3); cbv zeta in *.
        destruct (brickLoop bs s) as [rest' s']; cbn [snd] in *.
        rewrite I1, I2, I3; repeat split; lia.
    + destruct (IH s Hf) as (I1 & I2 & I3); cbv zeta in *.
      destruct (brickLoop bs s) as [rest' s']; cbn [snd] in *.
      rewrite I1, I2, I3; repeat split; lia.
Qed.

Lemma Forall2_map_fun {A : Type} (f : A -> A) (l : list A) :
  Forall2 (fun a a' => a' = f a) l (map f l).
Proof. induction l; cbn [map]; constructor; [reflexivity | assumption]. Qed.

(** X20: a fireball does not bounce and is paid for every brick.  In
    fireball mode [handleBrickCollisions] leaves the ball exactly as it
    was, and with [n] alive bricks under the ball it adds [10 * n] to the
    score and takes [n] off [bricksRemaining]; hit counts play no role, a
    two-hit brick goes at once. *)
Theorem X20_fireball_pass_accounting (s : World) :
  Ball.isFireball (ball s) = true ->
  let n := hitCount (ball s) (bricks s) in
  let s' := handleBrickCollisions s in
  ball s' = ball s
  /\ score s' = (score s + 10 * n)%Z
  /\ bricksRemaining s' = (bricksRemaining s - n)%Z
  /\ Forall2 (fun b b' =>
                b' = if brickHit (ball s) b then Brick.set_alive false b else b)
       (bricks s) (bricks s').
Proof.
  intros Hf n s'; unfold s'; rewrite handleBrickCollisions_eq.
  destruct (brickLoop_fireball_score (bricks s) s Hf) as (E1 & E2 & E3); cbv zeta in *.
  destruct (brickLoop_fireball (bricks s) s Hf) as (E4 & _).
  cbn [ball score bricksRemaining bricks set_bricks].
  rewrite E1, E2, E3, E4.
  repeat (split; [reflexivity |]).
  apply (Forall2_map_fun
           (fun b => if brickHit (ball s) b then Brick.set_alive false b else b)).
Qed.

Lemma X20_fireball_pass_accounting_witness :
  let s' := handleBrickCollisions (betweenBricks true) in
  ball s' = ball (betweenBricks true)
  /\ score s' = 20%Z
  /\ bricksRemaining s' = 0%Z.
Proof.
  destruct (X20_fireball_pass_accounting (betweenBricks true) eq_refl)
    as (H1 & H2 & H3 & _).
  cbv zeta in *.
  assert (En : hitCount (ball (betweenBricks true)) (bricks (betweenBricks true)) = 2%Z).
  { change (bricks (betweenBricks true)) with [brickA; brickB].
    rewrite !hitCount_cons.
    assert (HA : brickHit (ball (betweenBricks true)) brickA = true)
      by (unfold brickHit, ballOverlaps; cbn; rcmp; reflexivity).
    assert (HB : brickHit (ball (betweenBricks true)) brickB = true)
      by (unfold brickHit, ballOverlaps; cbn; rcmp; reflexivity).
    rewrite HA, HB; reflexivity. }
  rewrite En in H2, H3.
  split; [exact H1 | split; [exact H2 | exact H3]].
Defined.

(** X21: a fireball perk lasts ten seconds of play.  Catching a perk of
    type 3 makes the ball a fireball with ten seconds on the timer
    (restarting a running one); the tick takes [dt] off the timer, and the
    ball is still a fireball after it exactly when the timer stays above 0,
    so after the perk exactly when [dt < 10]; a ball that is no fireball is
    never made one by the tick. *)
Theorem X21_fireball_duration (p : Perk.t) (dt : R) (s : World) :
  Perk.type p = 3%Z ->
  let s1 := snd (applyPerk p s) in
  Ball.isFireball (ball s1) = true
  /\ Ball.fireballTimer (ball s1) = 10
  /\ (Ball.isFireball (ball (tickFireball dt s1)) = true <-> dt < 10)
  /\ (dt < 10 -> Ball.fireballTimer (ball (tickFireball dt s1)) = 10 - dt)
  /\ (Ball.isFireball (ball s) = false ->
      Ball.isFireball (ball (tickFireball dt s)) = false).
Proof.
  intros Hp s1.
  assert (E : s1 = set_ball (Ball.set_fireballTimer 10 (Ball.set_isFireball true (ball s))) s).
  { unfold s1, applyPerk; rewrite Hp; reflexivity. }
  rewrite E; cbn [ball set_ball Ball.isFireball Ball.fireballTimer
                  Ball.set_fireballTimer Ball.set_isFireball].
  split; [reflexivity |]. split; [reflexivity |].
  unfold tickFireball.
  cbn [ball set_ball Ball.isFireball Ball.fireballTimer
       Ball.set_fireballTimer Ball.set_isFireball].
  unfold Rleb; destruct (Rle_dec (10 - dt) 0);
    cbn [ball set_ball Ball.isFireball Ball.fireballTimer
         Ball.set_fireballTimer Ball.set_isFireball].
  - split; [split; [discriminate | lra] |].
    split; [lra |].
    intros Hn; now rewrite Hn.
  - split; [split; [lra | reflexivity] |].
    split; [reflexivity |].
    intros Hn; now rewrite Hn.
Qed.

Lemma X21_fireball_duration_witness :
  let s1 := snd (applyPerk (Perk.mk 400 60 (-150) 3 true) servingWorld) in
  Ball.isFireball (ball s1) = true
  /\ Ball.fireballTimer (ball (tickFireball 0.016 s1)) = 10 - 0.016.
Proof.
  destruct (X21_fireball_duration (Perk.mk 400 60 (-150) 3 true) 0.016 servingWorld eq_refl)
    as (H1 & _ & _ & H4 & _).
  split; [exact H1 | apply H4; lra].
Defined.

(** X22: a wide-paddle perk can push the paddle out of the window.  The
    perk widens the paddle by 40 (up to 280) to the right, after the tick
    has clamped it; caught with the paddle against the right wall it leaves
    the paddle's right end beyond 800 at the end of [applyPerk], and the
    clamp of the next tick moves the paddle back inside. *)
Theorem X22_wide_perk_overhangs_right_wall (p : Perk.t) (dt : R) (s : World) :
  Perk.type p = 1%Z ->
  Paddle.x (paddle s) + Paddle.w (paddle s) = 800 ->
  40 <= Paddle.w (paddle s) < 280 ->
  let s' := snd (applyPerk p s) in
  Paddle.x (paddle s') = Paddle.x (paddle s)
  /\ Paddle.w (paddle s') = Rmin 280 (Paddle.w (paddle s) + 40)
  /\ Paddle.x (paddle s') + Paddle.w (paddle s') > 800
  /\ Paddle.x (paddle (movePaddle dt s')) + Paddle.w (paddle (movePaddle dt s')) <= 800.
Proof.
  intros Hp Hx Hw s'.
  assert (E : paddle s'
              = Paddle.set_w (if Rgtb (Paddle.w (paddle s) + 40) 280 then 280
                              else Paddle.w (paddle s) + 40) (paddle s)).
  { unfold s', applyPerk; cbn [snd].
    destruct (Z.eqb_spec (Perk.type p) 0) as [H0 | _]; [rewrite Hp in H0; discriminate |].
    rewrite Hp; reflexivity. }
  assert (Ew : Paddle.w (paddle s') = Rmin 280 (Paddle.w (paddle s) + 40)).
  { rewrite E; cbn; unfold Rgtb, Rltb, Rmin.
    destruct (Rlt_dec _ _), (Rle_dec _ _); lra. }
  assert (Ex : Paddle.x (paddle s') = Paddle.x (paddle s)) by (rewrite E; reflexivity).
  split; [exact Ex |]. split; [exact Ew |].
  assert (Hmin : Paddle.w (paddle s) < Rmin 280 (Paddle.w (paddle s) + 40) <= 280).
  { unfold Rmin; destruct (Rle_dec _ _); lra. }
  split; [rewrite Ex, Ew; lra |].
  destruct (movePaddle_clamped dt s') as (H1 & _); [rewrite Ew; lra |].
  cbv zeta in H1; lra.
Qed.

Lemma X22_wide_perk_overhangs_right_wall_witness :
  let s := set_paddle (Paddle.mk 680 50 120 16 600) servingWorld in
  let s' := snd (applyPerk (Perk.mk 700 60 (-150) 1 true) s) in
  Paddle.w (paddle s') = Rmin 280 (120 + 40)
  /\ Paddle.x (paddle s') + Paddle.w (paddle s') > 800.
Proof.
  destruct (X22_wide_perk_overhangs_right_wall (Perk.mk 700 60 (-150) 1 true) 0.016
              (set_paddle (Paddle.mk 680 50 120 16 600) servingWorld) eq_refl)
    as (_ & H2 & H3 & _); [cbn; lra | cbn; lra |].
  split; [exact H2 | exact H3].
Defined.

(** ** The mode after a tick *)

Lemma damageBrick_mode (b : Brick.t) (s : World) :
  gameState (snd (damageBrick b s)) = gameState s.
Proof.
  unfold damageBrick; destruct (_ <=? 0)%Z; [| reflexivity].
  match goal with |- context [destroyBrick ?c s] =>
    now destruct (destroyBrick_frame c s) as (_ & _ & _ & _ & _ & -> & _)
  end.
Qed.

Lemma brickLoop_mode (bs : list Brick.t) (s : World) :
  gameState (snd (brickLoop bs s)) = gameState s.
Proof.
  revert s; induction bs as [| b bs IH]; intros s; cbn [brickLoop]; [reflexivity |].
  destruct (negb (Brick.alive b)).
  - specialize (IH s); destruct (brickLoop bs s); exact IH.
  - destruct (ballOverlaps (ball s) b).
    + destruct (Ball.isFireball (ball s)).
      * destruct (destroyBrick_frame b s) as (_ & _ & _ & _ & _ & E & _); cbv zeta in E.
        destruct (destroyBrick b s) as [b' s1]; cbn [snd] in E.
        specialize (IH s1); destruct (brickLoop bs s1) as [rest' s'].
        cbn [snd] in *; now rewrite IH.
      * unfold bounceOffBrick.
        match goal with |- context [damageBrick b ?t] =>
          pose proof (damageBrick_mode b t) as E; destruct (damageBrick b t)
        end.
        exact E.
    + specialize (IH s); destruct (brickLoop bs s); exact IH.
Qed.

Lemma projectileBrickLoop_mode (p : Projectile.t) (bs : list Brick.t) (s : World) :
  gameState (snd (projectileBrickLoop p bs s)) = gameState s.
Proof.
  induction bs as [| b bs IH]; cbn [projectileBrickLoop]; [reflexivity |].
  destruct (_ && _).
  - pose proof (damageBrick_mode b s) as E.
    destruct (damageBrick b s) as [b' s1]; exact E.
  - destruct (projectileBrickLoop p bs s) as [[p' rest'] s']; exact IH.
Qed.

Lemma projectileLoop_mode (dt : R) (ps : list Projectile.t) (s : World) :
  gameState (snd (projectileLoop dt ps s)) = gameState s.
Proof.
  revert s; induction ps as [| p ps IH]; intros s; cbn [projectileLoop]; [reflexivity |].
  destruct (negb (Projectile.alive p)).
  - specialize (IH s); destruct (projectileLoop dt ps s); exact IH.
  - match goal with |- context [projectileBrickLoop ?q ?l s] =>
      pose proof (projectileBrickLoop_mode q l s) as E;
      destruct (projectileBrickLoop q l s) as [[q' bs'] s1]
    end.
    cbn [snd] in E.
    specialize (IH (set_bricks bs' s1)).
    destruct (projectileLoop dt ps (set_bricks bs' s1)) as [rest' s'].
    cbn [snd] in *; now rewrite IH.
Qed.

Lemma loseLife_mode (s : World) :
  gameState (loseLife s) = gameState s \/ gameState (loseLife s) = GS_GAMEOVER.
Proof.
  unfold loseLife; cbn [lives set_lives].
  destruct (_ <=? 0)%Z; [right; reflexivity | left; reflexivity].
Qed.

Lemma applyPerk_mode (p : Perk.t) (s : World) :
  gameState (snd (applyPerk p s)) = gameState s
  \/ gameState (snd (applyPerk p s)) = GS_GAMEOVER.
Proof.
  unfold applyPerk; cbn [snd].
  repeat (destruct (Perk.type p =? _)%Z; [left; reflexivity |]).
  destruct (Perk.type p =? 5)%Z; [apply loseLife_mode | left; reflexivity].
Qed.

Lemma perkLoop_mode (dt : R) (ps : list Perk.t) (s : World) :
  gameState (snd (perkLoop dt ps s)) = gameState s
  \/ gameState (snd (perkLoop dt ps s)) = GS_GAMEOVER.
Proof.
  revert s; induction ps as [| p ps IH]; intros s; cbn [perkLoop]; [now left |].
  destruct (negb (Perk.alive p)).
  - specialize (IH s); destruct (perkLoop dt ps s); exact IH.
  - match goal with |- context [perkCaught ?q ?pd] => destruct (perkCaught q pd) end.
    + match goal with |- context [applyPerk ?q s] =>
        pose proof (applyPerk_mode q s) as E;
        destruct (applyPerk q s) as [q' s1]
      end.
      cbn [snd] in E; specialize (IH s1).
      destruct (perkLoop dt ps s1); cbn [snd] in *.
      destruct IH as [-> | ->]; [exact E | now right].
    + specialize (IH s); destruct (perkLoop dt ps s); exact IH.
Qed.

Lemma loseLife_mode_exact (s : World) :
  gameState (loseLife s)
  = if (lives s - 1 <=? 0)%Z then GS_GAMEOVER else gameState s.
Proof.
  unfold loseLife; cbn [lives set_lives].
  destruct (_ <=? 0)%Z; reflexivity.
Qed.

Lemma handlePaddleCollision_mode (s : World) :
  gameState (handlePaddleCollision s) = gameState s.
Proof. rewrite handlePaddleCollision_eq; destruct (paddleContact s); reflexivity. Qed.

Lemma increaseBallSpeedOverTime_mode (dt : R) (s : World) :
  gameState (increaseBallSpeedOverTime dt s) = gameState s
  /\ bricksRemaining (increaseBallSpeedOverTime dt s) = bricksRemaining s.
Proof.
  unfold increaseBallSpeedOverTime, normalizeBallVelocity.
  destruct (negb _); [| split; reflexivity].
  cbn [ball set_ball]; destruct (Rgtb (sqrt _) _); split; reflexivity.
Qed.

Lemma handleBrickCollisions_mode (s : World) :
  gameState (handleBrickCollisions s) = gameState s.
Proof.
  rewrite handleBrickCollisions_eq; cbn [gameState set_bricks]; apply brickLoop_mode.
Qed.

Lemma handlePerks_mode (dt : R) (s : World) :
  gameState (handlePerks dt s) = gameState s
  \/ gameState (handlePerks dt s) = GS_GAMEOVER.
Proof.
  unfold handlePerks.
  pose proof (perkLoop_mode dt (perks s) s) as E.
  destruct (perkLoop dt (perks s) s); exact E.
Qed.

Lemma handleProjectiles_mode (dt : R) (s : World) :
  gameState (handleProjectiles dt s) = gameState s.
Proof.
  unfold handleProjectiles.
  pose proof (projectileLoop_mode dt (projectiles s) s) as E.
  destruct (projectileLoop dt (projectiles s) s); exact E.
Qed.

(** The end of [updateGame], after the speed ramp. *)
Lemma level_clear_check (s5 : World) :
  let s' := if (bricksRemaining s5 <=? 0)%Z
            then set_gameState GS_LEVEL_CLEAR (saveScore (score s5) s5) else s5 in
  (gameState s5 = GS_PLAYING \/ gameState s5 = GS_GAMEOVER) ->
  (gameState s' = GS_PLAYING \/ gameState s' = GS_GAMEOVER
   \/ gameState s' = GS_LEVEL_CLEAR)
  /\ (gameState s' = GS_LEVEL_CLEAR <-> (bricksRemaining s' <= 0)%Z).
Proof.
  cbv zeta; intros G.
  destruct (Z.leb_spec (bricksRemaining s5) 0) as [Hle | Hgt].
  - cbn [gameState bricksRemaining set_gameState].
    destruct (saveScore_frame (score s5) s5)
      as (_ & _ & _ & _ & _ & _ & _ & _ & _ & Er & _); cbv zeta in Er.
    rewrite Er.
    split; [right; right; reflexivity |].
    split; [intros _; exact Hle | reflexivity].
  - split; [destruct G as [-> | ->]; [left | right; left]; reflexivity |].
    split; [| lia].
    destruct G as [-> | ->]; discriminate.
Qed.

(** X23: where a tick can leave the mode.  A tick in play ends playing, in
    game over or in level clear, and in no other mode.  If the ball was not
    lost, the tick ends in level clear exactly when [bricksRemaining] is 0
    or less at its end, even if a death perk took the last life in the same
    tick; if the ball was lost, it ends in game over exactly when no life
    is left, and is never a level clear. *)
Theorem X23_mode_after_tick (dt : R) (now : Z) (s : World) :
  gameState s = GS_PLAYING ->
  let s' := updateGame dt now s in
  (gameState s' = GS_PLAYING \/ gameState s' = GS_GAMEOVER
   \/ gameState s' = GS_LEVEL_CLEAR)
  /\ (ballMissed (updateMotion dt now s) = false ->
      (gameState s' = GS_LEVEL_CLEAR <-> (bricksRemaining s' <= 0)%Z))
  /\ (ballMissed (updateMotion dt now s) = true ->
      (gameState s' = GS_GAMEOVER <-> (lives s - 1 <= 0)%Z)
      /\ gameState s' <> GS_LEVEL_CLEAR).
Proof.
  intros Hg s'.
  destruct (updateMotion_frame dt now s) as (Mg & _ & _ & _ & _ & Ml & _); cbv zeta in *.
  assert (E : s' = if ballMissed (updateMotion dt now s)
                   then loseLife (updateMotion dt now s)
                   else
                     let s5 := increaseBallSpeedOverTime dt
                                 (handleProjectiles dt
                                    (handlePerks dt
                                       (handleBrickCollisions
                                          (handlePaddleCollision (updateMotion dt now s))))) in
                     if (bricksRemaining s5 <=? 0)%Z
                     then set_gameState GS_LEVEL_CLEAR (saveScore (score s5) s5) else s5).
  { unfold s', updateGame; rewrite Hg; reflexivity. }
  rewrite E; clear E.
  destruct (ballMissed (updateMotion dt now s)).
  - rewrite loseLife_mode_exact, Ml, Mg, Hg.
    destruct (Z.leb_spec (lives s - 1) 0).
    + split; [right; left; reflexivity |].
      split; [discriminate |].
      intros _; split; [split; [lia | reflexivity] | discriminate].
    + split; [left; reflexivity |].
      split; [discriminate |].
      intros _; split; [split; [discriminate | lia] | discriminate].
  - cbv zeta.
    match goal with |- context [increaseBallSpeedOverTime dt ?t] =>
      destruct (increaseBallSpeedOverTime_mode dt t) as (G5 & _);
      set (s5 := increaseBallSpeedOverTime dt t) in *
    end.
    assert (G : gameState s5 = GS_PLAYING \/ gameState s5 = GS_GAMEOVER).
    { rewrite G5, handleProjectiles_mode.
      match goal with |- context [handlePerks dt ?t] =>
        destruct (handlePerks_mode dt t) as [-> | ->]; [left | now right]
      end.
      now rewrite handleBrickCollisions_mode, handlePaddleCollision_mode, Mg. }
    destruct (level_clear_check s5 G) as (H1 & H2).
    split; [exact H1 |].
    split; [intros _; exact H2 | discriminate].
Qed.

Lemma X23_mode_after_tick_witness :
  let s' := updateGame 0.016 16 (fallingWorld 1) in
  gameState s' = GS_GAMEOVER /\ gameState s' <> GS_LEVEL_CLEAR.
Proof.
  destruct (X23_mode_after_tick 0.016 16 (fallingWorld 1) eq_refl) as (_ & _ & H).
  destruct (H (fallingWorld_missed 1)) as ((_ & H1) & H2).
  split; [apply H1; cbn; lia | exact H2].
Defined.

(** ** A stuck ball, and leaving the program *)

Lemma tickFireball_geom (dt : R) (s : World) :
  Ball.stuck (ball (tickFireball dt s)) = Ball.stuck (ball s)
  /\ Ball.y (ball (tickFireball dt s)) = Ball.y (ball s)
  /\ Ball.radius (ball (tickFireball dt s)) = Ball.radius (ball s).
Proof.
  unfold tickFireball.
  destruct (Ball.isFireball (ball s)); [| repeat split].
  cbn [ball set_ball]; destruct (Rleb _ _); repeat split.
Qed.

(** X24: a stuck ball rides the middle of the paddle and is never lost.
    For a stuck ball of radius below 20 that is clear of floor and ceiling,
    and a paddle between 40 and 280 wide, the first half of a tick leaves
    the ball stuck at [paddle.x + paddle.w / 2] of the clamped paddle, at the
    same height, and the miss test fails. *)
Theorem X24_stuck_ball_rides_paddle (dt : R) (now : Z) (s : World) :
  Ball.stuck (ball s) = true ->
  40 <= Paddle.w (paddle s) <= 280 ->
  0 <= Ball.radius (ball s) < 20 ->
  Ball.radius (ball s) < Ball.y (ball s) < 600 - Ball.radius (ball s) ->
  let s' := updateMotion dt now s in
  Ball.stuck (ball s') = true
  /\ Ball.x (ball s') = Paddle.x (paddle s') + Paddle.w (paddle s') / 2
  /\ Ball.y (ball s') = Ball.y (ball s)
  /\ ballMissed s' = false.
Proof.
  intros Hs Hw Hr Hy s'.
  set (s3 := tickFireball dt (tickCooldown dt (tickClock now s))).
  assert (Ep : paddle s3 = paddle s)
    by (unfold s3; now rewrite tickFireball_paddle, tickCooldown_paddle).
  assert (Eb : Ball.stuck (ball s3) = true /\ Ball.y (ball s3) = Ball.y (ball s)
               /\ Ball.radius (ball s3) = Ball.radius (ball s)).
  { unfold s3.
    destruct (tickFireball_geom dt (tickCooldown dt (tickClock now s))) as (-> & -> & ->).
    rewrite tickCooldown_ball; unfold tickClock; cbn [ball set_elapsedTime].
    split; [exact Hs | split; reflexivity]. }
  destruct Eb as (B1 & B2 & B3).
  destruct (movePaddle_clamped dt s3) as ((C1 & C2) & C3); [rewrite Ep; lra |].
  cbv zeta in C1, C2, C3; rewrite Ep in C3.
  set (s4 := movePaddle dt s3) in *.
  assert (E4 : ball s4 = ball s3) by reflexivity.
  assert (E : s' = handleWallCollisions (moveBall dt s4)) by reflexivity.
  assert (M : ball (moveBall dt s4)
              = Ball.set_x (Paddle.x (paddle s4) + Paddle.w (paddle s4) / 2) (ball s3)).
  { unfold moveBall; cbn [ball set_ball]; now rewrite E4, B1. }
  assert (W : ball s' = ball (moveBall dt s4)).
  { rewrite E; unfold handleWallCollisions, WIN_W, WIN_H; cbn [ball set_ball].
    set (b0 := ball (moveBall dt s4)) in *.
    assert (X0 : Ball.x b0 = Paddle.x (paddle s4) + Paddle.w (paddle s4) / 2)
      by now rewrite M.
    assert (Y0 : Ball.y b0 = Ball.y (ball s)) by (rewrite M; exact B2).
    assert (R0 : Ball.radius b0 = Ball.radius (ball s)) by (rewrite M; exact B3).
    rewrite (Rleb_false (Ball.x b0 - Ball.radius b0) 0) by lra.
    rewrite (Rgeb_false (Ball.x b0 + Ball.radius b0) 800) by lra.
    rewrite (Rgeb_false (Ball.y b0 + Ball.radius b0) 600) by lra.
    reflexivity. }
  assert (P : paddle s' = paddle s4)
    by (rewrite E; now rewrite handleWallCollisions_paddle, moveBall_paddle).
  unfold ballMissed; rewrite W, M, P; cbn [Ball.stuck Ball.x Ball.y Ball.radius Ball.set_x].
  rewrite B1, B2, B3.
  split; [reflexivity |]. split; [reflexivity |]. split; [reflexivity |].
  apply Rleb_false; lra.
Qed.

Lemma X24_stuck_ball_rides_paddle_witness :
  let s' := updateMotion 0.016 16 servingWorld in
  Ball.x (ball s') = Paddle.x (paddle s') + Paddle.w (paddle s') / 2
  /\ ballMissed s' = false.
Proof.
  assert (Hw : 40 <= Paddle.w (paddle servingWorld) <= 280) by (cbn; lra).
  assert (Hr : 0 <= Ball.radius (ball servingWorld) < 20) by (cbn; lra).
  assert (Hy : Ball.radius (ball servingWorld) < Ball.y (ball servingWorld)
               < 600 - Ball.radius (ball servingWorld)) by (cbn; lra).
  destruct (X24_stuck_ball_rides_paddle 0.016 16 servingWorld eq_refl Hw Hr Hy)
    as (_ & H2 & _ & H4).
  split; [exact H2 | exact H4].
Defined.

(** X25: the program is left in one way only.  An input event ends the
    process exactly when it is the cancel key pressed in the menu; every
    other event, in every mode, returns a state. *)
Theorem X25_exit_only_by_cancel_in_menu (now : Z) (e : Event) (s : World) :
  handleEvent now e s = None <-> (e = KeyDown ESC /\ gameState s = GS_MENU).
Proof.
  split.
  - destruct e as [key | key | key | key | button state x y | x y];
      cbn [handleEvent]; try discriminate.
    unfold keyboardDown.
    destruct (Ascii.eqb_spec key ESC) as [-> | Hk].
    + destruct (GameState_eqb (gameState s) GS_MENU) eqn:G; [| discriminate].
      apply GameState_eqb_eq in G; auto.
    + repeat match goal with
             | |- context [if ?c then _ else _] => destruct c
             end; discriminate.
  - intros (-> & G); cbn [handleEvent]; unfold keyboardDown; rewrite G; reflexivity.
Qed.
